(** * Betfair directory price scraper: the planner and the download engine

    A shallow embedding of [main.py]: the file-name planner
    ([get_filename], [generate_all_filenames]), the per-request retry loop
    ([download_file_async]) and the batch driver ([download_all_files]),
    followed by the properties of the specification that they decide.

    The rest of the program follows: the directory name and the combination
    of the files ([create_directory_name], [combine_files]), the prompts of
    [user_input.py] and [main], with further properties of the whole. *)

From Stdlib Require Import ZArith QArith List String Bool Lia.
From Equations Require Import Equations.
Import ListNotations.

Local Open Scope string_scope.
Local Open Scope list_scope.
Local Open Scope Z_scope.

(** ** Python values used by the program *)

(** Exceptions, sorted by the [except] clause of [download_file_async] that
    catches them (the clauses are tried in this order, so a class stands for
    the exceptions its clause is the first to match). [TimeoutError] is
    [asyncio.TimeoutError], which is the [TimeoutError] of the language since
    Python 3.11, an [OSError], whatever raises it. [OtherError] stands for
    anything else an [except Exception] clause catches: [ValueError],
    [TypeError], [OverflowError], ... *)
Inductive exn : Type :=
| TimeoutError
| ClientError (text : string)
| IOError (text : string)
| OtherError (name : string).

(** [datetime]: a naive datetime, as the number of microseconds since
    [datetime.min] (0001-01-01 00:00:00); the representable values end with
    [datetime.max] (9999-12-31 23:59:59.999999). *)
Module Datetime.

Definition datetime : Type := Z.

Definition us_per_day : Z := 86400 * 1000000.

(** [date.max.toordinal()] *)
Definition max_ordinal : Z := 3652059.

Definition representable (t : datetime) : Prop :=
  0 <= t < max_ordinal * us_per_day.

Definition representableb (t : datetime) : bool :=
  (0 <=? t) && (t <? max_ordinal * us_per_day).

(** [t + timedelta(days=n)]; out of range is Python's [OverflowError]. *)
Definition add_days (t : datetime) (n : Z) : exn + datetime :=
  let t' := t + n * us_per_day in
  if representableb t' then inr t' else inl (OtherError "OverflowError").

(** [(a - b).days]: a timedelta is normalised with a floor division. *)
Definition days_between (a b : datetime) : Z := (a - b) / us_per_day.

(** [t.toordinal()], the calendar day of [t]. *)
Definition toordinal (t : datetime) : Z := t / us_per_day + 1.

(** [t.time()], in microseconds after midnight. *)
Definition time_of_day (t : datetime) : Z := t mod us_per_day.

End Datetime.
Import Datetime.

(** ** The planner *)

Section Planner.

(** [date.strftime("%d%m%Y")], from the standard library. *)
Variable strftime_dmY : datetime -> string.

(** [not country] holds of [None] and of the empty string. *)
Definition falsy (country : option string) : bool :=
  match country with
  | None => true
  | Some c => (c =? "")%string
  end.

Definition country_text (country : option string) : string :=
  match country with Some c => c | None => "None" end.

Definition get_filename (race_type market : string) (date : datetime)
    (country : option string) : option string :=
  let date_str := strftime_dmY date in
  if (race_type =? "g")%string then
    if (market =? "w")%string then
      Some ("dwbfgreyhoundwin" ++ date_str ++ ".csv")%string
    else if (market =? "p")%string then
      Some ("dwbfgreyhoundplace" ++ date_str ++ ".csv")%string
    else None
  else if (race_type =? "h")%string then
    if falsy country then None
    else if (market =? "p")%string then
      if (country_text country =? "fr")%string then
        Some ("dwbfpricesfrplaced" ++ date_str ++ ".csv")%string
      else
        Some ("dwbfprices" ++ country_text country ++ "place" ++ date_str ++ ".csv")%string
    else if (market =? "w")%string then
      Some ("dwbfprices" ++ country_text country ++ "win" ++ date_str ++ ".csv")%string
    else None
  else None.

(** Keeps the equation of a case analysis, for the termination proof. *)
Definition inspect {A : Type} (a : A) : {b : A | a = b} := exist _ a eq_refl.

(** The [while current_date <= end_date] loop of [generate_all_filenames],
    with the list built so far. It terminates because a day is added at
    every turn: the measure is the number of whole days left. *)
Equations? filenames_loop (country : option string) (race_type market : string)
    (end_date current_date : datetime)
    (filenames : list (option string * datetime))
    : exn + list (option string * datetime)
    by wf (Z.to_nat (days_between end_date current_date + 1)) lt :=
  filenames_loop country race_type market end_date current_date filenames
    with Z_le_dec current_date end_date => {
    | right _ := inr filenames
    | left _ with inspect (add_days current_date 1) => {
      | exist _ (inl e) _ := inl e
      | exist _ (inr next_date) _ :=
          filenames_loop country race_type market end_date next_date
            (filenames ++
               [(get_filename race_type market current_date country, current_date)])
      }
    }.
Proof.
  unfold add_days in e.
  destruct (representableb _); [ | discriminate ].
  injection e as <-.
  change (lt (Z.to_nat (days_between end_date (current_date + 1 * us_per_day) + 1))
             (Z.to_nat (days_between end_date current_date + 1))).
  unfold days_between.
  replace (end_date - (current_date + 1 * us_per_day))
    with (end_date - current_date + (-1) * us_per_day) by ring.
  rewrite Z.div_add by (unfold us_per_day; lia).
  assert (0 <= (end_date - current_date) / us_per_day)
    by (apply Z.div_pos; unfold us_per_day; lia).
  lia.
Qed.

Definition generate_all_filenames (country : option string)
    (race_type market : string) (start_date end_date : datetime)
    : exn + list (option string * datetime) :=
  filenames_loop country race_type market end_date start_date [].

End Planner.

(** ** The download engine *)

Definition bytes : Type := list Byte.byte.

(** A Python [float]: a finite number, as the rational it stands for, or one
    of the three values that are no number. *)
Inductive nonfinite : Type :=
| PlusInf
| MinusInf
| NaN.

Inductive pyfloat : Type :=
| Finite (q : Q)
| NonFinite (x : nonfinite).

(** The lines the engine prints, one constructor per [print] of the source;
    the date a line starts with is kept as the datetime it formats. *)
Inductive message : Type :=
| MsgRetry (date : datetime) (attempt : Z) (delay : Q)
| MsgSaved (date : datetime) (filename : string)
| MsgRateLimitedWait (date : datetime) (wait_time : pyfloat)
| MsgRateLimitedMax (date : datetime)
| MsgHttpStatus (date : datetime) (status : Z)
| MsgTimeoutRetry (date : datetime)
| MsgTimeoutMax (date : datetime)
| MsgNetworkRetry (date : datetime)
| MsgNetworkError (date : datetime) (text : string)
| MsgFileError (date : datetime) (text : string)
| MsgUnexpected (date : datetime) (e : exn)
| MsgStarting (tasks : Z)
| MsgSummary (successful failed : Z).

(** What a task does to the outside world, in program order. [Get] is the
    entry of [async with session.get(url)], where a connection of the pool is
    taken, and [ConnRelease] its exit; [SemAcquire] and [SemRelease] are the
    entry and the exit of [async with semaphore]. [Sleep] is an
    [asyncio.sleep] of a finite delay, [SleepNonFinite] one of a delay that
    is an infinity or a NaN. *)
Inductive event : Type :=
| SemAcquire
| SemRelease
| Sleep (seconds : Q)
| SleepNonFinite (delay : nonfinite)
| Get (url : string)
| ConnRelease
| WriteFile (path : string) (content : bytes)
| Print (m : message).

(** The server's answer to one GET: status line, the value of the
    [Retry-After] header when there is one, and what [response.read()]
    gives. *)
Record response : Type := mkResponse {
  status : Z;
  retry_after : option string;
  read : exn + bytes
}.

(** How a computation ends when it does not return: it raises, or it never
    ends, awaiting a sleep that is never over. *)
Inductive halt : Type :=
| Raises (e : exn)
| Hangs.

(** How [await asyncio.sleep(nan)] ends: with [ValueError] since Python 3.13;
    before, as the timers of the event loop have it, at some time or
    never. *)
Inductive nan_sleep : Type :=
| NanRefused
| NanOver
| NanNever.

(** What the world does during one attempt: [session.get] raises or returns
    a response, [open]/[file.write] raise or go through, and
    [asyncio.sleep(nan)] ends in one of its ways. *)
Record attempt_env : Type := mkAttempt {
  get : exn + response;
  disk : option exn;
  sleep_nan : nan_sleep
}.

(** A computation that leaves a trace and returns, raises or never ends. *)
Definition M (A : Type) : Type := (list event * (halt + A))%type.

Definition ret {A : Type} (a : A) : M A := ([], inr a).

Definition raise {A : Type} (e : exn) : M A := ([], inl (Raises e)).

Definition bind {A B : Type} (m : M A) (k : A -> M B) : M B :=
  match m with
  | (t, inl h) => (t, inl h)
  | (t, inr a) => let (t', r) := k a in (t ++ t', r)
  end.

Definition emit (ev : event) : M unit := ([ev], inr tt).

(** [try: m except e: h e] *)
Definition try_except {A : Type} (m : M A) (h : exn -> M A) : M A :=
  match m with
  | (t, inl (Raises e)) => let (t', r) := h e in (t ++ t', r)
  | (t, inl Hangs) => (t, inl Hangs)
  | (t, inr a) => (t, inr a)
  end.

(** The exit of a [with] block: [ev] happens however the block ends, when it
    ends. *)
Definition ensure {A : Type} (m : M A) (ev : event) : M A :=
  match m with
  | (t, inl Hangs) => (t, inl Hangs)
  | (t, r) => (t ++ [ev], r)
  end.

Notation "x <- c1 ;; c2" := (bind c1 (fun x => c2))
  (at level 61, c1 at next level, right associativity).
Notation "c1 ;; c2" := (bind c1 (fun _ => c2))
  (at level 61, right associativity).

(** The loop body either goes to the next attempt or returns. *)
Inductive control : Type :=
| Continue
| Return (b : bool).

Definition trace_of {A : Type} (m : M A) : list event := fst m.
Definition result_of {A : Type} (m : M A) : halt + A := snd m.

Definition BASE_URL : string := "https://promo.betfair.com/betfairsp/prices/".

Definition max_retries : Z := 3.

Definition base_delay : Q := 1.

(** [range(n)] *)
Definition range (n : Z) : list Z := map Z.of_nat (seq 0 (Z.to_nat n)).

Section Engine.

(** [Path(save_dir) / filename], from [pathlib]. *)
Variable path_join : string -> string -> string.

(** [float(s)] on a string, from the language; [None] is [ValueError].
    The strings that denote an infinity or a NaN ([inf], [-Infinity], [nan],
    ...) and those of numbers too large for a float ([1e999]) have a value
    that is not finite. *)
Variable float_of_string : string -> option pyfloat.

(** [await asyncio.sleep(delay)]: over after [delay] seconds, at once when
    [delay <= 0], and never when [delay] is [inf]. *)
Definition sleep (w : attempt_env) (delay : pyfloat) : M unit :=
  match delay with
  | Finite seconds => emit (Sleep seconds)
  | NonFinite PlusInf => ([SleepNonFinite PlusInf], inl Hangs)
  | NonFinite MinusInf => emit (SleepNonFinite MinusInf)
  | NonFinite NaN =>
      match sleep_nan w with
      | NanRefused => ([SleepNonFinite NaN], inl (Raises (OtherError "ValueError")))
      | NanOver => emit (SleepNonFinite NaN)
      | NanNever => ([SleepNonFinite NaN], inl Hangs)
      end
  end.

Definition print (m : message) : M unit := emit (Print m).

Definition float (s : string) : M pyfloat :=
  match float_of_string s with
  | Some x => ret x
  | None => raise (OtherError "ValueError")
  end.

(** [async with session.get(url) as response: body] *)
Definition with_response {A : Type} (w : attempt_env) (url : string)
    (body : response -> M A) : M A :=
  emit (Get url) ;;
  ensure (match get w with
          | inl e => raise e
          | inr resp => body resp
          end) ConnRelease.

Definition response_read (resp : response) : M bytes :=
  match read resp with
  | inl e => raise e
  | inr content => ret content
  end.

(** [with open(save_path, 'wb') as file: file.write(content)] *)
Definition write_file (w : attempt_env) (save_path : string) (content : bytes)
    : M unit :=
  match disk w with
  | Some e => raise e
  | None => emit (WriteFile save_path content)
  end.

(** [response.headers.get('Retry-After', default)] *)
Definition headers_get_retry_after (resp : response) (default : string) : string :=
  match retry_after resp with
  | Some v => v
  | None => default
  end.

(** [base_delay * (2 ** (attempt - 1))] *)
Definition backoff (attempt : Z) : Q :=
  (base_delay * inject_Z (2 ^ (attempt - 1)))%Q.

Section Task.

Variables (filename : string) (date : datetime) (save_path url : string).

(** The [try] block of one turn of the loop. *)
Definition attempt_body (attempt : Z) (w : attempt_env) : M control :=
  (if attempt >? 0 then
     let delay := backoff attempt in
     print (MsgRetry date attempt delay) ;;
     sleep w (Finite delay)
   else
     sleep w (Finite (1 # 10)%Q)) ;;
  with_response w url (fun resp =>
    if status resp =? 200 then
      content <- response_read resp ;;
      write_file w save_path content ;;
      print (MsgSaved date filename) ;;
      ret (Return true)
    else if status resp =? 429 then
      if attempt <? max_retries then
        let retry_after := headers_get_retry_after resp "5" in
        wait_time <- float retry_after ;;
        print (MsgRateLimitedWait date wait_time) ;;
        sleep w wait_time ;;
        ret Continue
      else
        print (MsgRateLimitedMax date) ;;
        ret (Return false)
    else
      print (MsgHttpStatus date (status resp)) ;;
      ret (Return false)).

(** The [except] clauses, in the order of the source. *)
Definition handlers (attempt : Z) (e : exn) : M control :=
  match e with
  | TimeoutError =>
      if attempt <? max_retries then
        print (MsgTimeoutRetry date) ;; ret Continue
      else
        print (MsgTimeoutMax date) ;; ret (Return false)
  | ClientError text =>
      if attempt <? max_retries then
        print (MsgNetworkRetry date) ;; ret Continue
      else
        print (MsgNetworkError date text) ;; ret (Return false)
  | IOError text =>
      print (MsgFileError date text) ;; ret (Return false)
  | OtherError _ =>
      print (MsgUnexpected date e) ;; ret (Return false)
  end.

Definition attempt_turn (attempt : Z) (w : attempt_env) : M control :=
  try_except (attempt_body attempt w) (handlers attempt).

(** [for attempt in attempts: ...], then the [return False] after the
    loop. *)
Fixpoint for_attempts (world : Z -> attempt_env) (attempts : list Z) : M bool :=
  match attempts with
  | [] => ret false
  | attempt :: rest =>
      c <- attempt_turn attempt (world attempt) ;;
      match c with
      | Continue => for_attempts world rest
      | Return b => ret b
      end
  end.

End Task.

(** [Path(save_dir) / filename] and [BASE_URL + filename] raise [TypeError]
    when [filename] is [None]. *)
Definition path_div (save_dir : string) (filename : option string) : M string :=
  match filename with
  | Some f => ret (path_join save_dir f)
  | None => raise (OtherError "TypeError")
  end.

Definition str_add (prefix : string) (filename : option string) : M string :=
  match filename with
  | Some f => ret (prefix ++ f)%string
  | None => raise (OtherError "TypeError")
  end.

Definition filename_text (filename : option string) : string :=
  match filename with Some f => f | None => "None" end.

Definition download_file_async (world : Z -> attempt_env)
    (filename : option string) (date : datetime) (save_dir : string) : M bool :=
  emit SemAcquire ;;
  ensure (save_path <- path_div save_dir filename ;;
          url <- str_add BASE_URL filename ;;
          for_attempts (filename_text filename) date save_path url world
            (range (max_retries + 1)))
         SemRelease.

End Engine.

(** ** The batch driver *)

(** [r is True], on an element of the list [asyncio.gather] returns with
    [return_exceptions=True]: a returned boolean or the exception raised. *)
Definition is_True (r : exn + bool) : bool :=
  match r with
  | inr true => true
  | _ => false
  end.

(** [sum(...)] of integers. *)
Definition sum (l : list Z) : Z := fold_left Z.add l 0.

(** [await asyncio.gather] of the tasks with [return_exceptions=True]: what
    each task returned or raised, in the order of the tasks, once all of
    them have ended; [None] when one of them never ends. *)
Fixpoint gather (tasks : list (M bool)) : option (list (exn + bool)) :=
  match tasks with
  | [] => Some []
  | m :: rest =>
      match result_of m, gather rest with
      | inr b, Some l => Some (inr b :: l)
      | inl (Raises e), Some l => Some (inl e :: l)
      | _, _ => None
      end
  end.

(** The result of a task that [gather] keeps as [r]. *)
Definition result_kept (r : exn + bool) : halt + bool :=
  match r with
  | inl e => inl (Raises e)
  | inr b => inr b
  end.

(** What the lines after [gather] compute. *)
Record summary : Type := mkSummary {
  results : list (exn + bool);
  successful : Z;
  failed : Z
}.

(** The tasks created, the summary when [gather] returns, and the lines
    printed. *)
Record batch : Type := mkBatch {
  tasks : list (M bool);
  gathered : option summary;
  printed : list message
}.

Section Batch.

Variable path_join : string -> string -> string.
Variable float_of_string : string -> option pyfloat.

(** The list comprehension that creates one task per entry of [urls]; the
    world of the task at position [i] is [world i]. *)
Fixpoint spawn (world : nat -> Z -> attempt_env) (i : nat)
    (urls : list (option string * datetime)) (save_dir : string)
    : list (M bool) :=
  match urls with
  | [] => []
  | (filename, date) :: rest =>
      download_file_async path_join float_of_string (world i) filename date save_dir
        :: spawn world (S i) rest save_dir
  end.

Definition download_all_files (world : nat -> Z -> attempt_env)
    (urls : list (option string * datetime)) (save_dir : string) : batch :=
  let tasks := spawn world 0 urls save_dir in
  let starting := MsgStarting (Z.of_nat (List.length tasks)) in
  match gather tasks with
  | None => mkBatch tasks None [starting]
  | Some results =>
      let successful := sum (map (fun _ => 1) (filter is_True results)) in
      let failed := Z.of_nat (List.length results) - successful in
      mkBatch tasks (Some (mkSummary results successful failed))
              [starting; MsgSummary successful failed]
  end.

End Batch.

(** ** The scheduler

    [asyncio.gather] runs the tasks interleaved. A task advances one event
    at a time; [asyncio.Semaphore(2)] lets a task enter [async with
    semaphore] only while its value is positive, and
    [aiohttp.TCPConnector(limit=3)] hands out a connection only while fewer
    than three are in use. *)

Definition semaphore_value : Z := 2.

Definition connector_limit : Z := 3.

Record task_state : Type := mkTask {
  done : list event;
  todo : list event
}.

Record sched : Type := mkSched {
  permits : Z;
  in_use : Z;
  running : list task_state
}.

Definition enabled (ev : event) (permits in_use : Z) : bool :=
  match ev with
  | SemAcquire => 0 <? permits
  | Get _ => in_use <? connector_limit
  | _ => true
  end.

Definition permits_after (ev : event) (permits : Z) : Z :=
  match ev with
  | SemAcquire => permits - 1
  | SemRelease => permits + 1
  | _ => permits
  end.

Definition in_use_after (ev : event) (in_use : Z) : Z :=
  match ev with
  | Get _ => in_use + 1
  | ConnRelease => in_use - 1
  | _ => in_use
  end.

Inductive step : sched -> sched -> Prop :=
| step_event (permits in_use : Z) (before after : list task_state)
    (d : list event) (ev : event) (rest : list event) :
    enabled ev permits in_use = true ->
    step (mkSched permits in_use (before ++ mkTask d (ev :: rest) :: after))
         (mkSched (permits_after ev permits) (in_use_after ev in_use)
                  (before ++ mkTask (d ++ [ev]) rest :: after)).

Inductive reachable (s0 : sched) : sched -> Prop :=
| reachable_start : reachable s0 s0
| reachable_step (s s' : sched) : reachable s0 s -> step s s' -> reachable s0 s'.

Definition start_of (b : batch) : sched :=
  mkSched semaphore_value 0 (map (fun m => mkTask [] (trace_of m)) (tasks b)).

(** ** What is observed of a trace *)

Definition is_sleep (ev : event) : bool :=
  match ev with Sleep _ | SleepNonFinite _ => true | _ => false end.

Definition is_get (ev : event) : bool :=
  match ev with Get _ => true | _ => false end.

Definition is_conn_release (ev : event) : bool :=
  match ev with ConnRelease => true | _ => false end.

(** The URLs requested, one per attempt. *)
Fixpoint gets (t : list event) : list string :=
  match t with
  | [] => []
  | Get url :: t' => url :: gets t'
  | _ :: t' => gets t'
  end.

Fixpoint writes (t : list event) : list (string * bytes) :=
  match t with
  | [] => []
  | WriteFile path content :: t' => (path, content) :: writes t'
  | _ :: t' => writes t'
  end.

Fixpoint prints (t : list event) : list message :=
  match t with
  | [] => []
  | Print m :: t' => m :: prints t'
  | _ :: t' => prints t'
  end.

(** The sleeps of a trace that have a number of seconds, grouped by the
    request they precede: the first list holds the sleeps before the first
    GET, the second those between the first and the second GET, ..., the
    last those after the last GET. *)
Fixpoint waits_from (t : list event) (current : list Q) : list (list Q) :=
  match t with
  | [] => [current]
  | Get _ :: t' => current :: waits_from t' []
  | Sleep d :: t' => waits_from t' (current ++ [d])
  | _ :: t' => waits_from t' current
  end.

Definition waits (t : list event) : list (list Q) := waits_from t [].

Definition total (ds : list Q) : Q := fold_right Qplus 0%Q ds.

Definition is_sem_release (ev : event) : bool :=
  match ev with SemRelease => true | _ => false end.

(** A task is past its pacing delay once it has slept, and unresolved until
    it has left the semaphore; a task that sleeps for ever stays so. *)
Definition active (t : task_state) : bool :=
  existsb is_sleep (done t) && negb (existsb is_sem_release (done t)).

Definition count {A : Type} (p : A -> bool) (l : list A) : Z :=
  Z.of_nat (List.length (filter p l)).

(** The connections a task holds: taken and not given back. *)
Definition open_connections (t : task_state) : Z :=
  count is_get (done t) - count is_conn_release (done t).

Definition connections (s : sched) : Z :=
  sum (map open_connections (running s)).

(** ** Library functions at the strings used in the examples *)

(** [Path(save_dir) / filename] for a relative [filename]. *)
Definition posix_join (save_dir filename : string) : string :=
  (save_dir ++ "/" ++ filename)%string.

Fixpoint digits_value (s : string) (acc : Z) : option Z :=
  match s with
  | EmptyString => Some acc
  | String c rest =>
      let n := Z.of_nat (Ascii.nat_of_ascii c) in
      if (48 <=? n) && (n <=? 57) then digits_value rest (10 * acc + (n - 48))
      else None
  end.

(** [float] on the strings made of decimal digits only, where it agrees
    with Python, and [None] elsewhere. *)
Definition float_of_digits (s : string) : option pyfloat :=
  match s with
  | EmptyString => None
  | _ => option_map (fun n => Finite (inject_Z n)) (digits_value s 0)
  end.

(** [date.strftime("%d%m%Y")] for the years of four digits: the day, the
    month and the year of the proleptic Gregorian calendar, zero-padded. *)
Definition civil_of_ordinal (ordinal : Z) : Z * Z * Z :=
  let z := ordinal + 305 in
  let era := z / 146097 in
  let doe := z mod 146097 in
  let yoe := (doe - doe / 1460 + doe / 36524 - doe / 146096) / 365 in
  let doy := doe - (365 * yoe + yoe / 4 - yoe / 100) in
  let mp := (5 * doy + 2) / 153 in
  let d := doy - (153 * mp + 2) / 5 + 1 in
  let m := if mp <? 10 then mp + 3 else mp - 9 in
  let y := yoe + era * 400 + (if m <=? 2 then 1 else 0) in
  (y, m, d).

Definition digit (n : Z) : string :=
  String (Ascii.ascii_of_nat (Z.to_nat (48 + n mod 10))) EmptyString.

Definition two_digits (n : Z) : string :=
  (digit (n / 10) ++ digit n)%string.

Definition four_digits (n : Z) : string :=
  (two_digits (n / 100) ++ two_digits n)%string.

Definition strftime_dmY_gregorian (t : datetime) : string :=
  let '(y, m, d) := civil_of_ordinal (toordinal t) in
  (two_digits d ++ two_digits m ++ four_digits y)%string.

(** The entries planned for [n] consecutive days from [start_date] on. *)
Definition planned (strftime_dmY : datetime -> string) (country : option string)
    (race_type market : string) (start_date : datetime) (n : nat)
    : list (option string * datetime) :=
  map (fun k => let d := start_date + Z.of_nat k * us_per_day in
                (get_filename strftime_dmY race_type market d country, d))
      (seq 0 n).

(** ** Runs of the retry loop *)

(** The events before the request of a turn: the pacing delay of the first
    attempt, the announced backoff delay of the later ones. *)
Definition before_get (date : datetime) (attempt : Z) : list event :=
  if attempt >? 0 then
    [Print (MsgRetry date attempt (backoff attempt)); Sleep (backoff attempt)]
  else [Sleep (1 # 10)%Q].

(** The run gets as far as attempt [k]: every earlier turn ends in
    [continue]. *)
Definition reaches (float_of_string : string -> option pyfloat)
    (filename : string) (date : datetime) (save_path url : string)
    (world : Z -> attempt_env) (k : Z) : Prop :=
  forall j, 0 <= j < k ->
    result_of (attempt_turn float_of_string filename date save_path url j (world j))
    = inr Continue.

(** The turns of a run that gets as far as attempt [k]. *)
Definition turns_before (float_of_string : string -> option pyfloat)
    (filename : string) (date : datetime) (save_path url : string)
    (world : Z -> attempt_env) (k : Z) : list event :=
  flat_map (fun j => trace_of (attempt_turn float_of_string filename date
                                 save_path url j (world j)))
           (range k).

(** A request times out when [session.get] or [response.read] runs into the
    client timeout. *)
Definition times_out (w : attempt_env) : Prop :=
  get w = inl TimeoutError \/
  exists resp, get w = inr resp /\ status resp = 200 /\ read resp = inl TimeoutError.

(** ** Tasks and the two gates *)

(** Where a task is with respect to the semaphore and the connection pool. *)
Inductive phase : Type :=
| Waiting
| Inside
| Connected
| Finished.

Definition phase_step (p : phase) (ev : event) : option phase :=
  match p, ev with
  | Waiting, SemAcquire => Some Inside
  | Inside, SemRelease => Some Finished
  | Inside, Get _ => Some Connected
  | Connected, ConnRelease => Some Inside
  | Inside, (Sleep _ | SleepNonFinite _ | WriteFile _ _ | Print _) => Some Inside
  | Connected, (Sleep _ | SleepNonFinite _ | WriteFile _ _ | Print _) =>
      Some Connected
  | _, _ => None
  end.

Fixpoint phase_after (p : phase) (t : list event) : option phase :=
  match t with
  | [] => Some p
  | ev :: t' =>
      match phase_step p ev with
      | Some p' => phase_after p' t'
      | None => None
      end
  end.

Definition task_phase (t : task_state) : phase :=
  match phase_after Waiting (done t) with
  | Some p => p
  | None => Waiting
  end.

Definition holds (p : phase) : Z :=
  match p with
  | Inside | Connected => 1
  | _ => 0
  end.

Definition connected (p : phase) : Z :=
  match p with
  | Connected => 1
  | _ => 0
  end.

(** A task whose events, those behind it and those to come, pass the gates
    in order: in through the semaphore, connections taken and given back
    inside, out through the semaphore at the end, when it has one. *)
Definition well_bracketed (t : task_state) : Prop :=
  exists p q, phase_after Waiting (done t) = Some p /\
              phase_after p (todo t) = Some q.

(** Where a task is once it has done all its events: out of the semaphore,
    or asleep for ever inside it, with its connection. *)
Definition last_phase {A : Type} (m : M A) : phase :=
  match result_of m with
  | inl Hangs => Connected
  | _ => Finished
  end.

Definition holders (l : list task_state) : Z :=
  sum (map (fun t => holds (task_phase t)) l).

Definition connected_tasks (l : list task_state) : Z :=
  sum (map (fun t => connected (task_phase t)) l).

Record gates_invariant (s : sched) : Prop := mkInvariant {
  inv_tasks : Forall well_bracketed (running s);
  inv_permits : permits s + holders (running s) = semaphore_value;
  inv_permits_nonneg : 0 <= permits s;
  inv_in_use : in_use s = connected_tasks (running s);
  inv_in_use_bound : in_use s <= connector_limit
}.

(** Whether a task has entered [async with semaphore] and not left it. *)
Definition is_sem_acquire (ev : event) : bool :=
  match ev with SemAcquire => true | _ => false end.

Definition in_loop (t : task_state) : bool :=
  existsb is_sem_acquire (done t) && negb (existsb is_sem_release (done t)).

(** ** Example inputs *)

(** 2020-01-01 00:00:00 *)
Definition new_year_2020 : datetime := 737424 * us_per_day.

(** 9999-12-31 00:00:00 *)
Definition last_day : datetime := (max_ordinal - 1) * us_per_day.

Definition uk_win_file : string := "dwbfpricesukwin01012020.csv".

Definition uk_win_dir : string := "uk_horse_win_2020-01-01_2020-01-03".

(** The bytes of [a,b]. *)
Definition csv_body : bytes := [Byte.x61; Byte.x2c; Byte.x62].

Definition answers (status : Z) (retry_after : option string) : attempt_env :=
  mkAttempt (inr (mkResponse status retry_after (inr csv_body))) None NanRefused.

Definition always_200 : Z -> attempt_env := fun _ => answers 200 None.

Definition always_500 : Z -> attempt_env := fun _ => answers 500 None.

Definition always_timeout : Z -> attempt_env :=
  fun _ => mkAttempt (inl TimeoutError) None NanRefused.

(** 429 with [Retry-After: 2], then 200. *)
Definition limited_once : Z -> attempt_env :=
  fun attempt => if attempt =? 0 then answers 429 (Some "2") else answers 200 None.

(** 429 with a [Retry-After] that is an HTTP date. *)
Definition limited_until_date : Z -> attempt_env :=
  fun _ => answers 429 (Some "Wed, 21 Oct 2015 07:28:00 GMT").

(** 429 without [Retry-After] at every attempt. *)
Definition always_limited : Z -> attempt_env := fun _ => answers 429 None.


(** ** Selections and the download directory *)

(** [COUNTRIES_MAP] of [user_input.py], in the order of the source. *)
Definition COUNTRIES_MAP : list (string * string) :=
  [("aus", "Australia");
   ("rsa", "South Africa");
   ("fr", "France");
   ("usa", "United States of America");
   ("uk", "United Kingdom");
   ("ire", "Ireland");
   ("uae", "United Arab Emirates")].

(** [key in COUNTRIES_MAP] *)
Definition in_countries (key : string) : bool :=
  existsb (String.eqb key) (map fst COUNTRIES_MAP).

(** [COUNTRIES_MAP[key]]; [None] is [KeyError]. *)
Fixpoint lookup (key : string) (table : list (string * string)) : option string :=
  match table with
  | [] => None
  | (k, v) :: rest => if (key =? k)%string then Some v else lookup key rest
  end.

(** The selections [get_filename] has a file name for. *)
Definition names_a_file (race_type market : string) (country : option string) : bool :=
  ((race_type =? "g")%string
   || ((race_type =? "h")%string && negb (falsy country)))
  && ((market =? "w")%string || (market =? "p")%string).

(** The selections the prompts let through: a race type and a market of the
    two offered, and a country of the table for horse racing only. *)
Definition validated (country : option string) (race_type market : string) : Prop :=
  ((race_type = "h" /\ exists c, country = Some c /\ in_countries c = true)
   \/ (race_type = "g" /\ country = None))
  /\ (market = "w" \/ market = "p").

Section Directory.

(** [str(d.date())] by the calendar day of [d], from the standard library. *)
Variable isoformat : Z -> string.

Definition create_directory_name (country : option string)
    (race_type market : string) (start_date end_date : datetime) : string :=
  let country_part := if falsy country then "all" else country_text country in
  let race_part := if (race_type =? "g")%string then "greyhound" else "horse" in
  let market_part := if (market =? "w")%string then "win" else "place" in
  (country_part ++ "_" ++ race_part ++ "_" ++ market_part ++ "_"
     ++ isoformat (toordinal start_date) ++ "_"
     ++ isoformat (toordinal end_date))%string.

End Directory.

(** ** Combining the downloaded files *)

Definition newline : Ascii.ascii := Ascii.ascii_of_nat 10.

(** [f.readlines()] on the text of a file: its lines, each with the newline
    that ends it. *)
Fixpoint readlines (text : string) : list string :=
  match text with
  | EmptyString => []
  | String c rest =>
      if Ascii.eqb c newline then String c EmptyString :: readlines rest
      else
        match readlines rest with
        | [] => [String c EmptyString]
        | line :: lines => String c line :: lines
        end
  end.

(** What [f.writelines(lines)] appends to the file. *)
Definition writelines (lines : list string) : string := String.concat "" lines.

(** The lines [combine_files] prints. *)
Inductive combine_line : Type :=
| CombineError (e : exn)
| CombineDone (output_file : string).

(** What the file system does for [combine_files]: the paths [glob.glob]
    finds for a pattern, whether the output file can be opened for writing,
    and, for a file of the loop, the text that [open] and [readlines] give
    when the loop comes to it (decoded, newlines translated) or the exception
    they raise. Writing to the open output file goes through. *)
Record combine_env : Type := mkCombineEnv {
  glob : string -> list string;
  open_write : string -> option exn;
  read_text : string -> exn + string
}.

(** The output file: [None] when it could not be opened, else what was
    written to it; and the lines printed. *)
Record combined : Type := mkCombined {
  output : option string;
  console : list combine_line
}.

Section Combine.

(** [os.path.join], from the standard library. *)
Variable os_path_join : string -> string -> string.

Variable env : combine_env.

(** The [for i, file in enumerate(csv_files)] loop from index [i] on, with
    what is written so far; it stops at the first exception. *)
Fixpoint combine_loop (i : nat) (csv_files : list string) (written : string)
    : string * option exn :=
  match csv_files with
  | [] => (written, None)
  | file :: rest =>
      match read_text env file with
      | inl e => (written, Some e)
      | inr text =>
          let lines := readlines text in
          if Nat.eqb i 0 then
            combine_loop (S i) rest (written ++ writelines lines)%string
          else
            combine_loop (S i) rest (written ++ writelines (tl lines))%string
      end
  end.

Definition combine_files (dir_name filename : string) : combined :=
  let output_file := (filename ++ ".csv")%string in
  let csv_files := glob env (os_path_join dir_name "*.csv") in
  match open_write env output_file with
  | Some e => mkCombined None [CombineError e; CombineDone output_file]
  | None =>
      match combine_loop 0 csv_files "" with
      | (written, Some e) =>
          mkCombined (Some written) [CombineError e; CombineDone output_file]
      | (written, None) =>
          mkCombined (Some written) [CombineDone output_file]
      end
  end.

End Combine.

(** The text of a file after its first line. *)
Fixpoint drop_first_line (text : string) : string :=
  match text with
  | EmptyString => EmptyString
  | String c rest => if Ascii.eqb c newline then rest else drop_first_line rest
  end.

(** The first text whole, the others from their second line on. *)
Definition combine_text (texts : list string) : string :=
  match texts with
  | [] => EmptyString
  | first :: others =>
      (first ++ String.concat "" (map drop_first_line others))%string
  end.

Fixpoint no_newline (text : string) : bool :=
  match text with
  | EmptyString => true
  | String c rest => negb (Ascii.eqb c newline) && no_newline rest
  end.

(** ** The prompts of [user_input.py] *)

(** [EARLIEST_DATE], 2008-09-02 00:00:00. *)
Definition EARLIEST_DATE : datetime := 733286 * us_per_day.

(** [t.replace(hour=0, minute=0, second=0, microsecond=0)] *)
Definition midnight (t : datetime) : datetime := t - time_of_day t.

(** What is written to the terminal, one constructor per [print] and per
    prompt of an [input] of the source; a line that shows a date, a name or a
    number keeps the value it formats. [SayRule blank n] is ["=" * n], after
    an empty line when [blank] is set. *)
Inductive console_out : Type :=
| SayBanner
| SayRule (blank : bool) (n : Z)
| SayRaceType
| AskRaceType
| SayRaceTypeInvalid
| SayMarketType
| AskMarketType
| SayMarketInvalid
| SayCountries
| SayCountry (code name : string)
| AskCountry
| SayCountryInvalid (codes : list string)
| SayStartDate (earliest : datetime)
| AskDate
| SayStartTooEarly (earliest : datetime)
| SayStartInFuture
| SayDateFormat
| SayEndDate
| SayEndFormatHint
| SayEndTodayHint
| SayEndYesterdayHint
| AskChoice
| SayEndInFuture
| SayEndBeforeStart (start_date : datetime)
| SayEndInvalid
| AskCombine
| SayYesOrNo
| SaySummaryTitle
| SaySummaryCountry (name : string)
| SaySummaryRace (name : string)
| SaySummaryMarket (name : string)
| SaySummaryDates (start_date end_date : datetime)
| SaySummaryDays (total_days : Z)
| SaySummaryCombine (combine : bool)
| AskProceed
| SayStarting
| SayCancelled.

(** The lines still to come on the standard input, each with the reading of
    the clock while it is handled ([datetime.now()] is read at most once per
    line). *)
Definition pending : Type := list (string * datetime).

(** How a function ends other than by returning: an exception, or
    [exit(code)]. *)
Inductive stop : Type :=
| Raised (e : exn)
| Exited (code : Z).

(** What was written, how the function ended, and the lines left. *)
Definition answer (A : Type) : Type := (list console_out * (stop + A) * pending)%type.

Definition and_then {A B : Type} (m : pending -> answer A)
    (k : A -> pending -> answer B) : pending -> answer B :=
  fun p =>
    match m p with
    | (o, inl s, p') => (o, inl s, p')
    | (o, inr a, p') => let '(o', r, p'') := k a p' in (o ++ o', r, p'')
    end.

Definition say {A : Type} (o : list console_out) (m : pending -> answer A)
    : pending -> answer A :=
  fun p => let '(o', r, p') := m p in (o ++ o', r, p').

Definition returns {A : Type} (a : A) : pending -> answer A :=
  fun p => ([], inr a, p).

(** [input()] at the end of the input raises [EOFError]. *)
Definition end_of_input : stop := Raised (OtherError "EOFError").

(** What [user_input_loop] returns. *)
Record selection : Type := mkSelection {
  sel_country : option string;
  sel_race_type : string;
  sel_market : string;
  sel_start_date : datetime;
  sel_end_date : datetime;
  sel_combine : bool
}.

Section Prompts.

(** [str.lower] and [str.strip], from the language. *)
Variables lower strip : string -> string.

(** [datetime.strptime(s, "%d/%m/%Y")], from the standard library; [None] is
    [ValueError]. *)
Variable strptime : string -> option datetime.

Fixpoint get_race_type (p : pending) : answer string :=
  match p with
  | [] => ([SayRaceType; AskRaceType], inl end_of_input, [])
  | (line, _) :: rest =>
      let race_type := strip (lower line) in
      if (race_type =? "h")%string || (race_type =? "g")%string then
        ([SayRaceType; AskRaceType], inr race_type, rest)
      else
        let '(o, r, p') := get_race_type rest in
        (SayRaceType :: AskRaceType :: SayRaceTypeInvalid :: o, r, p')
  end.

Fixpoint get_market_type (p : pending) : answer string :=
  match p with
  | [] => ([SayMarketType; AskMarketType], inl end_of_input, [])
  | (line, _) :: rest =>
      let market := strip (lower line) in
      if (market =? "w")%string || (market =? "p")%string then
        ([SayMarketType; AskMarketType], inr market, rest)
      else
        let '(o, r, p') := get_market_type rest in
        (SayMarketType :: AskMarketType :: SayMarketInvalid :: o, r, p')
  end.

(** The [while True] loop of [get_country]. *)
Fixpoint ask_country (p : pending) : answer string :=
  match p with
  | [] => ([AskCountry], inl end_of_input, [])
  | (line, _) :: rest =>
      let country := strip (lower line) in
      if in_countries country then ([AskCountry], inr country, rest)
      else
        let '(o, r, p') := ask_country rest in
        (AskCountry :: SayCountryInvalid (map fst COUNTRIES_MAP) :: o, r, p')
  end.

Definition get_country : pending -> answer string :=
  say (SayCountries :: map (fun item => SayCountry (fst item) (snd item)) COUNTRIES_MAP)
      ask_country.

Fixpoint get_start_date (p : pending) : answer datetime :=
  match p with
  | [] => ([SayStartDate EARLIEST_DATE; AskDate], inl end_of_input, [])
  | (line, now) :: rest =>
      let date_str := strip line in
      let again := fun complaint : console_out =>
        let '(o, r, p') := get_start_date rest in
        (SayStartDate EARLIEST_DATE :: AskDate :: complaint :: o, r, p') in
      match strptime date_str with
      | Some start_date =>
          if start_date <? EARLIEST_DATE then
            again (SayStartTooEarly EARLIEST_DATE)
          else if start_date >? now then again SayStartInFuture
          else ([SayStartDate EARLIEST_DATE; AskDate], inr start_date, rest)
      | None => again SayDateFormat
      end
  end.

Definition end_date_menu : list console_out :=
  [SayEndDate; SayEndFormatHint; SayEndTodayHint; SayEndYesterdayHint; AskChoice].

Fixpoint get_end_date (start_date : datetime) (p : pending) : answer datetime :=
  match p with
  | [] => (end_date_menu, inl end_of_input, [])
  | (line, now) :: rest =>
      let date_input := lower (strip line) in
      let again := fun complaint : console_out =>
        let '(o, r, p') := get_end_date start_date rest in
        (end_date_menu ++ complaint :: o, r, p') in
      if (date_input =? "today")%string then
        (end_date_menu, inr (midnight now), rest)
      else if (date_input =? "yesterday")%string then
        match add_days now (-1) with
        | inl e => (end_date_menu, inl (Raised e), rest)
        | inr yesterday => (end_date_menu, inr (midnight yesterday), rest)
        end
      else if (date_input =? "now")%string then
        (end_date_menu, inr (midnight now), rest)
      else
        match strptime date_input with
        | Some end_date =>
            if end_date >? now then again SayEndInFuture
            else if end_date <? start_date then again (SayEndBeforeStart start_date)
            else (end_date_menu, inr end_date, rest)
        | None => again SayEndInvalid
        end
  end.

Fixpoint get_combine_confirmation (p : pending) : answer bool :=
  match p with
  | [] => ([AskCombine], inl end_of_input, [])
  | (combine_files, _) :: rest =>
      if (combine_files =? "y")%string || (combine_files =? "yes")%string then
        ([AskCombine], inr true, rest)
      else if (combine_files =? "n")%string || (combine_files =? "no")%string then
        ([AskCombine], inr false, rest)
      else
        let '(o, r, p') := get_combine_confirmation rest in
        (AskCombine :: SayYesOrNo :: o, r, p')
  end.

(** The [while True] loop of [display_summary]. *)
Fixpoint ask_proceed (p : pending) : answer unit :=
  match p with
  | [] => ([AskProceed], inl end_of_input, [])
  | (line, _) :: rest =>
      let confirm := strip (lower line) in
      if (confirm =? "y")%string || (confirm =? "yes")%string then
        ([AskProceed; SayStarting], inr tt, rest)
      else if (confirm =? "n")%string || (confirm =? "no")%string then
        ([AskProceed; SayCancelled], inl (Exited 0), rest)
      else
        let '(o, r, p') := ask_proceed rest in
        (AskProceed :: SayYesOrNo :: o, r, p')
  end.

Definition display_summary (country : option string) (race_type market : string)
    (start_date end_date : datetime) (combined_filename : bool)
    : pending -> answer unit :=
  say [SayRule true 50; SaySummaryTitle; SayRule false 50]
    (fun p =>
       match (if falsy country then Some "All Countries"
              else lookup (country_text country) COUNTRIES_MAP) with
       | None => ([], inl (Raised (OtherError "KeyError")), p)
       | Some country_name =>
           let race_name :=
             if (race_type =? "h")%string then "Horse Racing"
             else "Greyhound Racing" in
           let market_name :=
             if (market =? "w")%string then "Win Market" else "Place Market" in
           let total_days := days_between end_date start_date + 1 in
           say [SaySummaryCountry country_name;
                SaySummaryRace race_name;
                SaySummaryMarket market_name;
                SaySummaryDates start_date end_date;
                SaySummaryDays total_days;
                SaySummaryCombine combined_filename;
                SayRule false 50]
               ask_proceed p
       end).

Definition user_input_loop : pending -> answer selection :=
  say [SayBanner; SayRule false 45]
    (and_then get_race_type (fun race_type =>
     and_then get_market_type (fun market =>
     and_then (if (race_type =? "h")%string then
                 and_then get_country (fun c => returns (Some c))
               else returns None) (fun country =>
     and_then get_start_date (fun start_date =>
     and_then (get_end_date start_date) (fun end_date =>
     and_then get_combine_confirmation (fun combine_filename =>
     and_then (display_summary country race_type market start_date end_date
                 combine_filename) (fun _ =>
     returns (mkSelection country race_type market start_date end_date
                combine_filename))))))))).

End Prompts.

(** The readings of the clock along the input go forward from [lo] and stay
    before the last day of the calendar. *)
Fixpoint clock_runs (lo : datetime) (p : pending) : Prop :=
  match p with
  | [] => True
  | (_, now) :: rest => lo <= now /\ now < last_day /\ clock_runs now rest
  end.

(** ** The program *)

(** What the world does for [main]: the lines typed, whether the download
    directory can be made, the network and the disk during the downloads, and
    the files found once the downloads are over. *)
Record main_env : Type := mkMainEnv {
  stdin : pending;
  mkdir : string -> option exn;
  network : nat -> Z -> attempt_env;
  files_after : batch -> combine_env
}.

(** How [main] ends: it returns, it stops with an exception or an [exit],
    or it waits for ever for a download that never ends. *)
Inductive ending : Type :=
| Returned
| Stopped (s : stop)
| NeverReturns.

(** What [main] did: what it wrote to the terminal before the downloads, the
    directory it made, the downloads, the combination, and how it ended. *)
Record main_run : Type := mkMainRun {
  terminal : list console_out;
  made_dir : option string;
  planned_files : option (list (option string * datetime));
  downloads : option batch;
  combination : option combined;
  ended : ending
}.

Section Main.

Variables lower strip : string -> string.
Variable strptime : string -> option datetime.
Variable strftime_dmY : datetime -> string.
Variable isoformat : Z -> string.
Variable path_join : string -> string -> string.
Variable float_of_string : string -> option pyfloat.
Variable os_path_join : string -> string -> string.

Definition main (env : main_env) : main_run :=
  match user_input_loop lower strip strptime (stdin env) with
  | (o, inl s, _) => mkMainRun o None None None None (Stopped s)
  | (o, inr sel, _) =>
      let dir_name :=
        create_directory_name isoformat (sel_country sel) (sel_race_type sel)
          (sel_market sel) (sel_start_date sel) (sel_end_date sel) in
      match mkdir env dir_name with
      | Some e => mkMainRun o None None None None (Stopped (Raised e))
      | None =>
          match generate_all_filenames strftime_dmY (sel_country sel)
                  (sel_race_type sel) (sel_market sel)
                  (sel_start_date sel) (sel_end_date sel) with
          | inl e =>
              mkMainRun o (Some dir_name) None None None (Stopped (Raised e))
          | inr filenames =>
              let b := download_all_files path_join float_of_string
                         (network env) filenames dir_name in
              match gathered b with
              | None =>
                  mkMainRun o (Some dir_name) (Some filenames) (Some b) None
                    NeverReturns
              | Some _ =>
                  mkMainRun o (Some dir_name) (Some filenames) (Some b)
                    (if sel_combine sel then
                       Some (combine_files os_path_join (files_after env b)
                               dir_name dir_name)
                     else None)
                    Returned
              end
          end
      end
  end.

End Main.

(** ** Library functions at the strings of the examples, continued *)

(** [str(date)] for the years of four digits. *)
Definition isoformat_gregorian (ordinal : Z) : string :=
  let '(y, m, d) := civil_of_ordinal ordinal in
  (four_digits y ++ "-" ++ two_digits m ++ "-" ++ two_digits d)%string.

(** [str.lower] and [str.strip] on a string in lower case without blanks
    around it. *)
Definition as_typed (s : string) : string := s.

(** [strptime(s, "%d/%m/%Y")] at two dates, and at strings that are no
    dates. *)
Definition strptime_2020 (s : string) : option datetime :=
  if (s =? "01/01/2020")%string then Some new_year_2020
  else if (s =? "03/01/2020")%string then Some (new_year_2020 + 2 * us_per_day)
  else None.

(** ** Failing requests and unfinished runs *)

(** The request of an attempt raises [e]: [session.get] does, or
    [response.read] does after a 200. *)
Definition fails_with (w : attempt_env) (e : exn) : Prop :=
  get w = inl e \/
  exists resp, get w = inr resp /\ status resp = 200 /\ read resp = inl e.


(** A computation that ends: it returns or raises. *)
Definition ends {A : Type} (m : M A) : Prop := result_of m <> inl Hangs.

(** A task that sleeps for ever inside the semaphore: it has done all its
    events and has not left. *)
Definition asleep (t : task_state) : bool :=
  Nat.eqb (List.length (todo t)) 0 && (0 <? holds (task_phase t)).

(** The events the tasks of a state still have to do. *)
Definition remaining (s : sched) : Z :=
  sum (map (fun t => Z.of_nat (List.length (todo t))) (running s)).

Definition all_done (s : sched) : Prop :=
  Forall (fun t => todo t = []) (running s).

(** Whether the next event of a task may happen at these gates. *)
Definition ready (permits in_use : Z) (t : task_state) : bool :=
  match todo t with
  | ev :: _ => enabled ev permits in_use
  | [] => false
  end.

(** The events of each task, those behind it and those to come. *)
Definition events_of (s : sched) : list (list event) :=
  map (fun t => done t ++ todo t) (running s).

(** The files written by the tasks of a batch. *)
Definition files_written (b : batch) : list (string * bytes) :=
  List.concat (map (fun m => writes (trace_of m)) (tasks b)).

(** ** Example inputs, continued *)

(** 2021-01-01 12:00:00 *)
Definition noon_2021 : datetime := 737790 * us_per_day + 43200000000.

(** Lines typed while the clock reads [noon_2021]. *)
Definition typed (lines : list string) : pending :=
  map (fun line => (line, noon_2021)) lines.

(** A dialogue with a rejected answer at most prompts. *)
Definition horse_dialogue : pending :=
  typed ["x"; "h"; "w"; "de"; "uk"; "soon"; "01/01/2020"; "03/01/2020";
         "Y"; "y"; "maybe"; "yes"].

Definition greyhound_dialogue : pending :=
  typed ["g"; "p"; "01/01/2020"; "03/01/2020"; "y"; "y"].

(** A text line with its newline. *)
Definition text_line (s : string) : string := (s ++ String newline "")%string.

Definition csv_a : string := (text_line "date,price" ++ text_line "1,2.5")%string.

Definition csv_b : string := (text_line "date,price" ++ text_line "2,3.5")%string.

(** A directory with two files; [unreadable] names the files that cannot be
    read. *)
Definition two_csv_files (unreadable : string -> bool) : combine_env :=
  mkCombineEnv
    (fun _ => ["d/a.csv"; "d/b.csv"])
    (fun _ => None)
    (fun file =>
       if unreadable file then inl (IOError "Permission denied")
       else if (file =? "d/a.csv")%string then inr csv_a
       else inr csv_b).




Definition always_offline : Z -> attempt_env :=
  fun _ => mkAttempt (inl (ClientError "Cannot connect to host")) None NanRefused.

(** A response whose body cannot be read for an error of the system. *)
Definition broken_pipe : Z -> attempt_env :=
  fun _ => mkAttempt (inr (mkResponse 200 None (inl (IOError "Broken pipe")))) None
             NanRefused.

(** Three tasks of the same file, and the state where the first two have
    entered the semaphore and slept, the third has not started. *)
Definition three_tasks : batch :=
  download_all_files posix_join float_of_digits (fun _ => always_200)
    [(Some uk_win_file, new_year_2020);
     (Some uk_win_file, new_year_2020);
     (Some uk_win_file, new_year_2020)] uk_win_dir.

Definition two_inside : sched :=
  let t := trace_of (download_file_async posix_join float_of_digits always_200
                       (Some uk_win_file) new_year_2020 uk_win_dir) in
  let slept := mkTask [SemAcquire; Sleep (1 # 10)%Q] (tl (tl t)) in
  mkSched 0 0 [slept; slept; mkTask [] t].

Definition quiet_world : main_env :=
  mkMainEnv greyhound_dialogue (fun _ => None) (fun _ => always_200)
            (fun _ => two_csv_files (fun _ => false)).

(** * Properties *)

(** ** Dates *)

Lemma representableb_spec t : representableb t = true <-> representable t.
Proof.
  unfold representableb, representable.
  rewrite andb_true_iff, Z.leb_le, Z.ltb_lt. tauto.
Qed.

Lemma Z2Nat_inj_succ' (n : Z) : 0 <= n -> Z.to_nat (n + 1) = S (Z.to_nat n).
Proof. lia. Qed.

Lemma us_per_day_pos : 0 < us_per_day.
Proof. reflexivity. Qed.

Lemma days_between_next (a b : datetime) :
  days_between a (b + 1 * us_per_day) = days_between a b - 1.
Proof.
  unfold days_between.
  replace (a - (b + 1 * us_per_day)) with (a - b + (-1) * us_per_day) by ring.
  rewrite Z.div_add by (unfold us_per_day; lia). lia.
Qed.

Lemma days_between_nonneg (a b : datetime) : b <= a -> 0 <= days_between a b.
Proof.
  intros H. unfold days_between.
  apply Z.div_pos; [lia | apply us_per_day_pos].
Qed.

Lemma days_between_neg (a b : datetime) : a < b -> days_between a b < 0.
Proof.
  intros H. unfold days_between.
  apply Z.div_lt_upper_bound; [apply us_per_day_pos | lia].
Qed.

(** [start + days_between end start] days is the last day not after [end]. *)
Lemma days_between_bounds (a b : datetime) :
  b + days_between a b * us_per_day <= a < b + (days_between a b + 1) * us_per_day.
Proof.
  unfold days_between.
  pose proof (Z.div_mod (a - b) us_per_day) as E.
  pose proof (Z.mod_pos_bound (a - b) us_per_day us_per_day_pos) as B.
  specialize (E ltac:(unfold us_per_day; lia)). lia.
Qed.

Section PlannerFacts.

Variable strftime_dmY : datetime -> string.
Variables (country : option string) (race_type market : string).

Local Abbreviation plan := (planned strftime_dmY country race_type market).
Local Abbreviation loop := (filenames_loop strftime_dmY country race_type market).

Lemma planned_S (start_date : datetime) (n : nat) :
  plan start_date (S n) =
  (get_filename strftime_dmY race_type market start_date country, start_date)
    :: plan (start_date + 1 * us_per_day) n.
Proof.
  unfold planned. cbn [seq map].
  rewrite <- seq_shift, map_map. cbv zeta.
  change (Z.of_nat 0) with 0. rewrite Z.mul_0_l, Z.add_0_r.
  apply (f_equal (cons _)). apply map_ext. intros k.
  replace (start_date + 1 * us_per_day + Z.of_nat k * us_per_day)
    with (start_date + Z.of_nat (S k) * us_per_day) by lia.
  reflexivity.
Qed.

(** The loop appends the plan of the days left, when the day after the
    last of them is representable. *)
Lemma filenames_loop_planned (end_date current_date : datetime)
    (filenames : list (option string * datetime)) :
  0 <= current_date ->
  (current_date <= end_date ->
   current_date + (days_between end_date current_date + 1) * us_per_day
     < max_ordinal * us_per_day) ->
  loop end_date current_date filenames =
  inr (filenames ++ plan current_date (Z.to_nat (days_between end_date current_date + 1))).
Proof.
  funelim (filenames_loop strftime_dmY country race_type market
             end_date current_date filenames); intros Hpos Hmax.
  - pose proof (days_between_neg end_date current_date ltac:(lia)).
    replace (Z.to_nat _) with 0%nat by lia.
    simpl. now rewrite app_nil_r.
  - exfalso. specialize (Hmax l).
    pose proof (days_between_nonneg _ _ l).
    pose proof e1 as E. unfold add_days in E.
    destruct (representableb (current_date + 1 * us_per_day)) eqn:R;
      [discriminate | ].
    assert (representable (current_date + 1 * us_per_day)) as R'
      by (unfold representable; pose proof us_per_day_pos; nia).
    apply representableb_spec in R'. congruence.
  - specialize (Hmax l).
    pose proof (days_between_nonneg _ _ l) as Hn.
    pose proof e as E. unfold add_days in E.
    destruct (representableb (current_date + 1 * us_per_day)) eqn:R;
      [ | discriminate].
    injection E as <-.
    rewrite H.
    + rewrite days_between_next.
      remember (days_between end_date current_date) as n.
      replace (n - 1 + 1) with n by lia.
      rewrite Z2Nat_inj_succ' by assumption.
      change 86400000000 with (1 * us_per_day).
      rewrite planned_S, <- app_assoc. reflexivity.
    + pose proof us_per_day_pos. lia.
    + intros _. rewrite days_between_next. unfold us_per_day in *. lia.
Qed.

(** When that day is not representable, adding a day to the last entry
    overflows. *)
Lemma filenames_loop_overflow (end_date current_date : datetime)
    (filenames : list (option string * datetime)) :
  0 <= current_date ->
  current_date <= end_date ->
  max_ordinal * us_per_day
    <= current_date + (days_between end_date current_date + 1) * us_per_day ->
  loop end_date current_date filenames = inl (OtherError "OverflowError").
Proof.
  funelim (filenames_loop strftime_dmY country race_type market
             end_date current_date filenames); intros Hpos Hle Hmax.
  - contradiction.
  - pose proof e1 as E. unfold add_days in E.
    destruct (representableb (current_date + 1 * us_per_day));
      [discriminate | ].
    now injection E as <-.
  - pose proof e as E. unfold add_days in E.
    destruct (representableb (current_date + 1 * us_per_day)) eqn:R;
      [ | discriminate].
    injection E as <-.
    apply representableb_spec in R. unfold representable in R.
    destruct (Z_le_dec (current_date + 1 * us_per_day) end_date) as [Hnext | Hnext].
    + apply H; [lia | assumption | ].
      rewrite days_between_next. unfold us_per_day in *. lia.
    + exfalso.
      pose proof (days_between_bounds end_date current_date) as B.
      pose proof (days_between_nonneg _ _ l) as Hn.
      unfold us_per_day in *.
      assert (days_between end_date current_date = 0) by lia.
      lia.
Qed.

Lemma planned_length (start_date : datetime) (n : nat) :
  List.length (plan start_date n) = n.
Proof. unfold planned. now rewrite length_map, length_seq. Qed.

Lemma planned_nth (start_date : datetime) (n k : nat) :
  (k < n)%nat ->
  nth_error (plan start_date n) k =
  Some (get_filename strftime_dmY race_type market
          (start_date + Z.of_nat k * us_per_day) country,
        start_date + Z.of_nat k * us_per_day).
Proof.
  revert start_date k. induction n as [|n IH]; intros start_date k Hk; [lia | ].
  rewrite planned_S. destruct k as [|k]; cbn [nth_error].
  - change (Z.of_nat 0) with 0. now rewrite Z.mul_0_l, Z.add_0_r.
  - rewrite IH by lia.
    replace (start_date + 1 * us_per_day + Z.of_nat k * us_per_day)
      with (start_date + Z.of_nat (S k) * us_per_day) by lia.
    reflexivity.
Qed.

Lemma toordinal_add_days (t k : Z) :
  toordinal (t + k * us_per_day) = toordinal t + k.
Proof.
  unfold toordinal. rewrite Z.div_add by (unfold us_per_day; lia). lia.
Qed.

(** The last planned day is the day of [end_date] when the time of day of
    [start_date] is not later than that of [end_date]. *)
Lemma toordinal_last (start_date end_date : datetime) :
  start_date <= end_date ->
  time_of_day start_date <= time_of_day end_date ->
  toordinal (start_date + days_between end_date start_date * us_per_day)
  = toordinal end_date.
Proof.
  intros Hle Htime. rewrite toordinal_add_days.
  unfold toordinal, days_between, time_of_day in *.
  pose proof us_per_day_pos as Hpos.
  pose proof (Z.div_mod start_date us_per_day ltac:(lia)) as Es.
  pose proof (Z.div_mod end_date us_per_day ltac:(lia)) as Ee.
  pose proof (Z.mod_pos_bound start_date us_per_day Hpos) as Bs.
  pose proof (Z.mod_pos_bound end_date us_per_day Hpos) as Be.
  assert ((end_date - start_date) / us_per_day
          = end_date / us_per_day - start_date / us_per_day) as ->; [ | lia].
  symmetry. apply (Z.div_unique _ _ _ (end_date mod us_per_day
                                        - start_date mod us_per_day)); lia.
Qed.

(** Otherwise adding a day to the last planned day raises
    [OverflowError]. *)
Lemma generate_all_filenames_overflow (start_date end_date : datetime) :
  representable start_date ->
  start_date <= end_date ->
  ~ representable
      (start_date + (days_between end_date start_date + 1) * us_per_day) ->
  generate_all_filenames strftime_dmY country race_type market
    start_date end_date = inl (OtherError "OverflowError").
Proof.
  intros [Hpos _] Hle Hmax. apply filenames_loop_overflow; try assumption.
  unfold representable in Hmax.
  pose proof (days_between_nonneg _ _ Hle). pose proof us_per_day_pos. nia.
Qed.

(** The day after the last planned day is a datetime when [end_date] is
    before the last day of the calendar. *)
Lemma next_day_representable (start_date end_date : datetime) :
  representable start_date ->
  start_date <= end_date ->
  end_date < last_day ->
  representable (start_date + (days_between end_date start_date + 1) * us_per_day).
Proof.
  intros [Hpos _] Hle Hlast.
  pose proof (days_between_bounds end_date start_date) as B.
  pose proof (days_between_nonneg _ _ Hle) as Hn.
  unfold representable, last_day, max_ordinal, us_per_day in *. lia.
Qed.

(** C10, as the code has it. When the day after the last planned day is
    still a datetime, as it is for an [end_date] before 9999-12-31, the
    planner returns one entry for [start_date] and for each later day up to
    [end_date]: [(end_date - start_date).days + 1] entries in ascending
    order, on consecutive calendar days, none after [end_date], the last one
    on the day of [end_date] when the times of day allow it; and no entry
    when [start_date] is after [end_date]. When that day is no datetime, the
    planner raises [OverflowError]. *)
Theorem generate_all_filenames_one_per_day (start_date end_date : datetime) :
  representable start_date ->
  let next_day :=
    start_date + (days_between end_date start_date + 1) * us_per_day in
  let planned_files :=
    generate_all_filenames strftime_dmY country race_type market
      start_date end_date in
  ((start_date <= end_date -> representable next_day) ->
   exists l,
     planned_files = inr l /\
     (start_date <= end_date ->
      Z.of_nat (List.length l) = days_between end_date start_date + 1) /\
     (end_date < start_date -> l = []) /\
     (forall k, (k < List.length l)%nat ->
        nth_error l k =
        Some (get_filename strftime_dmY race_type market
                (start_date + Z.of_nat k * us_per_day) country,
              start_date + Z.of_nat k * us_per_day)) /\
     (forall k e, nth_error l k = Some e ->
        start_date <= snd e <= end_date /\
        toordinal (snd e) = toordinal start_date + Z.of_nat k) /\
     (forall i j a b, (i < j)%nat ->
        nth_error l i = Some a -> nth_error l j = Some b -> snd a < snd b) /\
     (start_date <= end_date ->
      time_of_day start_date <= time_of_day end_date ->
      exists e,
        nth_error l (Z.to_nat (days_between end_date start_date)) = Some e /\
        toordinal (snd e) = toordinal end_date)) /\
  (start_date <= end_date -> end_date < last_day -> representable next_day) /\
  (start_date <= end_date -> ~ representable next_day ->
   planned_files = inl (OtherError "OverflowError")).
Proof.
  intros Hstart next_day planned_files.
  split; [ | split;
             [ intros; now apply next_day_representable
             | intros; now apply generate_all_filenames_overflow ]].
  destruct Hstart as [Hpos _]. intros Hmax.
  set (n := Z.to_nat (days_between end_date start_date + 1)).
  exists (plan start_date n).
  assert (forall k e, nth_error (plan start_date n) k = Some e ->
            (k < n)%nat /\ snd e = start_date + Z.of_nat k * us_per_day) as Hnth.
  { intros k e He.
    assert (k < n)%nat as Hk
      by (rewrite <- (planned_length start_date n); apply nth_error_Some; congruence).
    rewrite planned_nth in He by assumption. injection He as <-. now split. }
  split; [ | split; [ | split; [ | split; [ | split]]]].
  - subst planned_files. unfold generate_all_filenames.
    rewrite filenames_loop_planned; [reflexivity | assumption | ].
    intros Hle. apply Hmax, Hle.
  - intros Hle. rewrite planned_length. subst n.
    pose proof (days_between_nonneg _ _ Hle). lia.
  - intros Hlt. pose proof (days_between_neg _ _ Hlt).
    subst n. now replace (Z.to_nat _) with 0%nat by lia.
  - intros k Hk. rewrite planned_length in Hk. now apply planned_nth.
  - intros k e He. destruct (Hnth k e He) as [Hk ->].
    rewrite toordinal_add_days. split; [ | reflexivity].
    pose proof (days_between_bounds end_date start_date) as B.
    pose proof us_per_day_pos. subst n. nia.
  - split.
    + intros i j a b Hij Ha Hb.
      destruct (Hnth i a Ha) as [_ ->], (Hnth j b Hb) as [_ ->].
      pose proof us_per_day_pos. nia.
    + intros Hle Htime. pose proof (days_between_nonneg _ _ Hle) as Hn.
      eexists. split.
      * apply planned_nth. subst n. lia.
      * cbn [snd]. rewrite Z2Nat.id by assumption.
        now apply toordinal_last.
Qed.

End PlannerFacts.

(** ** The gates: sums and phases *)

(** *** Sums *)

Lemma fold_left_add (l : list Z) (a : Z) : fold_left Z.add l a = a + sum l.
Proof.
  unfold sum. revert a. induction l as [|x l IH]; intros a; cbn.
  - lia.
  - rewrite (IH (a + x)), (IH x). lia.
Qed.

Lemma sum_cons (x : Z) (l : list Z) : sum (x :: l) = x + sum l.
Proof. unfold sum at 1. cbn. now rewrite fold_left_add. Qed.

Lemma sum_app (l l' : list Z) : sum (l ++ l') = sum l + sum l'.
Proof.
  induction l as [|x l IH]; [reflexivity | ].
  cbn [app]. rewrite !sum_cons, IH. lia.
Qed.

Lemma sum_ones {A : Type} (l : list A) : sum (map (fun _ => 1) l) = Z.of_nat (List.length l).
Proof.
  induction l as [|x l IH]; [reflexivity | ].
  cbn [map List.length]. rewrite sum_cons, IH. lia.
Qed.

Lemma count_cons {A : Type} (p : A -> bool) (x : A) (l : list A) :
  count p (x :: l) = (if p x then 1 else 0) + count p l.
Proof. unfold count. cbn. destruct (p x); cbn [List.length]; lia. Qed.

Lemma count_nonneg {A : Type} (p : A -> bool) (l : list A) : 0 <= count p l.
Proof. unfold count. lia. Qed.

Lemma count_partition {A : Type} (p : A -> bool) (l : list A) :
  count p l + count (fun x => negb (p x)) l = Z.of_nat (List.length l).
Proof.
  induction l as [|x l IH]; [reflexivity | ].
  rewrite !count_cons. cbn [List.length]. destruct (p x); cbn [negb]; lia.
Qed.

(** *** Phases *)

Lemma phase_after_app (p : phase) (t t' : list event) :
  phase_after p (t ++ t') =
  match phase_after p t with
  | Some q => phase_after q t'
  | None => None
  end.
Proof.
  revert p. induction t as [|ev t IH]; intros p; cbn; [reflexivity | ].
  destruct (phase_step p ev); [apply IH | reflexivity].
Qed.

Lemma phase_after_waiting (d : list event) :
  phase_after Waiting d = Some Waiting -> d = [].
Proof.
  destruct d as [|ev d]; [reflexivity | ].
  cbn. destruct ev; try discriminate.
  assert (forall t p, p <> Waiting -> phase_after p t <> Some Waiting) as E.
  { induction t as [|ev' t IH]; intros p Hp; cbn.
    - congruence.
    - destruct p, ev'; cbn; try discriminate; apply IH; discriminate. }
  intros H. now apply E in H.
Qed.

Lemma phase_after_finished (t : list event) (p : phase) :
  phase_after Finished t = Some p -> t = [].
Proof. destruct t as [|[] t]; [reflexivity | discriminate ..]. Qed.

Lemma open_connections_phase (d : list event) (p0 p : phase) :
  phase_after p0 d = Some p ->
  count is_get d - count is_conn_release d = connected p - connected p0.
Proof.
  revert p0. induction d as [|ev d IH]; intros p0; cbn [phase_after].
  - intros [= <-]. unfold count. cbn. lia.
  - destruct (phase_step p0 ev) as [p1|] eqn:Hstep; [ | discriminate].
    intros H. apply IH in H. rewrite !count_cons.
    destruct p0, ev; try discriminate; injection Hstep as <-;
      cbn [connected is_get is_conn_release] in *; lia.
Qed.

(** ** The retry loop *)

Section EngineFacts.

Variable path_join : string -> string -> string.
Variable float_of_string : string -> option pyfloat.
Variables (filename : string) (date : datetime) (save_path url : string).

Local Abbreviation turn := (attempt_turn float_of_string filename date save_path url).
Local Abbreviation loop := (for_attempts float_of_string filename date save_path url).

Ltac unfold_turn :=
  unfold attempt_turn, attempt_body, handlers, with_response,
    response_read, write_file, float, headers_get_retry_after,
    print, sleep, before_get in *.

Ltac run_monad :=
  cbn [bind ret raise emit ensure try_except trace_of result_of fst snd app] in *.


Ltac every_float w x :=
  destruct x as [[q|[| |]]|]; [ | | | destruct (sleep_nan w) | ].

Ltac every_turn k w :=
  unfold_turn;
  destruct (k >? 0), (k <? max_retries) eqn:?;
  (destruct (get w) as [e|resp];
   [ destruct e
   | destruct (status resp =? 200);
     [ destruct (read resp) as [e|content];
       [ destruct e | destruct (disk w) as [e|]; [destruct e | ] ]
     | destruct (status resp =? 429);
       [ destruct (retry_after resp) as [v|];
         [ every_float w (float_of_string v)
         | every_float w (float_of_string "5") ]
       | ] ] ]);
  run_monad.

(** A turn never lets an exception through: every class has a handler. It
    goes to the next attempt, returns, or never ends. *)
Lemma attempt_turn_ends (attempt : Z) (w : attempt_env) :
  result_of (turn attempt w) = inl Hangs \/
  exists c, result_of (turn attempt w) = inr c.
Proof. every_turn attempt w; eauto. Qed.



Lemma for_attempts_cons (world : Z -> attempt_env) (attempt : Z) (rest : list Z) :
  loop world (attempt :: rest) =
  match result_of (turn attempt (world attempt)) with
  | inr Continue =>
      (trace_of (turn attempt (world attempt)) ++ trace_of (loop world rest),
       result_of (loop world rest))
  | inr (Return b) => (trace_of (turn attempt (world attempt)), inr b)
  | inl h => (trace_of (turn attempt (world attempt)), inl h)
  end.
Proof.
  cbn [for_attempts].
  destruct (attempt_turn _ _ _ _ _ _ _) as [t [h|[|b]]]; cbn.
  - reflexivity.
  - destruct (for_attempts _ _ _ _ _ _ _). reflexivity.
  - now rewrite app_nil_r.
Qed.

Lemma for_attempts_app (world : Z -> attempt_env) (pre rest : list Z) :
  (forall j, In j pre -> result_of (turn j (world j)) = inr Continue) ->
  loop world (pre ++ rest) =
  (flat_map (fun j => trace_of (turn j (world j))) pre ++ trace_of (loop world rest),
   result_of (loop world rest)).
Proof.
  induction pre as [|j pre IH]; intros Hpre.
  - cbn. now destruct (loop world rest).
  - cbn [app flat_map]. rewrite for_attempts_cons, (Hpre j) by now left.
    rewrite IH by (intros; apply Hpre; now right).
    cbn [trace_of result_of fst snd]. now rewrite app_assoc.
Qed.

Lemma in_range (n j : Z) : In j (range n) <-> 0 <= j < n.
Proof.
  unfold range. rewrite in_map_iff. split.
  - intros (i & <- & Hi). apply in_seq in Hi. lia.
  - intros Hj. exists (Z.to_nat j). split; [lia | ]. apply in_seq. lia.
Qed.

Lemma attempts_split (k : Z) :
  0 <= k <= max_retries ->
  exists rest, range (max_retries + 1) = range k ++ k :: rest.
Proof.
  unfold max_retries. intros Hk.
  assert (k = 0 \/ k = 1 \/ k = 2 \/ k = 3) as [-> | [-> | [-> | ->]]] by lia;
    eexists; reflexivity.
Qed.

Local Abbreviation earlier := (turns_before float_of_string filename date save_path url).

(** A run that gets as far as attempt [k] and ends there, returning or
    sleeping for ever. *)
Lemma for_attempts_ends (world : Z -> attempt_env) (k : Z) :
  0 <= k <= max_retries ->
  reaches float_of_string filename date save_path url world k ->
  result_of (turn k (world k)) <> inr Continue ->
  loop world (range (max_retries + 1)) =
  (earlier world k ++ trace_of (turn k (world k)),
   match result_of (turn k (world k)) with
   | inr (Return b) => inr b
   | inr Continue => inr false
   | inl h => inl h
   end).
Proof.
  intros Hk Hreach Hstop.
  destruct (attempts_split k Hk) as [rest ->].
  rewrite for_attempts_app by (intros j Hj; apply Hreach, in_range, Hj).
  rewrite for_attempts_cons.
  destruct (result_of (turn k (world k))) as [h|[|b]]; [ | contradiction | ];
    reflexivity.
Qed.

(** A run that gets as far as attempt [k] and returns there. *)
Lemma for_attempts_stops (world : Z -> attempt_env) (k : Z) (b : bool) :
  0 <= k <= max_retries ->
  reaches float_of_string filename date save_path url world k ->
  result_of (turn k (world k)) = inr (Return b) ->
  loop world (range (max_retries + 1)) =
  (earlier world k ++ trace_of (turn k (world k)), inr b).
Proof.
  intros Hk Hreach Hstop.
  rewrite (for_attempts_ends world k Hk Hreach) by (rewrite Hstop; discriminate).
  now rewrite Hstop.
Qed.

(** A run that gets as far as attempt [k] and goes on from there. *)
Lemma for_attempts_goes_on (world : Z -> attempt_env) (k : Z) :
  0 <= k < max_retries ->
  reaches float_of_string filename date save_path url world k ->
  result_of (turn k (world k)) = inr Continue ->
  exists rest,
    trace_of (loop world (range (max_retries + 1))) =
    earlier world k ++ trace_of (turn k (world k))
      ++ trace_of (turn (k + 1) (world (k + 1))) ++ rest.
Proof.
  intros Hk Hreach Hgo.
  destruct (attempts_split k ltac:(lia)) as [rest E].
  assert (exists rest', rest = (k + 1) :: rest') as [rest' ->].
  { unfold max_retries in *.
    assert (k = 0 \/ k = 1 \/ k = 2) as [-> | [-> | ->]] by lia;
      injection E as <-; eexists; reflexivity. }
  rewrite E.
  rewrite for_attempts_app by (intros j Hj; apply Hreach, in_range, Hj).
  rewrite for_attempts_cons, Hgo, for_attempts_cons.
  cbn [trace_of result_of fst snd]. fold (earlier world k).
  destruct (result_of (turn (k + 1) (world (k + 1)))) as [h|[|b]];
    cbn [trace_of fst]; eexists; try reflexivity;
    now rewrite app_nil_r.
Qed.

(** *** One turn, by what the world does *)

Lemma turn_http_status (k : Z) (w : attempt_env) (resp : response) :
  get w = inr resp -> status resp <> 200 -> status resp <> 429 ->
  turn k w =
  (before_get date k ++
     [Get url; Print (MsgHttpStatus date (status resp)); ConnRelease],
   inr (Return false)).
Proof.
  intros Hget H200 H429. unfold_turn. rewrite Hget.
  apply Z.eqb_neq in H200, H429. rewrite H200, H429.
  destruct (k >? 0); reflexivity.
Qed.

Lemma turn_saved (k : Z) (w : attempt_env) (resp : response) (content : bytes) :
  get w = inr resp -> status resp = 200 -> read resp = inr content ->
  disk w = None ->
  turn k w =
  (before_get date k ++
     [Get url; WriteFile save_path content; Print (MsgSaved date filename);
      ConnRelease],
   inr (Return true)).
Proof.
  intros Hget H200 Hread Hdisk. unfold_turn.
  rewrite Hget, H200, Hread, Hdisk.
  destruct (k >? 0); reflexivity.
Qed.


Lemma turn_timeout (k : Z) (w : attempt_env) :
  times_out w ->
  turn k w =
  if k <? max_retries then
    (before_get date k ++ [Get url; ConnRelease; Print (MsgTimeoutRetry date)],
     inr Continue)
  else
    (before_get date k ++ [Get url; ConnRelease; Print (MsgTimeoutMax date)],
     inr (Return false)).
Proof.
  intros [Hget | (resp & Hget & H200 & Hread)]; unfold_turn;
    rewrite Hget; try rewrite H200, Hread;
    destruct (k >? 0), (k <? max_retries); reflexivity.
Qed.

Lemma turn_rate_limited (k : Z) (w : attempt_env) (resp : response) :
  get w = inr resp -> status resp = 429 ->
  let waited := fun (x : pyfloat) (slept : event) =>
    (before_get date k ++
       [Get url; Print (MsgRateLimitedWait date x); slept; ConnRelease],
     inr Continue) in
  let asleep := fun (x : pyfloat) (slept : event) =>
    (before_get date k ++ [Get url; Print (MsgRateLimitedWait date x); slept],
     inl Hangs) in
  let unexpected := fun before_release : list event =>
    (before_get date k ++ Get url :: before_release
       ++ [ConnRelease; Print (MsgUnexpected date (OtherError "ValueError"))],
     inr (Return false)) in
  turn k w =
  if k <? max_retries then
    match float_of_string (headers_get_retry_after resp "5") with
    | Some (Finite wait_time) => waited (Finite wait_time) (Sleep wait_time)
    | Some (NonFinite PlusInf) =>
        asleep (NonFinite PlusInf) (SleepNonFinite PlusInf)
    | Some (NonFinite MinusInf) =>
        waited (NonFinite MinusInf) (SleepNonFinite MinusInf)
    | Some (NonFinite NaN) =>
        match sleep_nan w with
        | NanRefused =>
            unexpected [Print (MsgRateLimitedWait date (NonFinite NaN));
                        SleepNonFinite NaN]
        | NanOver => waited (NonFinite NaN) (SleepNonFinite NaN)
        | NanNever => asleep (NonFinite NaN) (SleepNonFinite NaN)
        end
    | None => unexpected []
    end
  else
    (before_get date k ++ [Get url; Print (MsgRateLimitedMax date); ConnRelease],
     inr (Return false)).
Proof.
  intros Hget H429. cbv zeta. unfold_turn. rewrite Hget, H429.
  destruct (k >? 0), (k <? max_retries); cbn [Z.eqb Pos.eqb];
    try reflexivity;
    (destruct (float_of_string _) as [[q|[| |]]|];
     [ | | | destruct (sleep_nan w) | ]; reflexivity).
Qed.

(** *** Every turn *)

Lemma gets_turn (k : Z) (w : attempt_env) : gets (trace_of (turn k w)) = [url].
Proof. every_turn k w; reflexivity. Qed.

Lemma writes_turn_continue (k : Z) (w : attempt_env) :
  result_of (turn k w) = inr Continue -> writes (trace_of (turn k w)) = [].
Proof. every_turn k w; easy. Qed.

Lemma turn_starts (k : Z) (w : attempt_env) :
  exists rest, trace_of (turn k w) = before_get date k ++ Get url :: rest.
Proof. every_turn k w; eexists; reflexivity. Qed.

Ltac not_in_trace :=
  let H := fresh "H" in
  cbn [In]; intros H;
  repeat (destruct H as [H | H]; [discriminate H | ]);
  destruct H.

Lemma rate_limited_max_exhausted (k : Z) (w : attempt_env) :
  In (Print (MsgRateLimitedMax date)) (trace_of (turn k w)) -> max_retries <= k.
Proof. every_turn k w; first [lia | not_in_trace]. Qed.

Lemma gets_app (t t' : list event) : gets (t ++ t') = gets t ++ gets t'.
Proof.
  induction t as [|[] t IH]; cbn; rewrite ?IH; reflexivity.
Qed.

Lemma writes_app (t t' : list event) : writes (t ++ t') = writes t ++ writes t'.
Proof.
  induction t as [|[] t IH]; cbn; rewrite ?IH; reflexivity.
Qed.

Lemma gets_before_get (k : Z) : gets (before_get date k) = [].
Proof. unfold before_get. now destruct (k >? 0). Qed.

Lemma writes_before_get (k : Z) : writes (before_get date k) = [].
Proof. unfold before_get. now destruct (k >? 0). Qed.

Lemma gets_turns_before (world : Z -> attempt_env) (k : Z) :
  0 <= k -> Z.of_nat (List.length (gets (earlier world k))) = k.
Proof.
  intros Hk. unfold turns_before, range.
  assert (forall l : list nat,
    List.length (gets (flat_map (fun j => trace_of (turn j (world j)))
                         (map Z.of_nat l)))
    = List.length l) as E.
  { induction l as [|i l IH]; cbn [map flat_map]; [reflexivity | ].
    rewrite gets_app, gets_turn. cbn. now rewrite IH. }
  rewrite E, length_seq. lia.
Qed.

Lemma writes_turns_before (world : Z -> attempt_env) (k : Z) :
  reaches float_of_string filename date save_path url world k ->
  writes (earlier world k) = [].
Proof.
  intros Hreach. unfold turns_before.
  assert (forall l : list Z,
    (forall j, In j l -> 0 <= j < k) ->
    writes (flat_map (fun j => trace_of (turn j (world j))) l) = []) as E.
  { induction l as [|j l IH]; intros Hl; cbn [flat_map]; [reflexivity | ].
    rewrite writes_app, writes_turn_continue, IH; try reflexivity.
    - intros; apply Hl; now right.
    - apply Hreach, Hl. now left. }
  apply E. intros j. apply in_range.
Qed.

(** *** Turns and the gates *)

(** A turn gives back the connection it takes, unless it sleeps for ever,
    which it does with the connection. *)
Lemma turn_phase (k : Z) (w : attempt_env) :
  phase_after Inside (trace_of (turn k w)) =
  Some (match result_of (turn k w) with inl Hangs => Connected | _ => Inside end).
Proof. every_turn k w; reflexivity. Qed.

Lemma for_attempts_phase (world : Z -> attempt_env) (attempts : list Z) :
  phase_after Inside (trace_of (loop world attempts)) =
  Some (match result_of (loop world attempts) with
        | inl Hangs => Connected
        | _ => Inside
        end).
Proof.
  induction attempts as [|k attempts IH]; [reflexivity | ].
  rewrite for_attempts_cons. pose proof (turn_phase k (world k)) as T.
  destruct (attempt_turn_ends k (world k)) as [H | [[|b] H]];
    rewrite H in *; cbn [trace_of result_of fst snd]; try exact T.
  now rewrite phase_after_app, T.
Qed.



End EngineFacts.

Section RunFacts.

Variable path_join : string -> string -> string.
Variable float_of_string : string -> option pyfloat.
Variables (world : Z -> attempt_env) (filename : string) (date : datetime)
  (save_dir : string).

Local Abbreviation save_path := (path_join save_dir filename).
Local Abbreviation url := (BASE_URL ++ filename)%string.
Local Abbreviation turn := (attempt_turn float_of_string filename date save_path url).
Local Abbreviation loop := (for_attempts float_of_string filename date save_path url).
Local Abbreviation earlier := (turns_before float_of_string filename date save_path url).
Local Abbreviation run :=
  (download_file_async path_join float_of_string world (Some filename) date save_dir).

(** With a file name, the task is the retry loop inside the semaphore, which
    it leaves when the loop ends. *)
Lemma download_file_async_loop :
  run =
  match result_of (loop world (range (max_retries + 1))) with
  | inl Hangs =>
      (SemAcquire :: trace_of (loop world (range (max_retries + 1))), inl Hangs)
  | r =>
      (SemAcquire :: trace_of (loop world (range (max_retries + 1)))
         ++ [SemRelease], r)
  end.
Proof.
  unfold download_file_async, path_div, str_add, filename_text.
  cbn [bind ret emit ensure app].
  destruct (for_attempts _ _ _ _ _ _ _) as [t [[e|]|b]]; reflexivity.
Qed.

Lemma download_file_async_stops (k : Z) (b : bool) :
  0 <= k <= max_retries ->
  reaches float_of_string filename date save_path url world k ->
  result_of (turn k (world k)) = inr (Return b) ->
  run =
  (SemAcquire :: (earlier world k ++ trace_of (turn k (world k))) ++ [SemRelease],
   inr b).
Proof.
  intros Hk Hreach Hstop.
  rewrite download_file_async_loop.
  now rewrite (for_attempts_stops _ _ _ _ _ world k b Hk Hreach Hstop).
Qed.

(** A run that gets as far as attempt [k] and sleeps for ever there stays
    inside the semaphore. *)
Lemma download_file_async_hangs (k : Z) :
  0 <= k <= max_retries ->
  reaches float_of_string filename date save_path url world k ->
  result_of (turn k (world k)) = inl Hangs ->
  run = (SemAcquire :: earlier world k ++ trace_of (turn k (world k)), inl Hangs).
Proof.
  intros Hk Hreach Hhangs.
  rewrite download_file_async_loop.
  rewrite (for_attempts_ends _ _ _ _ _ world k Hk Hreach)
    by (rewrite Hhangs; discriminate).
  now rewrite Hhangs.
Qed.



(** C4. An HTTP status other than 200 and 429, at whichever attempt it
    comes, ends the task at once with a failure that reports the status:
    the request of that attempt is the last one, and nothing is slept
    after it. When it comes at the first attempt, one request was made
    and the only delay is the pacing delay. *)
Theorem http_status_fails_without_retry (k : Z) (resp : response) :
  0 <= k <= max_retries ->
  reaches float_of_string filename date save_path url world k ->
  get (world k) = inr resp ->
  status resp <> 200 ->
  status resp <> 429 ->
  result_of run = inr false /\
  trace_of run =
    SemAcquire :: earlier world k ++ before_get date k
      ++ [Get url; Print (MsgHttpStatus date (status resp)); ConnRelease;
          SemRelease] /\
  Z.of_nat (List.length (gets (trace_of run))) = k + 1 /\
  (k = 0 ->
   waits (trace_of run) = [[(1 # 10)%Q]; []] /\
   prints (trace_of run) = [MsgHttpStatus date (status resp)]).
Proof.
  intros Hk Hreach Hget H200 H429.
  pose proof (turn_http_status float_of_string filename date save_path url
                k (world k) resp Hget H200 H429) as Hturn.
  rewrite (download_file_async_stops k false Hk Hreach)
    by (now rewrite Hturn).
  rewrite Hturn. cbn [trace_of result_of fst snd].
  repeat split.
  - now rewrite <- !app_assoc.
  - cbn [gets]. rewrite !gets_app, !length_app, gets_before_get.
    pose proof (gets_turns_before float_of_string filename date save_path url
                  world k ltac:(lia)) as G.
    cbn [gets List.length]. lia.
  - subst k. reflexivity.
  - subst k. reflexivity.
Qed.


(** C9. When the first attempt is answered with 200, and the body is read
    and written without error, the task returns [True]; it has made one
    request, written the body once to [save_dir/filename], and slept the
    pacing delay only. *)
Theorem first_attempt_saved (resp : response) (content : bytes) :
  get (world 0) = inr resp ->
  status resp = 200 ->
  read resp = inr content ->
  disk (world 0) = None ->
  result_of run = inr true /\
  trace_of run =
    [SemAcquire; Sleep (1 # 10)%Q; Get url; WriteFile save_path content;
     Print (MsgSaved date filename); ConnRelease; SemRelease] /\
  writes (trace_of run) = [(save_path, content)] /\
  waits (trace_of run) = [[(1 # 10)%Q]; []].
Proof.
  intros Hget H200 Hread Hdisk.
  pose proof (turn_saved float_of_string filename date save_path url
                0 (world 0) resp content Hget H200 Hread Hdisk) as Hturn.
  rewrite (download_file_async_stops 0 true)
    by (unfold max_retries, reaches; try rewrite Hturn; first [lia | easy]).
  rewrite Hturn. repeat split.
Qed.

(** C5. When every attempt times out, the task makes four requests and
    returns [False] after the line that reports the timeout with the
    retries used up; before the second, third and fourth request it sleeps
    1, 2 and 4 seconds. *)
Theorem timeouts_exhaust_retries :
  (forall j, 0 <= j <= max_retries -> times_out (world j)) ->
  result_of run = inr false /\
  gets (trace_of run) = [url; url; url; url] /\
  waits (trace_of run) = [[(1 # 10)%Q]; [1%Q]; [2%Q]; [4%Q]; []] /\
  prints (trace_of run) =
    [MsgTimeoutRetry date; MsgRetry date 1 1;
     MsgTimeoutRetry date; MsgRetry date 2 2;
     MsgTimeoutRetry date; MsgRetry date 3 4;
     MsgTimeoutMax date].
Proof.
  intros Hout. rewrite download_file_async_loop.
  change (range (max_retries + 1)) with [0; 1; 2; 3].
  rewrite !for_attempts_cons.
  rewrite !(turn_timeout float_of_string filename date save_path url)
    by (apply Hout; unfold max_retries; lia).
  repeat split.
Qed.

(** C2, as the code has it. After a 429 with [Retry-After: 2] at the first
    attempt and a 200 at the second, the task returns [True]; between the
    two requests it sleeps the 2 seconds of the header and then the backoff
    delay of the first retry, 1 second: 3 seconds in all. *)
Theorem rate_limited_then_saved (resp0 resp1 : response) (content : bytes) :
  float_of_string "2" = Some (Finite 2%Q) ->
  get (world 0) = inr resp0 ->
  status resp0 = 429 ->
  retry_after resp0 = Some "2" ->
  get (world 1) = inr resp1 ->
  status resp1 = 200 ->
  read resp1 = inr content ->
  disk (world 1) = None ->
  result_of run = inr true /\
  trace_of run =
    [SemAcquire; Sleep (1 # 10)%Q; Get url;
     Print (MsgRateLimitedWait date (Finite 2)); Sleep 2; ConnRelease;
     Print (MsgRetry date 1 1); Sleep 1; Get url;
     WriteFile save_path content; Print (MsgSaved date filename);
     ConnRelease; SemRelease] /\
  waits (trace_of run) = [[(1 # 10)%Q]; [2%Q; 1%Q]; []] /\
  (total (nth 1 (waits (trace_of run)) []) == 3)%Q.
Proof.
  intros Hfloat Hget0 H429 Hheader Hget1 H200 Hread Hdisk.
  rewrite download_file_async_loop.
  change (range (max_retries + 1)) with [0; 1; 2; 3].
  rewrite !for_attempts_cons.
  rewrite (turn_rate_limited float_of_string filename date save_path url
             0 (world 0) resp0 Hget0 H429).
  unfold headers_get_retry_after. rewrite Hheader, Hfloat.
  rewrite (turn_saved float_of_string filename date save_path url
             1 (world 1) resp1 content Hget1 H200 Hread Hdisk).
  repeat split.
Qed.

(** C3, as the code has it. After a 429 with attempts left, the task
    sleeps the seconds of the [Retry-After] header, or 5 seconds when there
    is no such header, and makes the next request after the backoff delay;
    a header that is not a number ends the task at once with the failure of
    an unexpected error. A header that [float] takes for a value that is not
    finite is slept on as [asyncio.sleep] has it: for ever, inside the
    semaphore and with the connection, for [inf]; not at all for [-inf];
    and for a NaN either way, or with the failure of an unexpected error.
    A 429 at the last attempt ends the task with the rate-limit failure,
    which no earlier attempt reports. *)
Theorem rate_limited_waits_then_retries (k : Z) (resp : response) :
  0 <= k <= max_retries ->
  reaches float_of_string filename date save_path url world k ->
  get (world k) = inr resp ->
  status resp = 429 ->
  let retried := fun (wait_time : pyfloat) (slept : event) =>
    exists rest,
      trace_of run =
        SemAcquire :: earlier world k ++ before_get date k
          ++ [Get url; Print (MsgRateLimitedWait date wait_time);
              slept; ConnRelease]
          ++ before_get date (k + 1) ++ Get url :: rest in
  let asleep := fun (wait_time : pyfloat) (slept : event) =>
    result_of run = inl Hangs /\
    trace_of run =
      SemAcquire :: earlier world k ++ before_get date k
        ++ [Get url; Print (MsgRateLimitedWait date wait_time); slept] in
  let unexpected := fun before_release : list event =>
    result_of run = inr false /\
    trace_of run =
      SemAcquire :: earlier world k ++ before_get date k
        ++ Get url :: before_release
        ++ [ConnRelease; Print (MsgUnexpected date (OtherError "ValueError"));
            SemRelease] in
  (k < max_retries ->
   match retry_after resp with
   | None =>
       float_of_string "5" = Some (Finite 5%Q) -> retried (Finite 5%Q) (Sleep 5%Q)
   | Some v =>
       match float_of_string v with
       | Some (Finite wait_time) => retried (Finite wait_time) (Sleep wait_time)
       | Some (NonFinite PlusInf) =>
           asleep (NonFinite PlusInf) (SleepNonFinite PlusInf)
       | Some (NonFinite MinusInf) =>
           retried (NonFinite MinusInf) (SleepNonFinite MinusInf)
       | Some (NonFinite NaN) =>
           match sleep_nan (world k) with
           | NanRefused =>
               unexpected [Print (MsgRateLimitedWait date (NonFinite NaN));
                           SleepNonFinite NaN]
           | NanOver => retried (NonFinite NaN) (SleepNonFinite NaN)
           | NanNever => asleep (NonFinite NaN) (SleepNonFinite NaN)
           end
       | None => unexpected []
       end
   end) /\
  (k = max_retries ->
   result_of run = inr false /\
   trace_of run =
     SemAcquire :: earlier world k ++ before_get date k
       ++ [Get url; Print (MsgRateLimitedMax date); ConnRelease; SemRelease]) /\
  (forall j w, In (Print (MsgRateLimitedMax date)) (trace_of (turn j w)) ->
               j = max_retries \/ max_retries < j).
Proof.
  intros Hk Hreach Hget H429 retried asleep unexpected.
  pose proof (turn_rate_limited float_of_string filename date save_path url
                k (world k) resp Hget H429) as Hturn.
  cbv beta zeta in Hturn.
  assert (forall wait_time slept,
    k < max_retries ->
    turn k (world k) =
      (before_get date k ++
         [Get url; Print (MsgRateLimitedWait date wait_time); slept; ConnRelease],
       inr Continue) ->
    retried wait_time slept) as Hretried.
  { intros wait_time slept Hlt Hgo.
    destruct (for_attempts_goes_on float_of_string filename date save_path url
                world k ltac:(lia) Hreach) as [rest Hrest];
      [now rewrite Hgo | ].
    destruct (turn_starts float_of_string filename date save_path url
                (k + 1) (world (k + 1))) as [rest' Hnext].
    rewrite Hgo, Hnext in Hrest. cbn [trace_of fst] in Hrest.
    unfold retried. rewrite download_file_async_loop.
    destruct (result_of (loop world (range (max_retries + 1)))) as [[e|]|b];
      cbn [trace_of fst]; rewrite Hrest;
      [ exists (rest' ++ rest ++ [SemRelease])
      | exists (rest' ++ rest)
      | exists (rest' ++ rest ++ [SemRelease]) ];
      cbn [app]; now rewrite <- ?app_assoc. }
  assert (forall wait_time slept,
    turn k (world k) =
      (before_get date k ++
         [Get url; Print (MsgRateLimitedWait date wait_time); slept],
       inl Hangs) ->
    asleep wait_time slept) as Hasleep.
  { intros wait_time slept Hhangs. unfold asleep.
    rewrite (download_file_async_hangs k Hk Hreach) by (now rewrite Hhangs).
    rewrite Hhangs. cbn [trace_of result_of fst snd]. now split. }
  assert (forall before_release,
    turn k (world k) =
      (before_get date k ++ Get url :: before_release
         ++ [ConnRelease; Print (MsgUnexpected date (OtherError "ValueError"))],
       inr (Return false)) ->
    unexpected before_release) as Hunexpected.
  { intros before_release Hstop. unfold unexpected.
    rewrite (download_file_async_stops k false Hk Hreach) by (now rewrite Hstop).
    rewrite Hstop. cbn [trace_of result_of fst snd]. split; [reflexivity | ].
    repeat (progress (rewrite <- ?app_assoc; cbn [app])). reflexivity. }
  split; [ | split].
  - intros Hlt. apply Z.ltb_lt in Hlt as Hltb. rewrite Hltb in Hturn.
    unfold headers_get_retry_after in Hturn.
    destruct (retry_after resp) as [v|].
    + destruct (float_of_string v) as [[wait_time|[| |]]|];
        [ | | | destruct (sleep_nan (world k)) | ];
        first [ now apply Hretried | now apply Hasleep | now apply Hunexpected ].
    + intros Hfloat. rewrite Hfloat in Hturn. now apply Hretried.
  - intros ->. cbn [Z.ltb Z.compare Pos.compare Pos.compare_cont max_retries] in Hturn.
    rewrite (download_file_async_stops max_retries false Hk Hreach)
      by (now rewrite Hturn).
    rewrite Hturn. cbn [trace_of result_of fst snd].
    now rewrite <- !app_assoc.
  - intros j w Hin.
    apply (rate_limited_max_exhausted float_of_string filename date save_path url) in Hin.
    lia.
Qed.

End RunFacts.

(** ** The batch *)

Lemma gather_spec (tasks : list (M bool)) (l : list (exn + bool)) :
  gather tasks = Some l <-> map result_of tasks = map result_kept l.
Proof.
  revert l. induction tasks as [|m tasks IH]; intros l; cbn [gather map].
  - split; [intros [= <-]; reflexivity | ].
    destruct l; [reflexivity | discriminate].
  - destruct (result_of m) as [[e|]|b] eqn:Hm.
    + destruct (gather tasks) as [l'|].
      * split.
        -- intros [= <-]. cbn [map result_kept]. f_equal. now apply IH.
        -- destruct l as [|[e'|b'] l]; cbn [map result_kept]; intros [= H1 H2];
             subst. f_equal. f_equal. apply IH in H2. now injection H2.
      * split; [discriminate | ].
        destruct l as [|r l]; cbn [map]; intros [= _ H2].
        apply IH in H2. discriminate H2.
    + split; [destruct (gather tasks); discriminate | ].
      destruct l as [|[e'|b'] l]; cbn [map result_kept]; intros [= H1 H2];
        discriminate H1.
    + destruct (gather tasks) as [l'|].
      * split.
        -- intros [= <-]. cbn [map result_kept]. f_equal. now apply IH.
        -- destruct l as [|[e'|b'] l]; cbn [map result_kept]; intros [= H1 H2];
             subst. f_equal. f_equal. apply IH in H2. now injection H2.
      * split; [discriminate | ].
        destruct l as [|r l]; cbn [map]; intros [= _ H2].
        apply IH in H2. discriminate H2.
Qed.

(** [gather] returns unless a task never ends. *)
Lemma gather_none (tasks : list (M bool)) :
  gather tasks = None <-> exists m, In m tasks /\ result_of m = inl Hangs.
Proof.
  induction tasks as [|m tasks IH]; cbn [gather In].
  - split; [discriminate | intros (m & [] & _)].
  - destruct (result_of m) as [[e|]|b] eqn:Hm.
    + destruct (gather tasks) as [l|].
      * split; [discriminate | ].
        intros (m' & [<- | Hin] & Hm'); [congruence | ].
        destruct IH as [_ IH]. discriminate IH. eauto.
      * split; [ | reflexivity]. intros _.
        destruct IH as [IH _]. destruct (IH eq_refl) as (m' & Hin & Hm'). eauto.
    + split; [ | destruct (gather tasks); reflexivity]. intros _. eauto.
    + destruct (gather tasks) as [l|].
      * split; [discriminate | ].
        intros (m' & [<- | Hin] & Hm'); [congruence | ].
        destruct IH as [_ IH]. discriminate IH. eauto.
      * split; [ | reflexivity]. intros _.
        destruct IH as [IH _]. destruct (IH eq_refl) as (m' & Hin & Hm'). eauto.
Qed.

Lemma gather_ends (tasks : list (M bool)) :
  (forall m, In m tasks -> ends m) -> exists l, gather tasks = Some l.
Proof.
  intros Hends. destruct (gather tasks) as [l|] eqn:Hl; [eauto | ].
  apply gather_none in Hl as (m & Hin & Hm). now destruct (Hends m Hin).
Qed.

Lemma gather_length (tasks : list (M bool)) (l : list (exn + bool)) :
  gather tasks = Some l -> List.length l = List.length tasks.
Proof.
  intros Hl. apply gather_spec in Hl.
  now rewrite <- (length_map result_kept), <- Hl, length_map.
Qed.

Lemma gather_nth (tasks : list (M bool)) (l : list (exn + bool)) (i : nat) :
  gather tasks = Some l ->
  option_map result_kept (nth_error l i) = option_map result_of (nth_error tasks i).
Proof.
  intros Hl. apply gather_spec in Hl.
  now rewrite <- !nth_error_map, Hl.
Qed.

Lemma result_kept_inj (r r' : exn + bool) : result_kept r = result_kept r' -> r = r'.
Proof. destruct r, r'; cbn; congruence. Qed.

Section BatchFacts.

Variable path_join : string -> string -> string.
Variable float_of_string : string -> option pyfloat.

Local Abbreviation task := (download_file_async path_join float_of_string).
Local Abbreviation batch_of := (download_all_files path_join float_of_string).

(** Whatever the world does, a task enters the semaphore first and gives
    back every connection it takes; it leaves the semaphore last, unless it
    sleeps for ever inside it, with its connection. *)
Lemma download_file_async_phase (world : Z -> attempt_env)
    (filename : option string) (date : datetime) (save_dir : string) :
  phase_after Waiting (trace_of (task world filename date save_dir))
  = Some (last_phase (task world filename date save_dir)).
Proof.
  destruct filename as [f|]; [ | reflexivity].
  unfold last_phase. rewrite download_file_async_loop.
  pose proof (for_attempts_phase float_of_string f date (path_join save_dir f)
                (BASE_URL ++ f)%string world (range (max_retries + 1))) as P.
  destruct (result_of (for_attempts _ _ _ _ _ _ _)) as [[e|]|b];
    cbn [trace_of result_of fst snd phase_after phase_step];
    rewrite ?phase_after_app, P; reflexivity.
Qed.

Lemma spawn_nth (world : nat -> Z -> attempt_env)
    (urls : list (option string * datetime)) (save_dir : string) (i n : nat) :
  nth_error (spawn path_join float_of_string world i urls save_dir) n =
  option_map (fun e => task (world (i + n)%nat) (fst e) (snd e) save_dir)
             (nth_error urls n).
Proof.
  revert i n. induction urls as [|[f d] urls IH]; intros i n.
  - now destruct n.
  - destruct n as [|n]; cbn [spawn nth_error option_map fst snd].
    + now rewrite Nat.add_0_r.
    + rewrite IH. now rewrite Nat.add_succ_r.
Qed.

Lemma spawn_length (world : nat -> Z -> attempt_env)
    (urls : list (option string * datetime)) (save_dir : string) (i : nat) :
  List.length (spawn path_join float_of_string world i urls save_dir)
  = List.length urls.
Proof.
  revert i. induction urls as [|[f d] urls IH]; intros i; cbn; [reflexivity | ].
  now rewrite IH.
Qed.

Lemma spawn_phase (world : nat -> Z -> attempt_env)
    (urls : list (option string * datetime)) (save_dir : string) (i : nat) :
  Forall (fun m => phase_after Waiting (trace_of m) = Some (last_phase m))
         (spawn path_join float_of_string world i urls save_dir).
Proof.
  revert i. induction urls as [|[f d] urls IH]; intros i; cbn [spawn];
    constructor; [apply download_file_async_phase | apply IH].
Qed.

Lemma tasks_spawn (world : nat -> Z -> attempt_env)
    (urls : list (option string * datetime)) (save_dir : string) :
  tasks (batch_of world urls save_dir)
  = spawn path_join float_of_string world 0 urls save_dir.
Proof.
  unfold download_all_files. now destruct (gather _).
Qed.

(** What the batch has when [gather] has returned. *)
Lemma gathered_summary (world : nat -> Z -> attempt_env)
    (urls : list (option string * datetime)) (save_dir : string) (s : summary) :
  gathered (batch_of world urls save_dir) = Some s ->
  gather (spawn path_join float_of_string world 0 urls save_dir)
  = Some (results s) /\
  List.length (results s) = List.length urls /\
  successful s = count is_True (results s) /\
  failed s = count (fun r => negb (is_True r)) (results s) /\
  successful s + failed s = Z.of_nat (List.length urls) /\
  printed (batch_of world urls save_dir)
  = [MsgStarting (Z.of_nat (List.length urls));
     MsgSummary (successful s) (failed s)].
Proof.
  unfold download_all_files.
  destruct (gather _) as [l|] eqn:Hl; cbn [gathered printed]; [ | discriminate].
  intros [= <-]. cbn [results successful failed].
  pose proof (gather_length _ _ Hl) as Hlen. rewrite spawn_length in Hlen.
  pose proof (count_partition is_True l) as P.
  rewrite sum_ones, spawn_length. fold (count is_True l).
  repeat split; try assumption; try lia.
Qed.

(** [gather] returns when every task ends, and only then; until it does,
    the first line only is printed. *)
Lemma gathered_iff (world : nat -> Z -> attempt_env)
    (urls : list (option string * datetime)) (save_dir : string) :
  let b := batch_of world urls save_dir in
  (gathered b = None <-> exists m, In m (tasks b) /\ result_of m = inl Hangs) /\
  (gathered b = None -> printed b = [MsgStarting (Z.of_nat (List.length urls))]).
Proof.
  cbv zeta. rewrite tasks_spawn, <- gather_none.
  unfold download_all_files.
  destruct (gather _) as [l|]; cbn [gathered printed].
  - split; [split | ]; discriminate.
  - rewrite spawn_length. split; [split | ]; reflexivity.
Qed.

Lemma gathered_ends (world : nat -> Z -> attempt_env)
    (urls : list (option string * datetime)) (save_dir : string) :
  (forall m, In m (tasks (batch_of world urls save_dir)) -> ends m) ->
  exists s, gathered (batch_of world urls save_dir) = Some s.
Proof.
  intros Hends.
  destruct (gathered (batch_of world urls save_dir)) as [s|] eqn:Hs; [eauto | ].
  apply (gathered_iff world urls save_dir) in Hs as (m & Hin & Hm).
  now destruct (Hends m Hin).
Qed.


Lemma count_nth {A : Type} (p : A -> bool) (l : list A) (i : nat) (x : A) :
  nth_error l i = Some x -> p x = true -> 1 <= count p l.
Proof.
  revert i. induction l as [|y l IH]; intros [|i]; cbn [nth_error];
    try discriminate; rewrite count_cons.
  - intros [= ->] ->. pose proof (count_nonneg p l). lia.
  - intros Hx Hp. specialize (IH i Hx Hp). destruct (p y); lia.
Qed.

(** C7, as the code has it. The task of an entry without a file name
    raises [TypeError] inside the semaphore before it sleeps, requests,
    writes or prints anything, and the tasks of the other entries are what
    they are without it; when these end, [gather] returns, the run keeps
    the exception as the result of that entry, and the entry is counted
    among the failed ones of a summary that adds up and is printed. *)
Theorem none_filename_counts_as_failed (world : nat -> Z -> attempt_env)
    (urls : list (option string * datetime)) (save_dir : string)
    (i : nat) (date : datetime) :
  nth_error urls i = Some (None, date) ->
  let b := batch_of world urls save_dir in
  nth_error (tasks b) i
    = Some ([SemAcquire; SemRelease], inl (Raises (OtherError "TypeError"))) /\
  (forall j f d,
     j <> i -> nth_error urls j = Some (f, d) ->
     nth_error (tasks b) j = Some (task (world j) f d save_dir)) /\
  ((forall j m, j <> i -> nth_error (tasks b) j = Some m -> ends m) ->
   exists s,
     gathered b = Some s /\
     nth_error (results s) i = Some (inl (OtherError "TypeError")) /\
     1 <= failed s /\
     successful s + failed s = Z.of_nat (List.length urls) /\
     printed b = [MsgStarting (Z.of_nat (List.length urls));
                  MsgSummary (successful s) (failed s)]).
Proof.
  intros Hi b.
  assert (nth_error (tasks b) i
          = Some ([SemAcquire; SemRelease], inl (Raises (OtherError "TypeError"))))
    as Ht.
  { subst b. rewrite tasks_spawn. now rewrite spawn_nth, Hi. }
  split; [exact Ht | ]. split.
  - intros j f d _ Hj. subst b. rewrite tasks_spawn. now rewrite spawn_nth, Hj.
  - intros Hends.
    destruct (gathered_ends world urls save_dir) as [s Hs].
    { intros m Hin. apply In_nth_error in Hin as [j Hj].
      destruct (Nat.eq_dec j i) as [-> | Hne].
      - fold b in Hj. rewrite Ht in Hj. injection Hj as <-.
        intros H; discriminate H.
      - now apply (Hends j). }
    exists s. split; [exact Hs | ].
    destruct (gathered_summary world urls save_dir s Hs)
      as (Hl & Hlen & Hsucc & Hfail & Hsum & Hprinted).
    assert (nth_error (results s) i = Some (inl (OtherError "TypeError"))) as Hr.
    { pose proof (gather_nth _ _ i Hl) as Hnth.
      rewrite <- tasks_spawn in Hnth. fold b in Hnth. rewrite Ht in Hnth.
      destruct (nth_error (results s) i) as [r|]; [ | discriminate Hnth].
      cbn in Hnth. injection Hnth as Hnth.
      now rewrite (result_kept_inj r (inl (OtherError "TypeError")) Hnth). }
    repeat split; try assumption.
    rewrite Hfail. now apply (count_nth _ _ i (inl (OtherError "TypeError"))).
Qed.

End BatchFacts.

(** ** The scheduler *)

Lemma holders_split (before after : list task_state) (t : task_state) :
  holders (before ++ t :: after)
  = holders before + holds (task_phase t) + holders after.
Proof.
  unfold holders. rewrite map_app, sum_app. cbn [map]. rewrite sum_cons. lia.
Qed.

Lemma connected_tasks_split (before after : list task_state) (t : task_state) :
  connected_tasks (before ++ t :: after)
  = connected_tasks before + connected (task_phase t) + connected_tasks after.
Proof.
  unfold connected_tasks. rewrite map_app, sum_app. cbn [map]. rewrite sum_cons. lia.
Qed.

Lemma well_bracketed_step (d : list event) (ev : event) (rest : list event) :
  well_bracketed (mkTask d (ev :: rest)) ->
  exists p p',
    task_phase (mkTask d (ev :: rest)) = p /\
    phase_step p ev = Some p' /\
    task_phase (mkTask (d ++ [ev]) rest) = p' /\
    well_bracketed (mkTask (d ++ [ev]) rest).
Proof.
  intros (p & q & Hdone & Htodo). cbn [done todo phase_after] in *.
  destruct (phase_step p ev) as [p'|] eqn:Hstep; [ | discriminate].
  assert (phase_after Waiting (d ++ [ev]) = Some p') as Hdone'.
  { rewrite phase_after_app, Hdone. cbn. now rewrite Hstep. }
  exists p, p'. unfold task_phase. cbn [done]. rewrite Hdone, Hdone'.
  split; [reflexivity | ]. split; [assumption | ]. split; [reflexivity | ].
  exists p', q. now split.
Qed.

Lemma step_preserves (s s' : sched) :
  gates_invariant s -> step s s' -> gates_invariant s'.
Proof.
  intros [Htasks Hpermits Hnonneg Hin_use Hbound] Hstep.
  destruct Hstep as [free used before after d ev rest Henabled].
  cbn [running permits in_use] in *.
  apply Forall_app in Htasks as [Hbefore Hrest].
  apply Forall_cons_iff in Hrest as [Ht Hafter].
  destruct (well_bracketed_step d ev rest Ht) as (p & p' & Hp & Hev & Hp' & Ht').
  rewrite holders_split, Hp in Hpermits.
  rewrite connected_tasks_split, Hp in Hin_use.
  constructor; cbn [running permits in_use].
  - apply Forall_app. split; [assumption | now constructor].
  - rewrite holders_split, Hp'.
    destruct p, ev; try discriminate; injection Hev as <-;
      cbn [permits_after holds] in *; lia.
  - destruct p, ev; try discriminate; cbn [permits_after enabled] in *; lia.
  - rewrite connected_tasks_split, Hp'.
    destruct p, ev; try discriminate; injection Hev as <-;
      cbn [in_use_after connected] in *; lia.
  - destruct p, ev; try discriminate; injection Hev as <-;
      cbn [in_use_after enabled connected] in *; lia.
Qed.

Lemma reachable_invariant (s0 s : sched) :
  gates_invariant s0 -> reachable s0 s -> gates_invariant s.
Proof.
  intros H0 Hreach. induction Hreach; [assumption | ].
  eapply step_preserves; eassumption.
Qed.

(** A task is out of the semaphore only through its release. *)
Lemma phase_finished_released (d : list event) (p : phase) :
  phase_after p d = Some Finished ->
  p = Finished \/ existsb is_sem_release d = true.
Proof.
  revert p. induction d as [|ev d IH]; intros p; cbn [phase_after existsb].
  - intros [= ->]. now left.
  - destruct (phase_step p ev) as [p'|] eqn:Hstep; [ | discriminate].
    intros Hd. right. destruct (IH p' Hd) as [-> | ->]; [ | apply orb_true_r].
    destruct p, ev; try discriminate Hstep. reflexivity.
Qed.

Lemma active_holds (t : task_state) :
  well_bracketed t -> (if active t then 1 else 0) <= holds (task_phase t).
Proof.
  intros (p & q & Hdone & Htodo). unfold task_phase, active. rewrite Hdone.
  destruct (existsb is_sleep (done t)) eqn:Hslept; cbn [andb];
    [ | destruct p; cbn; lia].
  destruct (existsb is_sem_release (done t)) eqn:Hleft; cbn [negb];
    [destruct p; cbn; lia | ].
  destruct p; cbn [holds]; try lia.
  - apply phase_after_waiting in Hdone. rewrite Hdone in Hslept. discriminate.
  - apply phase_finished_released in Hdone as [H | H]; [discriminate H | ].
    rewrite H in Hleft. discriminate.
Qed.

Lemma in_loop_holds (t : task_state) :
  well_bracketed t -> (if in_loop t then 1 else 0) <= holds (task_phase t).
Proof.
  intros (p & q & Hdone & Htodo). unfold task_phase, in_loop. rewrite Hdone.
  destruct (existsb is_sem_acquire (done t)) eqn:Hentered; cbn [andb];
    [ | destruct p; cbn; lia].
  destruct (existsb is_sem_release (done t)) eqn:Hleft; cbn [negb];
    [destruct p; cbn; lia | ].
  destruct p; cbn [holds]; try lia.
  - apply phase_after_waiting in Hdone. rewrite Hdone in Hentered. discriminate.
  - apply phase_finished_released in Hdone as [H | H]; [discriminate H | ].
    rewrite H in Hleft. discriminate.
Qed.

Lemma count_holders (p : task_state -> bool) (l : list task_state) :
  (forall t, well_bracketed t -> (if p t then 1 else 0) <= holds (task_phase t)) ->
  Forall well_bracketed l -> count p l <= holders l.
Proof.
  intros Hp. induction 1 as [|t l Ht Hl IH]; [reflexivity | ].
  rewrite count_cons. unfold holders in *. cbn [map]. rewrite sum_cons.
  pose proof (Hp t Ht). lia.
Qed.

Lemma connections_connected_tasks (l : list task_state) :
  Forall well_bracketed l -> sum (map open_connections l) = connected_tasks l.
Proof.
  induction 1 as [|t l Ht Hl IH]; [reflexivity | ].
  unfold connected_tasks in *. cbn [map]. rewrite !sum_cons, IH.
  destruct Ht as (p & q & Hdone & _).
  unfold open_connections, task_phase. rewrite Hdone.
  rewrite (open_connections_phase _ _ _ Hdone). cbn [connected]. lia.
Qed.

Section SchedulerFacts.

Variable path_join : string -> string -> string.
Variable float_of_string : string -> option pyfloat.

Local Abbreviation batch_of := (download_all_files path_join float_of_string).

Lemma start_invariant (world : nat -> Z -> attempt_env)
    (urls : list (option string * datetime)) (save_dir : string) :
  gates_invariant (start_of (batch_of world urls save_dir)).
Proof.
  unfold start_of. rewrite tasks_spawn.
  pose proof (spawn_phase path_join float_of_string world urls save_dir 0) as Hphase.
  set (fresh := fun m : M bool => mkTask [] (trace_of m)).
  assert (Forall well_bracketed (map fresh (spawn path_join float_of_string
                                              world 0 urls save_dir))
          /\ holders (map fresh (spawn path_join float_of_string
                                   world 0 urls save_dir)) = 0
          /\ connected_tasks (map fresh (spawn path_join float_of_string
                                           world 0 urls save_dir)) = 0)
    as (Htasks & Hholders & Hconnected).
  { induction Hphase as [|m l Hm Hl (IHt & IHh & IHc)]; cbn [map].
    - repeat split. constructor.
    - repeat split.
      + constructor; [ | assumption]. exists Waiting, (last_phase m). now split.
      + unfold holders in *. cbn [map]. now rewrite sum_cons, IHh.
      + unfold connected_tasks in *. cbn [map]. now rewrite sum_cons, IHc. }
  constructor; cbn [running permits in_use]; try assumption.
  - lia.
  - unfold semaphore_value. lia.
  - now rewrite Hconnected.
  - unfold connector_limit. lia.
Qed.

(** C8. However the tasks of a run are interleaved, at most two of them
    are past their pacing delay and unresolved (at most two are inside the
    semaphore at all), and at most three connections are open. *)
Theorem gates_bound_the_run (world : nat -> Z -> attempt_env)
    (urls : list (option string * datetime)) (save_dir : string) (s : sched) :
  reachable (start_of (batch_of world urls save_dir)) s ->
  count active (running s) <= semaphore_value /\
  count in_loop (running s) <= semaphore_value /\
  connections s <= connector_limit.
Proof.
  intros Hreach.
  destruct (reachable_invariant _ s (start_invariant world urls save_dir) Hreach)
    as [Htasks Hpermits Hnonneg Hin_use Hbound].
  split; [ | split].
  - pose proof (count_holders active _ active_holds Htasks). lia.
  - pose proof (count_holders in_loop _ in_loop_holds Htasks). lia.
  - unfold connections. rewrite connections_connected_tasks by assumption. lia.
Qed.

End SchedulerFacts.

(** ** The properties at the example inputs *)

Lemma reaches_0 (float_of_string : string -> option pyfloat) (filename : string)
    (date : datetime) (save_path url : string) (world : Z -> attempt_env) :
  reaches float_of_string filename date save_path url world 0.
Proof. intros j Hj. lia. Defined.

(** C2: the claim fails. With [Retry-After: 2] the task sleeps 2 seconds and
    then the backoff delay of 1 second before the second request. *)
Lemma retry_after_adds_to_backoff :
  let r := download_file_async posix_join float_of_digits limited_once
             (Some uk_win_file) new_year_2020 uk_win_dir in
  result_of r = inr true /\
  nth 1 (waits (trace_of r)) [] = [2%Q; 1%Q] /\
  (total (nth 1 (waits (trace_of r)) []) == 3)%Q /\
  ~ (total (nth 1 (waits (trace_of r)) []) == 2)%Q /\
  In (Sleep (backoff 1)) (trace_of r).
Proof.
  cbv zeta. repeat split.
  - vm_compute. discriminate.
  - vm_compute. tauto.
Qed.

Lemma rate_limited_then_saved_witness :
  float_of_digits "2" = Some (Finite 2%Q) /\
  result_of (download_file_async posix_join float_of_digits limited_once
               (Some uk_win_file) new_year_2020 uk_win_dir) = inr true.
Proof.
  split; [reflexivity | ].
  apply (rate_limited_then_saved posix_join float_of_digits limited_once
           uk_win_file new_year_2020 uk_win_dir
           (mkResponse 429 (Some "2") (inr csv_body))
           (mkResponse 200 None (inr csv_body)) csv_body);
    reflexivity.
Defined.

(** C3: the claim fails. A [Retry-After] header that holds an HTTP date is
    not read as 5 seconds: the task ends after its first request, with
    attempts left, and sleeps the pacing delay only. *)
Lemma unparseable_retry_after_ends_the_task :
  let r := download_file_async posix_join float_of_digits limited_until_date
             (Some uk_win_file) new_year_2020 uk_win_dir in
  0 < max_retries /\
  result_of r = inr false /\
  List.length (gets (trace_of r)) = 1%nat /\
  waits (trace_of r) = [[(1 # 10)%Q]; []] /\
  ~ In (Sleep 5) (trace_of r) /\
  prints (trace_of r) = [MsgUnexpected new_year_2020 (OtherError "ValueError")].
Proof.
  cbv zeta. repeat split.
  vm_compute. intros H.
  repeat (destruct H as [H | H]; [discriminate H | ]). destruct H.
Qed.

Lemma rate_limited_waits_then_retries_witness :
  float_of_digits "5" = Some (Finite 5%Q) /\
  exists rest,
    trace_of (download_file_async posix_join float_of_digits always_limited
                (Some uk_win_file) new_year_2020 uk_win_dir)
    = SemAcquire :: Sleep (1 # 10)%Q :: Get (BASE_URL ++ uk_win_file)%string
        :: Print (MsgRateLimitedWait new_year_2020 (Finite 5)) :: Sleep 5
        :: ConnRelease
        :: Print (MsgRetry new_year_2020 1 1) :: Sleep 1
        :: Get (BASE_URL ++ uk_win_file)%string :: rest.
Proof.
  split; [reflexivity | ].
  destruct (rate_limited_waits_then_retries posix_join float_of_digits
              always_limited uk_win_file new_year_2020 uk_win_dir
              0 (mkResponse 429 None (inr csv_body)))
    as (Hretried & _).
  - unfold max_retries. lia.
  - apply reaches_0.
  - reflexivity.
  - reflexivity.
  - exact (Hretried eq_refl eq_refl).
Defined.

Lemma http_status_fails_without_retry_witness :
  let r := download_file_async posix_join float_of_digits always_500
             (Some uk_win_file) new_year_2020 uk_win_dir in
  result_of r = inr false /\
  Z.of_nat (List.length (gets (trace_of r))) = 1 /\
  waits (trace_of r) = [[(1 # 10)%Q]; []] /\
  prints (trace_of r) = [MsgHttpStatus new_year_2020 500].
Proof.
  destruct (http_status_fails_without_retry posix_join float_of_digits
              always_500 uk_win_file new_year_2020 uk_win_dir
              0 (mkResponse 500 None (inr csv_body)))
    as (Hresult & _ & Hgets & Hfirst).
  - unfold max_retries. lia.
  - apply reaches_0.
  - reflexivity.
  - discriminate.
  - discriminate.
  - destruct (Hfirst eq_refl) as [Hwaits Hprints].
    cbv zeta. repeat split; assumption.
Defined.

Lemma timeouts_exhaust_retries_witness :
  let r := download_file_async posix_join float_of_digits always_timeout
             (Some uk_win_file) new_year_2020 uk_win_dir in
  result_of r = inr false /\
  List.length (gets (trace_of r)) = 4%nat /\
  waits (trace_of r) = [[(1 # 10)%Q]; [1%Q]; [2%Q]; [4%Q]; []].
Proof.
  destruct (timeouts_exhaust_retries posix_join float_of_digits
              always_timeout uk_win_file new_year_2020 uk_win_dir)
    as (Hresult & Hgets & Hwaits & _).
  - intros j _. left. reflexivity.
  - cbv zeta. rewrite Hgets. repeat split; assumption.
Defined.



Lemma first_attempt_saved_witness :
  let r := download_file_async posix_join float_of_digits always_200
             (Some uk_win_file) new_year_2020 uk_win_dir in
  result_of r = inr true /\
  writes (trace_of r)
    = [("uk_horse_win_2020-01-01_2020-01-03/dwbfpricesukwin01012020.csv",
        csv_body)] /\
  waits (trace_of r) = [[(1 # 10)%Q]; []].
Proof.
  destruct (first_attempt_saved posix_join float_of_digits
              always_200 uk_win_file new_year_2020 uk_win_dir
              (mkResponse 200 None (inr csv_body)) csv_body)
    as (Hresult & _ & Hwrites & Hwaits); try reflexivity.
  cbv zeta. repeat split; assumption.
Defined.

(** C7: the claim fails. Nothing is printed for an entry without a file
    name: its task prints nothing, and the run prints the two lines of the
    summary only. *)
Lemma none_filename_is_not_logged :
  let b := download_all_files posix_join float_of_digits (fun _ => always_200)
             [(None, new_year_2020)] uk_win_dir in
  map trace_of (tasks b) = [[SemAcquire; SemRelease]] /\
  prints (List.concat (map trace_of (tasks b))) = [] /\
  gathered b = Some (mkSummary [inl (OtherError "TypeError")] 0 1) /\
  printed b = [MsgStarting 1; MsgSummary 0 1].
Proof. cbv zeta. repeat split. Qed.

Lemma none_filename_counts_as_failed_witness :
  let b := download_all_files posix_join float_of_digits (fun _ => always_200)
             [(Some uk_win_file, new_year_2020); (None, new_year_2020)]
             uk_win_dir in
  exists s,
    gathered b = Some s /\
    nth_error (results s) 1 = Some (inl (OtherError "TypeError")) /\
    1 <= failed s /\
    printed b = [MsgStarting 2; MsgSummary (successful s) (failed s)].
Proof.
  destruct (none_filename_counts_as_failed posix_join float_of_digits
              (fun _ => always_200)
              [(Some uk_win_file, new_year_2020); (None, new_year_2020)]
              uk_win_dir 1 new_year_2020 eq_refl)
    as (_ & _ & Hgathered).
  destruct Hgathered as (s & Hs & Hresult & Hfailed & _ & Hprinted).
  - intros [|[|j]] m Hj; [ | contradiction | destruct j; discriminate].
    intros [= <-] H. discriminate H.
  - cbv zeta. exists s. repeat split; assumption.
Defined.


Lemma two_inside_reachable : reachable (start_of three_tasks) two_inside.
Proof.
  unfold two_inside, three_tasks. cbv zeta.
  set (t := trace_of (download_file_async posix_join float_of_digits always_200
                        (Some uk_win_file) new_year_2020 uk_win_dir)).
  set (fresh := mkTask [] t).
  set (slept := mkTask [SemAcquire; Sleep (1 # 10)%Q] (tl (tl t))).
  apply (reachable_step _ (mkSched 0 0 [slept; mkTask [SemAcquire] (tl t); fresh]));
    [ | exact (step_event 0 0 [slept] [fresh] [SemAcquire]
                 (Sleep (1 # 10)%Q) (tl (tl t)) eq_refl)].
  apply (reachable_step _ (mkSched 1 0 [slept; fresh; fresh]));
    [ | exact (step_event 1 0 [slept] [fresh] [] SemAcquire (tl t) eq_refl)].
  apply (reachable_step _ (mkSched 1 0 [mkTask [SemAcquire] (tl t); fresh; fresh]));
    [ | exact (step_event 1 0 [] [fresh; fresh] [SemAcquire]
                 (Sleep (1 # 10)%Q) (tl (tl t)) eq_refl)].
  apply (reachable_step _ (mkSched 2 0 [fresh; fresh; fresh]));
    [ | exact (step_event 2 0 [] [fresh; fresh] [] SemAcquire (tl t) eq_refl)].
  apply reachable_start.
Defined.

(** The bound of the semaphore is reached: with three tasks, two are past
    their pacing delay at once, and the third cannot enter then. *)
Lemma gates_bound_the_run_witness :
  reachable (start_of three_tasks) two_inside /\
  count active (running two_inside) = semaphore_value /\
  enabled SemAcquire (permits two_inside) (in_use two_inside) = false /\
  count active (running two_inside) <= semaphore_value /\
  count in_loop (running two_inside) <= semaphore_value /\
  connections two_inside <= connector_limit.
Proof.
  split; [exact two_inside_reachable | ]. split; [reflexivity | ].
  split; [reflexivity | ].
  exact (gates_bound_the_run posix_join float_of_digits (fun _ => always_200)
           [(Some uk_win_file, new_year_2020);
            (Some uk_win_file, new_year_2020);
            (Some uk_win_file, new_year_2020)] uk_win_dir two_inside
           two_inside_reachable).
Defined.

(** C10: the claim fails. For [end_date] on 9999-12-31 the day after the last
    entry is no datetime, and the planner raises instead of returning the one
    entry. *)
Lemma last_day_overflows :
  representable last_day /\
  last_day <= last_day /\
  days_between last_day last_day + 1 = 1 /\
  generate_all_filenames strftime_dmY_gregorian None "g" "w" last_day last_day
  = inl (OtherError "OverflowError").
Proof.
  repeat split; try reflexivity; vm_compute; intros H; discriminate H.
Qed.

Lemma generate_all_filenames_one_per_day_witness :
  representable new_year_2020 /\
  exists l,
    generate_all_filenames strftime_dmY_gregorian (Some "uk") "h" "w"
      new_year_2020 (new_year_2020 + 2 * us_per_day) = inr l /\
    Z.of_nat (List.length l) = 3.
Proof.
  assert (representable new_year_2020) as Hstart
    by (split; vm_compute; [intros H; discriminate H | reflexivity]).
  split; [exact Hstart | ].
  destruct (generate_all_filenames_one_per_day strftime_dmY_gregorian
              (Some "uk") "h" "w" new_year_2020 (new_year_2020 + 2 * us_per_day)
              Hstart)
    as (Hplanned & _).
  destruct Hplanned as (l & Hl & Hlen & _).
  - intros _. split; vm_compute; [intros H; discriminate H | reflexivity].
  - exists l. split; [exact Hl | ].
    rewrite Hlen by (vm_compute; intros H; discriminate H). reflexivity.
Defined.

(** * Further properties *)

(** ** Strings *)

Lemma append_nil_r (s : string) : (s ++ "")%string = s.
Proof. induction s as [|c s IH]; cbn; [reflexivity | now rewrite IH]. Qed.

Lemma append_assoc (a b c : string) :
  ((a ++ b) ++ c)%string = (a ++ b ++ c)%string.
Proof. induction a as [|x a IH]; cbn; [reflexivity | now rewrite IH]. Qed.

Lemma length_append (a b : string) :
  String.length (a ++ b) = (String.length a + String.length b)%nat.
Proof. induction a as [|x a IH]; cbn; [reflexivity | now rewrite IH]. Qed.

Lemma append_inv_head (s a b : string) :
  (s ++ a)%string = (s ++ b)%string -> a = b.
Proof.
  induction s as [|c s IH]; cbn; [trivial | ].
  intros [= H]. now apply IH.
Qed.

Lemma append_inv_tail (a b s : string) :
  (a ++ s)%string = (b ++ s)%string -> a = b.
Proof.
  revert b. induction a as [|x a IH]; intros [|y b] H; cbn in H.
  - reflexivity.
  - apply (f_equal String.length) in H. cbn in H.
    rewrite length_append in H. lia.
  - apply (f_equal String.length) in H. cbn in H.
    rewrite length_append in H. lia.
  - injection H as -> H. f_equal. now apply IH.
Qed.

(** ** File names *)

Section FilenameFacts.

Variable strftime_dmY : datetime -> string.

Lemma get_filename_unnamed (race_type market : string) (date : datetime)
    (country : option string) :
  names_a_file race_type market country = false ->
  get_filename strftime_dmY race_type market date country = None.
Proof.
  unfold get_filename, names_a_file.
  destruct (race_type =? "g")%string, (race_type =? "h")%string,
    (market =? "w")%string, (market =? "p")%string, (falsy country);
    cbn; intros H; try discriminate H; reflexivity.
Qed.

(** The file name is a stem that the selection fixes, the date string and
    the extension. *)
Lemma get_filename_stem (race_type market : string) (country : option string) :
  names_a_file race_type market country = true ->
  exists stem, forall date,
    get_filename strftime_dmY race_type market date country
    = Some (stem ++ strftime_dmY date ++ ".csv")%string.
Proof.
  unfold get_filename, names_a_file.
  destruct (race_type =? "g")%string, (race_type =? "h")%string,
    (market =? "w")%string, (market =? "p")%string, (falsy country);
    cbn [orb andb negb]; intros H; try discriminate H;
    try destruct (country_text country =? "fr")%string;
    eexists; intros date; rewrite <- ?append_assoc; reflexivity.
Qed.

(** X1. [get_filename] has no file name exactly for the selections that
    are not a race type of the two with a market of the two, horse racing
    needing a country as well; the date plays no part in it. *)
Theorem get_filename_none_iff (race_type market : string) (date : datetime)
    (country : option string) :
  get_filename strftime_dmY race_type market date country = None
  <-> names_a_file race_type market country = false.
Proof.
  split; [ | apply get_filename_unnamed].
  destruct (names_a_file race_type market country) eqn:Hnames; [ | reflexivity].
  destruct (get_filename_stem _ _ _ Hnames) as [stem Hstem].
  rewrite Hstem. discriminate.
Qed.

(** X2. Two dates of one selection get the same file name only if
    [strftime] gives them the same date string. *)
Theorem get_filename_same_name (race_type market : string)
    (country : option string) (date1 date2 : datetime) (name : string) :
  get_filename strftime_dmY race_type market date1 country = Some name ->
  get_filename strftime_dmY race_type market date2 country = Some name ->
  strftime_dmY date1 = strftime_dmY date2.
Proof.
  intros H1 H2.
  destruct (names_a_file race_type market country) eqn:Hnames.
  - destruct (get_filename_stem _ _ _ Hnames) as [stem Hstem].
    rewrite Hstem in H1, H2. rewrite <- H2 in H1. injection H1 as H1.
    apply append_inv_head in H1. now apply append_inv_tail in H1.
  - rewrite (get_filename_unnamed _ _ date1 _ Hnames) in H1. discriminate H1.
Qed.

(** Every entry the loop adds is dated between the current date and
    [end_date] and named by [get_filename] for its date. *)
Lemma filenames_loop_entries (country : option string) (race_type market : string)
    (end_date current_date : datetime)
    (filenames : list (option string * datetime)) :
  forall (start_date : datetime) (l : list (option string * datetime)),
  start_date <= current_date ->
  Forall (fun e => fst e = get_filename strftime_dmY race_type market (snd e) country
                   /\ start_date <= snd e <= end_date) filenames ->
  filenames_loop strftime_dmY country race_type market end_date current_date
    filenames = inr l ->
  Forall (fun e => fst e = get_filename strftime_dmY race_type market (snd e) country
                   /\ start_date <= snd e <= end_date) l.
Proof.
  funelim (filenames_loop strftime_dmY country race_type market
             end_date current_date filenames); intros start_date l' Hstart Hacc Hl.
  - now injection Hl as <-.
  - discriminate Hl.
  - pose proof e as E. unfold add_days in E.
    destruct (representableb (current_date + 1 * us_per_day));
      [ | discriminate].
    injection E as <-.
    apply H; try assumption.
    + unfold us_per_day. lia.
    + apply Forall_app. split; [assumption | ].
      constructor; [ | constructor]. split; [reflexivity | cbn [snd]; lia].
Qed.

(** X3. Every entry of the plan is dated from [start_date] to [end_date] and
    carries the file name of its date; so the entries have a name for the
    selections [get_filename] names, and none for the others. *)
Theorem generate_all_filenames_entries (country : option string)
    (race_type market : string) (start_date end_date : datetime)
    (l : list (option string * datetime)) :
  generate_all_filenames strftime_dmY country race_type market
    start_date end_date = inr l ->
  forall name date, In (name, date) l ->
    name = get_filename strftime_dmY race_type market date country /\
    start_date <= date <= end_date /\
    (name = None <-> names_a_file race_type market country = false).
Proof.
  intros Hl name date Hin. unfold generate_all_filenames in Hl.
  pose proof (filenames_loop_entries country race_type market end_date
                start_date [] start_date l ltac:(lia) (Forall_nil _) Hl) as Hall.
  rewrite Forall_forall in Hall. destruct (Hall _ Hin) as [Hname Hdate].
  cbn [fst snd] in *. subst name. repeat split; try lia.
  - intros Hnone.
    destruct (names_a_file race_type market country) eqn:Hnames; [ | reflexivity].
    destruct (get_filename_stem _ _ _ Hnames) as [stem Hstem].
    rewrite Hstem in Hnone. discriminate Hnone.
  - apply get_filename_unnamed.
Qed.

End FilenameFacts.

(** ** The download directory *)

Lemma in_countries_cases (c : string) :
  in_countries c = true ->
  c = "aus" \/ c = "rsa" \/ c = "fr" \/ c = "usa" \/ c = "uk" \/ c = "ire"
  \/ c = "uae".
Proof.
  unfold in_countries. cbn [COUNTRIES_MAP map fst existsb].
  rewrite !orb_true_iff, !String.eqb_eq. intuition discriminate.
Qed.

Lemma validated_names_a_file (country : option string) (race_type market : string) :
  validated country race_type market ->
  names_a_file race_type market country = true.
Proof.
  intros [[[-> (c & -> & Hc)] | [-> ->]] [-> | ->]];
    try reflexivity;
    apply in_countries_cases in Hc;
    decompose [or] Hc; subst c; reflexivity.
Qed.

Section DirectoryFacts.

Variable isoformat : Z -> string.

(** X4. The directories of two different selections that the prompts let
    through differ, whatever the dates. *)
Theorem create_directory_name_selection (country1 country2 : option string)
    (race_type1 race_type2 market1 market2 : string)
    (start1 end1 start2 end2 : datetime) :
  validated country1 race_type1 market1 ->
  validated country2 race_type2 market2 ->
  create_directory_name isoformat country1 race_type1 market1 start1 end1
  = create_directory_name isoformat country2 race_type2 market2 start2 end2 ->
  country1 = country2 /\ race_type1 = race_type2 /\ market1 = market2.
Proof.
  intros [[[-> (c1 & -> & Hc1)] | [-> ->]] [-> | ->]]
         [[[-> (c2 & -> & Hc2)] | [-> ->]] [-> | ->]];
    try (apply in_countries_cases in Hc1; decompose [or] Hc1; subst c1);
    try (apply in_countries_cases in Hc2; decompose [or] Hc2; subst c2);
    cbn; intros H; first [discriminate H | repeat split].
Qed.

End DirectoryFacts.

(** ** Combining the files *)

Lemma concat_cons (line : string) (lines : list string) :
  String.concat "" (line :: lines) = (line ++ String.concat "" lines)%string.
Proof.
  destruct lines as [|line' lines]; cbn [String.concat].
  - now rewrite append_nil_r.
  - reflexivity.
Qed.

Lemma concat_app (lines lines' : list string) :
  String.concat "" (lines ++ lines')
  = (String.concat "" lines ++ String.concat "" lines')%string.
Proof.
  induction lines as [|line lines IH]; [reflexivity | ].
  cbn [app]. now rewrite !concat_cons, IH, append_assoc.
Qed.

(** The lines of a text, put together again, are the text. *)
Lemma writelines_readlines (text : string) : writelines (readlines text) = text.
Proof.
  unfold writelines. induction text as [|c rest IH]; [reflexivity | ].
  cbn [readlines]. destruct (Ascii.eqb c newline).
  - rewrite concat_cons, IH. reflexivity.
  - destruct (readlines rest) as [|line lines].
    + cbn in IH. now subst rest.
    + rewrite concat_cons in *. cbn [append]. now rewrite IH.
Qed.

Lemma readlines_nil (text : string) : readlines text = [] -> text = EmptyString.
Proof.
  intros H. rewrite <- (writelines_readlines text), H. reflexivity.
Qed.

(** Without its first line, a text is what follows its first newline. *)
Lemma writelines_tl_readlines (text : string) :
  writelines (tl (readlines text)) = drop_first_line text.
Proof.
  induction text as [|c rest IH]; [reflexivity | ].
  cbn [readlines drop_first_line]. destruct (Ascii.eqb c newline).
  - cbn [tl]. apply writelines_readlines.
  - destruct (readlines rest) as [|line lines] eqn:Hlines.
    + apply readlines_nil in Hlines. now subst rest.
    + exact IH.
Qed.

Lemma drop_first_line_header (header rows : string) :
  no_newline header = true ->
  drop_first_line (header ++ String newline rows) = rows.
Proof.
  induction header as [|c header IH]; cbn [no_newline append drop_first_line].
  - intros _. now rewrite Ascii.eqb_refl.
  - destruct (Ascii.eqb c newline); cbn [negb andb]; intros H;
      [discriminate H | now apply IH].
Qed.

Section CombineFacts.

Variable os_path_join : string -> string -> string.
Variable env : combine_env.

Local Abbreviation reads :=
  (Forall2 (fun file text => read_text env file = inr text)).

Lemma combine_loop_later (i : nat) (files texts : list string) (written : string) :
  reads files texts ->
  combine_loop env (S i) files written
  = ((written ++ String.concat "" (map drop_first_line texts))%string, None).
Proof.
  intros Hreads. revert i written.
  induction Hreads as [|file text files texts Hread _ IH]; intros i written.
  - cbn. now rewrite append_nil_r.
  - cbn [combine_loop map Nat.eqb]. rewrite Hread, IH.
    now rewrite writelines_tl_readlines, concat_cons, append_assoc.
Qed.

Lemma combine_loop_all (files texts : list string) :
  reads files texts ->
  combine_loop env 0 files "" = (combine_text texts, None).
Proof.
  intros Hall. destruct Hall as [|file text files' texts' Hread Hreads];
    [reflexivity | ].
  cbn [combine_loop Nat.eqb combine_text]. rewrite Hread.
  rewrite (combine_loop_later 0 files' texts') by assumption.
  now rewrite writelines_readlines.
Qed.

Lemma combine_loop_stops (i : nat) (files texts rest : list string)
    (file written : string) (e : exn) :
  reads files texts ->
  read_text env file = inl e ->
  combine_loop env (S i) (files ++ file :: rest) written
  = ((written ++ String.concat "" (map drop_first_line texts))%string, Some e).
Proof.
  intros Hreads Hfile. revert i written.
  induction Hreads as [|file' text files texts Hread _ IH]; intros i written.
  - cbn. rewrite Hfile. now rewrite append_nil_r.
  - cbn [combine_loop map Nat.eqb app]. rewrite Hread, IH.
    now rewrite writelines_tl_readlines, concat_cons, append_assoc.
Qed.

(** X5. When the output file opens and every file found is read, the
    output is the text of the first file followed by the texts of the others
    from their second line on (empty when no file is found), and the one line
    printed reports the success. *)
Theorem combine_files_text (dir_name filename : string) (texts : list string) :
  open_write env (filename ++ ".csv") = None ->
  reads (glob env (os_path_join dir_name "*.csv")) texts ->
  combine_files os_path_join env dir_name filename
  = mkCombined (Some (combine_text texts)) [CombineDone (filename ++ ".csv")].
Proof.
  intros Hopen Hreads. unfold combine_files.
  now rewrite Hopen, (combine_loop_all _ texts Hreads).
Qed.

(** X6. When every file found is the same header line followed by rows of
    its own, the output is that header line once, followed by the rows of
    all the files in the order they were found. *)
Theorem combine_files_one_header (dir_name filename header : string)
    (first : string) (others : list string) :
  no_newline header = true ->
  open_write env (filename ++ ".csv") = None ->
  reads (glob env (os_path_join dir_name "*.csv"))
        (map (fun rows => header ++ String newline rows)%string (first :: others)) ->
  output (combine_files os_path_join env dir_name filename)
  = Some (header ++ String newline (String.concat "" (first :: others)))%string.
Proof.
  intros Hheader Hopen Hreads. unfold combine_files.
  rewrite Hopen, (combine_loop_all _ _ Hreads). cbn [output map combine_text].
  assert (map drop_first_line
            (map (fun rows => header ++ String newline rows)%string others)
          = others) as ->.
  { clear Hreads. induction others as [|rows others IH]; [reflexivity | ].
    cbn [map]. now rewrite drop_first_line_header, IH. }
  rewrite concat_cons, append_assoc. reflexivity.
Qed.

(** X7. When a file cannot be read, the output holds what the files before
    it gave, the files after it are left out, and the line of the error is
    followed by the line that reports success. *)
Theorem combine_files_read_error (dir_name filename file : string)
    (files rest texts : list string) (e : exn) :
  open_write env (filename ++ ".csv") = None ->
  glob env (os_path_join dir_name "*.csv") = files ++ file :: rest ->
  reads files texts ->
  read_text env file = inl e ->
  combine_files os_path_join env dir_name filename
  = mkCombined (Some (combine_text texts))
               [CombineError e; CombineDone (filename ++ ".csv")].
Proof.
  intros Hopen Hglob Hreads Hfile. unfold combine_files.
  rewrite Hopen, Hglob.
  destruct Hreads as [|file' text files' texts' Hread Hreads].
  - cbn. now rewrite Hfile.
  - cbn [app combine_loop Nat.eqb combine_text]. rewrite Hread.
    rewrite (combine_loop_stops 0 files' texts' rest file _ e) by assumption.
    now rewrite writelines_readlines.
Qed.

(** The files found are all read, or there is a first one that is not. *)
Lemma reads_or_fails (files : list string) :
  (exists texts, reads files texts) \/
  (exists before file rest texts e,
     files = before ++ file :: rest /\ reads before texts /\
     read_text env file = inl e).
Proof.
  induction files as [|file files IH].
  - left. exists []. constructor.
  - destruct (read_text env file) as [e|text] eqn:Hfile.
    + right. exists [], file, files, [], e. repeat split; [constructor | assumption].
    + destruct IH as [[texts Hreads]
                     | (before & file' & rest & texts & e & -> & Hreads & Hfile')].
      * left. exists (text :: texts). now constructor.
      * right. exists (file :: before), file', rest, (text :: texts), e.
        repeat split; [now constructor | assumption].
Qed.

(** X8. Whatever the file system does, [combine_files] returns, in one of
    three ways, and in each of them the last line it prints reports
    success. The output file cannot be opened: nothing is written, and the
    error is printed first. Every file found is read: the output is their
    combination. A file cannot be read: the output is the combination of
    the files found before it, and the error is printed first. *)
Theorem combine_files_outcomes (dir_name filename : string) :
  let r := combine_files os_path_join env dir_name filename in
  let output_file := (filename ++ ".csv")%string in
  let csv_files := glob env (os_path_join dir_name "*.csv") in
  (exists e,
     open_write env output_file = Some e /\
     r = mkCombined None [CombineError e; CombineDone output_file]) \/
  (open_write env output_file = None /\
   exists texts,
     reads csv_files texts /\
     r = mkCombined (Some (combine_text texts)) [CombineDone output_file]) \/
  (open_write env output_file = None /\
   exists before file rest texts e,
     csv_files = before ++ file :: rest /\
     reads before texts /\
     read_text env file = inl e /\
     r = mkCombined (Some (combine_text texts))
                    [CombineError e; CombineDone output_file]).
Proof.
  cbv zeta. unfold combine_files.
  destruct (open_write env (filename ++ ".csv")) as [e|]; [left; eauto | right].
  destruct (reads_or_fails (glob env (os_path_join dir_name "*.csv")))
    as [[texts Hreads] | (before & file & rest & texts & e & Hglob & Hreads & Hfile)].
  - left. split; [reflexivity | ]. exists texts. split; [assumption | ].
    now rewrite (combine_loop_all _ texts Hreads).
  - right. split; [reflexivity | ].
    exists before, file, rest, texts, e.
    split; [assumption | ]. split; [assumption | ]. split; [assumption | ].
    rewrite Hglob.
    destruct Hreads as [|file' text files' texts' Hread Hreads].
    + cbn. now rewrite Hfile.
    + cbn [app combine_loop Nat.eqb combine_text]. rewrite Hread.
      rewrite (combine_loop_stops 0 files' texts' rest file _ e) by assumption.
      now rewrite writelines_readlines.
Qed.

End CombineFacts.

(** ** The prompts *)

Lemma say_inv {A : Type} (pre : list console_out) (m : pending -> answer A)
    (p p' : pending) (o : list console_out) (r : stop + A) :
  say pre m p = (o, r, p') ->
  exists o', m p = (o', r, p') /\ o = pre ++ o'.
Proof.
  unfold say. destruct (m p) as [[o' r'] q]. intros [= <- <- <-]. eauto.
Qed.

Lemma and_then_inv {A B : Type} (m : pending -> answer A)
    (k : A -> pending -> answer B) (p p' : pending) (o : list console_out) (b : B) :
  and_then m k p = (o, inr b, p') ->
  exists o1 a p1 o2,
    m p = (o1, inr a, p1) /\ k a p1 = (o2, inr b, p') /\ o = o1 ++ o2.
Proof.
  unfold and_then. destruct (m p) as [[o1 [s|a]] p1]; [discriminate | ].
  destruct (k a p1) as [[o2 r] p2] eqn:Hk. intros [= <- <- <-].
  exists o1, a, p1, o2. auto.
Qed.

Lemma clock_runs_weaken (lo lo' : datetime) (p : pending) :
  lo' <= lo -> clock_runs lo p -> clock_runs lo' p.
Proof.
  destruct p as [|[line now] rest]; cbn; [trivial | ]. intros Hlo (H1 & H2 & H3).
  repeat split; try assumption. lia.
Qed.

(** The clock goes on running over the lines a prompt leaves. *)
Lemma clock_runs_app (lo : datetime) (consumed p : pending) :
  clock_runs lo (consumed ++ p) -> exists lo', lo <= lo' /\ clock_runs lo' p.
Proof.
  revert lo. induction consumed as [|[line now] consumed IH]; intros lo; cbn.
  - intros H. exists lo. split; [lia | assumption].
  - intros (H1 & H2 & H3). destruct (IH now H3) as (lo' & Hlo' & Hruns).
    exists lo'. split; [lia | assumption].
Qed.

Section PromptFacts.

Variables lower strip : string -> string.
Variable strptime : string -> option datetime.

Local Abbreviation race_type_of := (fun line : string => strip (lower line)).

(** A line that [get_race_type] does not take. *)
Local Abbreviation not_a_race_type :=
  (fun l : string * datetime =>
     strip (lower (fst l)) <> "h" /\ strip (lower (fst l)) <> "g").

Lemma get_race_type_sound (p p' : pending) (o : list console_out) (r : string) :
  get_race_type lower strip p = (o, inr r, p') ->
  (r = "h" \/ r = "g") /\ exists consumed, p = consumed ++ p'.
Proof.
  revert o. induction p as [|[line now] rest IH]; intros o; cbn [get_race_type].
  - discriminate.
  - destruct (strip (lower line) =? "h")%string eqn:Hh;
      [ | destruct (strip (lower line) =? "g")%string eqn:Hg]; cbn [orb].
    + intros [= <- <- <-]. apply String.eqb_eq in Hh.
      split; [now left | now exists [(line, now)]].
    + intros [= <- <- <-]. apply String.eqb_eq in Hg.
      split; [now right | now exists [(line, now)]].
    + destruct (get_race_type lower strip rest) as [[o' r'] q] eqn:Hrest.
      intros [= <- -> ->]. destruct (IH _ eq_refl) as (Hr & consumed & ->).
      split; [assumption | now exists ((line, now) :: consumed)].
Qed.

(** X9. [get_race_type] passes over the lines that are neither [h] nor [g]
    once in lower case and stripped, with one complaint each, and returns the
    first line that is, in that form; when no line is, it ends with
    [EOFError] after the last prompt. *)
Theorem get_race_type_first_valid (skipped : pending) :
  Forall not_a_race_type skipped ->
  let complaints :=
    flat_map (fun _ => [SayRaceType; AskRaceType; SayRaceTypeInvalid]) skipped in
  get_race_type lower strip skipped
  = (complaints ++ [SayRaceType; AskRaceType], inl end_of_input, []) /\
  forall line now rest,
    strip (lower line) = "h" \/ strip (lower line) = "g" ->
    get_race_type lower strip (skipped ++ (line, now) :: rest)
    = (complaints ++ [SayRaceType; AskRaceType], inr (strip (lower line)), rest).
Proof.
  induction 1 as [|[l t] skipped [Hh Hg] _ IH]; cbn zeta in *.
  - split; [reflexivity | ]. intros line now rest Hline. cbn.
    destruct Hline as [-> | ->]; reflexivity.
  - destruct IH as [IHend IHvalid]. apply String.eqb_neq in Hh, Hg.
    cbn [fst] in Hh, Hg. cbn [get_race_type app flat_map].
    rewrite Hh, Hg. cbn [orb]. split.
    + now rewrite IHend.
    + intros line now rest Hline. now rewrite (IHvalid line now rest Hline).
Qed.

Lemma get_market_type_sound (p p' : pending) (o : list console_out) (m : string) :
  get_market_type lower strip p = (o, inr m, p') ->
  (m = "w" \/ m = "p") /\ exists consumed, p = consumed ++ p'.
Proof.
  revert o. induction p as [|[line now] rest IH]; intros o; cbn [get_market_type].
  - discriminate.
  - destruct (strip (lower line) =? "w")%string eqn:Hw;
      [ | destruct (strip (lower line) =? "p")%string eqn:Hp]; cbn [orb].
    + intros [= <- <- <-]. apply String.eqb_eq in Hw.
      split; [now left | now exists [(line, now)]].
    + intros [= <- <- <-]. apply String.eqb_eq in Hp.
      split; [now right | now exists [(line, now)]].
    + destruct (get_market_type lower strip rest) as [[o' r'] q] eqn:Hrest.
      intros [= <- -> ->]. destruct (IH _ eq_refl) as (Hr & consumed & ->).
      split; [assumption | now exists ((line, now) :: consumed)].
Qed.

Lemma ask_country_sound (p p' : pending) (o : list console_out) (c : string) :
  ask_country lower strip p = (o, inr c, p') ->
  in_countries c = true /\ exists consumed, p = consumed ++ p'.
Proof.
  revert o. induction p as [|[line now] rest IH]; intros o; cbn [ask_country].
  - discriminate.
  - destruct (in_countries (strip (lower line))) eqn:Hin.
    + intros [= <- <- <-]. split; [assumption | now exists [(line, now)]].
    + destruct (ask_country lower strip rest) as [[o' r'] q] eqn:Hrest.
      intros [= <- -> ->]. destruct (IH _ eq_refl) as (Hr & consumed & ->).
      split; [assumption | now exists ((line, now) :: consumed)].
Qed.

Lemma get_country_sound (p p' : pending) (o : list console_out) (c : string) :
  get_country lower strip p = (o, inr c, p') ->
  in_countries c = true /\ exists consumed, p = consumed ++ p'.
Proof.
  unfold get_country. intros H. apply say_inv in H as (o' & H & _).
  now apply ask_country_sound in H.
Qed.

(** X10. The country [get_country] returns is a key of [COUNTRIES_MAP], so
    [display_summary] finds its name there and [get_filename] has a file
    name for it; before asking, the prompt lists the seven countries. *)
Theorem get_country_in_table (p p' : pending) (o : list console_out) (c : string) :
  get_country lower strip p = (o, inr c, p') ->
  (exists name, lookup c COUNTRIES_MAP = Some name) /\
  falsy (Some c) = false /\
  exists o',
    o = SayCountries
          :: map (fun item => SayCountry (fst item) (snd item)) COUNTRIES_MAP
          ++ o'.
Proof.
  intros H. pose proof H as H'. apply get_country_sound in H' as [Hin _].
  unfold get_country in H. apply say_inv in H as (o' & _ & ->).
  apply in_countries_cases in Hin.
  repeat split; [ | | now exists o'];
    decompose [or] Hin; subst c; cbn; eauto.
Qed.

(** *** Dates *)

Lemma midnight_le (t : datetime) : midnight t <= t.
Proof.
  unfold midnight, time_of_day.
  pose proof (Z.mod_pos_bound t us_per_day us_per_day_pos). lia.
Qed.

Lemma midnight_yesterday (t : datetime) :
  midnight (t + -1 * us_per_day) = midnight t - us_per_day.
Proof.
  unfold midnight, time_of_day.
  rewrite Z.mod_add by (unfold us_per_day; lia). lia.
Qed.

(** A midnight that is not after [t] is not after the midnight of [t]. *)
Lemma midnight_ge (s t : datetime) :
  time_of_day s = 0 -> s <= t -> s <= midnight t.
Proof.
  unfold midnight, time_of_day. intros Hs Hle.
  pose proof us_per_day_pos as Hpos.
  pose proof (Z.div_mod s us_per_day ltac:(lia)) as Es.
  pose proof (Z.div_mod t us_per_day ltac:(lia)) as Et.
  pose proof (Z.mod_pos_bound t us_per_day Hpos) as Bt.
  assert (s / us_per_day <= t / us_per_day) by (apply Z.div_le_mono; lia).
  nia.
Qed.

Lemma get_start_date_accepts (p p' : pending) (o : list console_out)
    (start_date : datetime) :
  get_start_date strip strptime p = (o, inr start_date, p') ->
  exists skipped line now,
    p = skipped ++ (line, now) :: p' /\
    strptime (strip line) = Some start_date /\
    EARLIEST_DATE <= start_date <= now.
Proof.
  revert o. induction p as [|[line now] rest IH]; intros o;
    cbn [get_start_date]; [discriminate | ].
  intros H.
  assert (forall complaint : console_out,
    (let '(o0, r, p0) := get_start_date strip strptime rest in
     (SayStartDate EARLIEST_DATE :: AskDate :: complaint :: o0, r, p0))
    = (o, inr start_date, p') ->
    exists skipped line0 now0,
      (line, now) :: rest = skipped ++ (line0, now0) :: p' /\
      strptime (strip line0) = Some start_date /\
      EARLIEST_DATE <= start_date <= now0) as Hagain.
  { intros complaint Hrest.
    destruct (get_start_date strip strptime rest) as [[o0 r0] p0] eqn:E.
    injection Hrest as <- -> ->.
    destruct (IH _ eq_refl) as (skipped & l0 & n0 & -> & Hparse & Hb).
    exists ((line, now) :: skipped), l0, n0. repeat split; try assumption; lia. }
  destruct (strptime (strip line)) as [d|] eqn:Hparse; [ | now apply Hagain in H].
  destruct (d <? EARLIEST_DATE) eqn:Hearly; [now apply Hagain in H | ].
  destruct (d >? now) eqn:Hfuture; [now apply Hagain in H | ].
  injection H as <- <- <-.
  exists [], line, now. apply Z.ltb_ge in Hearly.
  repeat split; try assumption; lia.
Qed.

(** X11. The date [get_start_date] returns was parsed from one of the lines,
    stripped, and lies between [EARLIEST_DATE] and the reading of the clock
    for that line, both included. *)
Theorem get_start_date_bounds (p p' : pending) (o : list console_out)
    (start_date : datetime) :
  get_start_date strip strptime p = (o, inr start_date, p') ->
  exists line now,
    In (line, now) p /\
    strptime (strip line) = Some start_date /\
    EARLIEST_DATE <= start_date <= now.
Proof.
  intros H.
  destruct (get_start_date_accepts _ _ _ _ H)
    as (skipped & line & now & -> & Hparse & Hbounds).
  exists line, now. repeat split; try assumption; try lia.
  apply in_or_app. right. now left.
Qed.

Lemma get_end_date_accepts (start_date : datetime) (p p' : pending)
    (o : list console_out) (end_date : datetime) :
  get_end_date lower strip strptime start_date p = (o, inr end_date, p') ->
  exists skipped line now,
    p = skipped ++ (line, now) :: p' /\
    end_date <= now /\
    ((strptime (lower (strip line)) = Some end_date /\ start_date <= end_date)
     \/ ((lower (strip line) = "today" \/ lower (strip line) = "now")
         /\ end_date = midnight now)
     \/ (lower (strip line) = "yesterday"
         /\ end_date = midnight now - us_per_day)).
Proof.
  revert o. induction p as [|[line now] rest IH]; intros o;
    cbn [get_end_date]; [discriminate | ].
  intros H.
  assert (forall complaint : console_out,
    (let '(o0, r, p0) := get_end_date lower strip strptime start_date rest in
     (end_date_menu ++ complaint :: o0, r, p0))
    = (o, inr end_date, p') ->
    exists skipped line0 now0,
      (line, now) :: rest = skipped ++ (line0, now0) :: p' /\
      end_date <= now0 /\
      ((strptime (lower (strip line0)) = Some end_date /\ start_date <= end_date)
       \/ ((lower (strip line0) = "today" \/ lower (strip line0) = "now")
           /\ end_date = midnight now0)
       \/ (lower (strip line0) = "yesterday"
           /\ end_date = midnight now0 - us_per_day))) as Hagain.
  { intros complaint Hrest.
    destruct (get_end_date lower strip strptime start_date rest)
      as [[o0 r0] p0] eqn:E.
    injection Hrest as <- -> ->.
    destruct (IH _ eq_refl) as (skipped & l0 & n0 & -> & Hle & Hcase).
    exists ((line, now) :: skipped), l0, n0. repeat split; assumption. }
  pose proof (midnight_le now) as Hmid.
  destruct (lower (strip line) =? "today")%string eqn:Htoday.
  { injection H as <- <- <-. apply String.eqb_eq in Htoday.
    exists [], line, now.
    split; [reflexivity | ]. split; [lia | ]. right; left. auto. }
  destruct (lower (strip line) =? "yesterday")%string eqn:Hyesterday.
  { unfold add_days in H.
    destruct (representableb (now + -1 * us_per_day)); [ | discriminate H].
    injection H as <- <- <-. apply String.eqb_eq in Hyesterday.
    exists [], line, now.
    rewrite midnight_yesterday. pose proof us_per_day_pos.
    split; [reflexivity | ]. split; [lia | ]. right; right. auto. }
  destruct (lower (strip line) =? "now")%string eqn:Hnow.
  { injection H as <- <- <-. apply String.eqb_eq in Hnow.
    exists [], line, now.
    split; [reflexivity | ]. split; [lia | ]. right; left. auto. }
  destruct (strptime (lower (strip line))) as [d|] eqn:Hparse;
    [ | now apply Hagain in H].
  destruct (d >? now) eqn:Hfuture; [now apply Hagain in H | ].
  destruct (d <? start_date) eqn:Hbefore; [now apply Hagain in H | ].
  injection H as <- <- <-. apply Z.ltb_ge in Hbefore.
  exists [], line, now.
  split; [reflexivity | ]. split; [lia | ]. left. now split.
Qed.

(** X12. The date [get_end_date] returns is never after the reading of the
    clock for the line it took; it is either a date parsed from that line,
    stripped and in lower case, and then not before [start_date], or the
    midnight of today for [today] and [now], or the midnight of the day
    before for [yesterday]. *)
Theorem get_end_date_bounds (start_date : datetime) (p p' : pending)
    (o : list console_out) (end_date : datetime) :
  get_end_date lower strip strptime start_date p = (o, inr end_date, p') ->
  exists line now,
    In (line, now) p /\
    end_date <= now /\
    ((strptime (lower (strip line)) = Some end_date /\ start_date <= end_date)
     \/ ((lower (strip line) = "today" \/ lower (strip line) = "now")
         /\ end_date = midnight now)
     \/ (lower (strip line) = "yesterday"
         /\ end_date = midnight now - us_per_day)).
Proof.
  intros H.
  destruct (get_end_date_accepts _ _ _ _ _ H)
    as (skipped & line & now & -> & Hle & Hcase).
  exists line, now. repeat split; try assumption.
  apply in_or_app. right. now left.
Qed.

(** X13. The answer [yesterday] is not checked against [start_date]: when
    the start date is today, or later, the end date returned is before it. *)
Theorem get_end_date_yesterday (start_date : datetime) (line : string)
    (now : datetime) (rest : pending) :
  lower (strip line) = "yesterday" ->
  representable (now - us_per_day) ->
  get_end_date lower strip strptime start_date ((line, now) :: rest)
  = (end_date_menu, inr (midnight now - us_per_day), rest) /\
  (midnight now <= start_date -> midnight now - us_per_day < start_date).
Proof.
  intros Hline Hnow. cbn [get_end_date]. rewrite Hline.
  cbn [String.eqb Ascii.eqb Bool.eqb]. unfold add_days.
  replace (now + -1 * us_per_day) with (now - us_per_day) by lia.
  apply representableb_spec in Hnow as Hb. rewrite Hb.
  replace (now - us_per_day) with (now + -1 * us_per_day) by lia.
  rewrite midnight_yesterday. split; [reflexivity | ].
  pose proof us_per_day_pos. lia.
Qed.

(** *** The summary *)

Local Abbreviation unrecognised :=
  (fun l : string * datetime =>
     let confirm := strip (lower (fst l)) in
     confirm <> "y" /\ confirm <> "yes" /\ confirm <> "n" /\ confirm <> "no").

Lemma ask_proceed_skips (skipped rest : pending) :
  Forall unrecognised skipped ->
  ask_proceed lower strip (skipped ++ rest)
  = (let '(o, r, p') := ask_proceed lower strip rest in
     (flat_map (fun _ => [AskProceed; SayYesOrNo]) skipped ++ o, r, p')).
Proof.
  induction 1 as [|[l t] skipped (Hy & Hyes & Hn & Hno) _ IH].
  - cbn. now destruct (ask_proceed lower strip rest) as [[o r] q].
  - cbn [app ask_proceed flat_map]. cbn [fst] in *.
    apply String.eqb_neq in Hy, Hyes, Hn, Hno. rewrite Hy, Hyes, Hn, Hno.
    cbn [orb]. rewrite IH.
    now destruct (ask_proceed lower strip rest) as [[o r] q].
Qed.

Lemma ask_proceed_sound (p p' : pending) (o : list console_out) :
  ask_proceed lower strip p = (o, inr tt, p') ->
  exists consumed, p = consumed ++ p'.
Proof.
  revert o. induction p as [|[line now] rest IH]; intros o; cbn [ask_proceed];
    [discriminate | ].
  destruct ((strip (lower line) =? "y")%string || (strip (lower line) =? "yes")%string).
  - intros [= <- <-]. now exists [(line, now)].
  - destruct ((strip (lower line) =? "n")%string
              || (strip (lower line) =? "no")%string); [discriminate | ].
    destruct (ask_proceed lower strip rest) as [[o' r'] q] eqn:Hrest.
    intros [= <- -> ->]. destruct (IH _ eq_refl) as (consumed & ->).
    now exists ((line, now) :: consumed).
Qed.

(** X14. Answering [n] or [no] to the summary, after any number of
    unrecognised answers, ends the program with [exit(0)] once the
    cancellation is printed; the summary shows
    [(end_date - start_date).days + 1] as the number of days. *)
Theorem display_summary_declined (country : option string)
    (race_type market : string) (start_date end_date : datetime)
    (combine : bool) (country_name : string)
    (skipped : pending) (line : string) (now : datetime) (rest : pending) :
  (if falsy country then Some "All Countries"
   else lookup (country_text country) COUNTRIES_MAP) = Some country_name ->
  Forall unrecognised skipped ->
  strip (lower line) = "n" \/ strip (lower line) = "no" ->
  display_summary lower strip country race_type market start_date end_date
    combine (skipped ++ (line, now) :: rest)
  = ([SayRule true 50; SaySummaryTitle; SayRule false 50;
      SaySummaryCountry country_name;
      SaySummaryRace (if (race_type =? "h")%string then "Horse Racing"
                      else "Greyhound Racing");
      SaySummaryMarket (if (market =? "w")%string then "Win Market"
                        else "Place Market");
      SaySummaryDates start_date end_date;
      SaySummaryDays (days_between end_date start_date + 1);
      SaySummaryCombine combine;
      SayRule false 50]
       ++ flat_map (fun _ => [AskProceed; SayYesOrNo]) skipped
       ++ [AskProceed; SayCancelled],
     inl (Exited 0), rest).
Proof.
  intros Hname Hskipped Hline. unfold display_summary, say.
  rewrite Hname, (ask_proceed_skips skipped _ Hskipped).
  cbn [ask_proceed]. destruct Hline as [-> | ->]; reflexivity.
Qed.

(** X15. For a country that is not empty and not in [COUNTRIES_MAP],
    [display_summary] raises [KeyError] after the title, before it shows the
    selection or asks anything. *)
Theorem display_summary_unknown_country (country : string)
    (race_type market : string) (start_date end_date : datetime)
    (combine : bool) (p : pending) :
  country <> "" ->
  in_countries country = false ->
  display_summary lower strip (Some country) race_type market start_date
    end_date combine p
  = ([SayRule true 50; SaySummaryTitle; SayRule false 50],
     inl (Raised (OtherError "KeyError")), p).
Proof.
  intros Hempty Hout. unfold display_summary, say. cbn [falsy country_text].
  apply String.eqb_neq in Hempty. rewrite Hempty.
  unfold in_countries in Hout. cbn [COUNTRIES_MAP map fst existsb] in Hout.
  repeat (apply orb_false_elim in Hout as [? Hout]).
  cbn [lookup COUNTRIES_MAP].
  repeat match goal with H : (country =? _)%string = false |- _ =>
    rewrite H; clear H end.
  reflexivity.
Qed.

(** *** The whole dialogue *)

Lemma get_combine_confirmation_sound (p p' : pending) (o : list console_out)
    (combine : bool) :
  get_combine_confirmation p = (o, inr combine, p') ->
  exists consumed, p = consumed ++ p'.
Proof.
  revert o. induction p as [|[line now] rest IH]; intros o;
    cbn [get_combine_confirmation]; [discriminate | ].
  destruct ((line =? "y")%string || (line =? "yes")%string).
  - intros [= <- <- <-]. now exists [(line, now)].
  - destruct ((line =? "n")%string || (line =? "no")%string).
    + intros [= <- <- <-]. now exists [(line, now)].
    + destruct (get_combine_confirmation rest) as [[o' r'] q] eqn:Hrest.
      intros [= <- -> ->]. destruct (IH _ eq_refl) as (consumed & ->).
      now exists ((line, now) :: consumed).
Qed.

Lemma clock_runs_split (lo : datetime) (skipped : pending) (line : string)
    (now : datetime) (rest : pending) :
  clock_runs lo (skipped ++ (line, now) :: rest) ->
  lo <= now < last_day /\ clock_runs now rest.
Proof.
  intros H. apply clock_runs_app in H as (lo' & Hlo & H).
  cbn in H. destruct H as (H1 & H2 & H3). repeat split; try assumption; lia.
Qed.

Lemma display_summary_says_days (country : option string)
    (race_type market : string) (start_date end_date : datetime)
    (combine : bool) (p p' : pending) (o : list console_out) :
  display_summary lower strip country race_type market start_date end_date
    combine p = (o, inr tt, p') ->
  In (SaySummaryDays (days_between end_date start_date + 1)) o.
Proof.
  unfold display_summary. intros H. apply say_inv in H as (o' & H & ->).
  destruct (if falsy country then Some "All Countries"
            else lookup (country_text country) COUNTRIES_MAP);
    [ | discriminate H].
  apply say_inv in H as (o'' & _ & ->).
  apply in_or_app. right. apply in_or_app. left. cbn. tauto.
Qed.

(** What [user_input_loop] hands over: a selection the prompts let through,
    its number of days in the summary, and dates that the clock bounds. *)
Lemma user_input_loop_sound (lo : datetime) (p p' : pending)
    (o : list console_out) (sel : selection) :
  user_input_loop lower strip strptime p = (o, inr sel, p') ->
  validated (sel_country sel) (sel_race_type sel) (sel_market sel) /\
  EARLIEST_DATE <= sel_start_date sel /\
  In (SaySummaryDays
        (days_between (sel_end_date sel) (sel_start_date sel) + 1)) o /\
  (clock_runs lo p ->
   (forall s d, strptime s = Some d -> time_of_day d = 0) ->
   sel_end_date sel < last_day /\
   sel_start_date sel - us_per_day <= sel_end_date sel).
Proof.
  unfold user_input_loop. intros H.
  apply say_inv in H as (o0 & H & ->).
  apply and_then_inv in H as (o1 & race_type & p1 & o1' & Hrace & H & ->).
  apply and_then_inv in H as (o2 & market & p2 & o2' & Hmarket & H & ->).
  apply and_then_inv in H as (o3 & country & p3 & o3' & Hcountry & H & ->).
  apply and_then_inv in H as (o4 & start_date & p4 & o4' & Hstart & H & ->).
  apply and_then_inv in H as (o5 & end_date & p5 & o5' & Hend & H & ->).
  apply and_then_inv in H as (o6 & combine & p6 & o6' & Hcombine & H & ->).
  apply and_then_inv in H as (o7 & [] & p7 & o7' & Hsummary & H & ->).
  unfold returns in H. injection H as <- <- <-. cbn [sel_country sel_race_type
    sel_market sel_start_date sel_end_date].
  apply get_race_type_sound in Hrace as (Hrace & c1 & ->).
  apply get_market_type_sound in Hmarket as (Hmarket & c2 & ->).
  assert (((race_type = "h" /\ exists c, country = Some c /\ in_countries c = true)
           \/ (race_type = "g" /\ country = None))
          /\ exists c3, p2 = c3 ++ p3) as (Hsel & c3 & ->).
  { destruct Hrace as [-> | ->]; cbn [String.eqb Ascii.eqb Bool.eqb] in Hcountry.
    - apply and_then_inv in Hcountry as (oc & c & pc & oc' & Hc & Hret & _).
      unfold returns in Hret. injection Hret as _ <- <-.
      apply get_country_sound in Hc as (Hin & c3 & ->).
      split; [left; eauto | eauto].
    - unfold returns in Hcountry. injection Hcountry as <- <- <-.
      split; [now right | now exists []]. }
  apply get_start_date_accepts in Hstart
    as (skipped & line & now & -> & Hparse & Hbounds).
  apply get_end_date_accepts in Hend
    as (skipped' & line' & now' & -> & Hle & Hcase).
  apply display_summary_says_days in Hsummary.
  split; [now split | ]. split; [lia | ]. split.
  - rewrite !in_app_iff. tauto.
  - intros Hruns Hmidnight.
    apply clock_runs_app in Hruns as (lo1 & _ & Hruns).
    apply clock_runs_app in Hruns as (lo2 & _ & Hruns).
    apply clock_runs_app in Hruns as (lo3 & _ & Hruns).
    apply clock_runs_split in Hruns as (Hnow & Hruns).
    apply clock_runs_split in Hruns as (Hnow' & _).
    split; [lia | ].
    pose proof us_per_day_pos.
    destruct Hcase as [[_ Hafter] | [[_ ->] | [_ ->]]]; [lia | | ];
      pose proof (midnight_ge start_date now' (Hmidnight _ _ Hparse) ltac:(lia));
      lia.
Qed.

(** X16. What [user_input_loop] returns is a selection the prompts let
    through: horse racing with a country of the table or greyhound racing
    without a country, and a market of the two; its start date is not before
    [EARLIEST_DATE]; [get_filename] has a file name for it; and the summary
    showed [(end_date - start_date).days + 1] as its number of days. *)
Theorem user_input_loop_validated (p p' : pending) (o : list console_out)
    (sel : selection) :
  user_input_loop lower strip strptime p = (o, inr sel, p') ->
  validated (sel_country sel) (sel_race_type sel) (sel_market sel) /\
  names_a_file (sel_race_type sel) (sel_market sel) (sel_country sel) = true /\
  EARLIEST_DATE <= sel_start_date sel /\
  In (SaySummaryDays
        (days_between (sel_end_date sel) (sel_start_date sel) + 1)) o.
Proof.
  intros H. destruct (user_input_loop_sound 0 _ _ _ _ H) as (Hsel & Hstart & Hdays & _).
  split; [assumption | ]. split; [now apply validated_names_a_file | ].
  now split.
Qed.

End PromptFacts.

(** ** The program *)

Section MainFacts.

Variables lower strip : string -> string.
Variable strptime : string -> option datetime.
Variable strftime_dmY : datetime -> string.
Variable isoformat : Z -> string.
Variable path_join : string -> string -> string.
Variable float_of_string : string -> option pyfloat.
Variable os_path_join : string -> string -> string.

Local Abbreviation run_main :=
  (main lower strip strptime strftime_dmY isoformat path_join float_of_string
     os_path_join).

(** X17. When the dates that [strptime] parses are midnights, the clock
    goes forward and stays before 9999-12-31, the dialogue returns a
    selection and the directory can be made, [main] plans without an
    overflow and starts the downloads: as many as the number of days the
    summary showed, each with a file name. When every download ends, the
    summary of the downloads is printed, with one result each, [main]
    returns, and it combines the files exactly when that was asked for; when
    a download never ends, neither does [main], and nothing is combined. *)
Theorem main_downloads_what_it_displays (env : main_env)
    (o : list console_out) (sel : selection) (p' : pending) :
  (forall s d, strptime s = Some d -> time_of_day d = 0) ->
  clock_runs 0 (stdin env) ->
  user_input_loop lower strip strptime (stdin env) = (o, inr sel, p') ->
  mkdir env (create_directory_name isoformat (sel_country sel)
               (sel_race_type sel) (sel_market sel) (sel_start_date sel)
               (sel_end_date sel)) = None ->
  exists filenames b,
    planned_files (run_main env) = Some filenames /\
    downloads (run_main env) = Some b /\
    In (SaySummaryDays (Z.of_nat (List.length filenames))) (terminal (run_main env)) /\
    List.length (tasks b) = List.length filenames /\
    Forall (fun e => fst e <> None) filenames /\
    ((forall m, In m (tasks b) -> ends m) ->
     exists s,
       gathered b = Some s /\
       ended (run_main env) = Returned /\
       printed b = [MsgStarting (Z.of_nat (List.length filenames));
                    MsgSummary (successful s) (failed s)] /\
       List.length (results s) = List.length filenames /\
       (combination (run_main env) <> None <-> sel_combine sel = true)) /\
    ((exists m, In m (tasks b) /\ result_of m = inl Hangs) ->
     ended (run_main env) = NeverReturns /\
     printed b = [MsgStarting (Z.of_nat (List.length filenames))] /\
     combination (run_main env) = None).
Proof.
  intros Hmidnight Hclock Hloop Hmkdir.
  destruct (user_input_loop_sound lower strip strptime 0 _ _ _ _ Hloop)
    as (Hsel & Hstart & Hdays & Hdates).
  destruct (Hdates Hclock Hmidnight) as [Hend Hspan].
  set (start_date := sel_start_date sel) in *.
  set (end_date := sel_end_date sel) in *.
  assert (0 <= start_date) as Hpos by (unfold EARLIEST_DATE, us_per_day in *; lia).
  assert (representable start_date) as Hrep.
  { split; [assumption | ]. pose proof us_per_day_pos.
    unfold last_day, max_ordinal in *. lia. }
  assert (-1 <= days_between end_date start_date) as Hn.
  { unfold days_between. apply Z.div_le_lower_bound; [apply us_per_day_pos | lia]. }
  set (n := Z.to_nat (days_between end_date start_date + 1)).
  assert (generate_all_filenames strftime_dmY (sel_country sel) (sel_race_type sel)
            (sel_market sel) start_date end_date
          = inr (planned strftime_dmY (sel_country sel) (sel_race_type sel)
                   (sel_market sel) start_date n)) as Hplan.
  { unfold generate_all_filenames.
    rewrite filenames_loop_planned; [reflexivity | assumption | ].
    intros Hle. now apply next_day_representable. }
  assert (Z.of_nat n = days_between end_date start_date + 1) as Hlen
    by (subst n; lia).
  unfold main. rewrite Hloop.
  fold start_date end_date. rewrite Hmkdir, Hplan. cbv zeta.
  set (filenames := planned strftime_dmY (sel_country sel) (sel_race_type sel)
                      (sel_market sel) start_date n).
  set (dir_name := create_directory_name isoformat (sel_country sel)
                     (sel_race_type sel) (sel_market sel) start_date end_date).
  set (b := download_all_files path_join float_of_string (network env)
              filenames dir_name).
  assert (List.length filenames = n) as Hfiles by apply planned_length.
  pose proof (gathered_iff path_join float_of_string (network env)
                filenames dir_name) as [Hnone Hfirst].
  fold b in Hnone, Hfirst.
  exists filenames, b.
  assert (Forall (fun e => fst e <> None) filenames) as Hnamed.
  { apply validated_names_a_file in Hsel.
    destruct (get_filename_stem strftime_dmY _ _ _ Hsel) as [stem Hstem].
    subst filenames. unfold planned. apply Forall_map, Forall_forall. intros k _.
    cbn [fst]. rewrite Hstem. discriminate. }
  assert (List.length (tasks b) = List.length filenames) as Htasks
    by (subst b; now rewrite tasks_spawn, spawn_length).
  destruct (gathered b) as [s|] eqn:Hs;
    cbn [planned_files downloads ended terminal combination].
  - split; [reflexivity | ]. split; [reflexivity | ].
    split; [now rewrite Hfiles, Hlen | ].
    split; [exact Htasks | ]. split; [exact Hnamed | ].
    destruct (gathered_summary path_join float_of_string (network env)
                filenames dir_name s Hs)
      as (_ & Hresults & _ & _ & _ & Hprinted).
    split.
    + intros _. exists s. split; [reflexivity | ]. split; [reflexivity | ].
      split; [exact Hprinted | ]. split; [exact Hresults | ].
      destruct (sel_combine sel); split; congruence.
    + intros Hhangs. apply Hnone in Hhangs. discriminate Hhangs.
  - split; [reflexivity | ]. split; [reflexivity | ].
    split; [now rewrite Hfiles, Hlen | ].
    split; [exact Htasks | ]. split; [exact Hnamed | ].
    split.
    + intros Hends. destruct Hnone as [Hnone _].
      destruct (Hnone eq_refl) as (m & Hin & Hm). now destruct (Hends m Hin).
    + intros _. split; [reflexivity | ]. split; [now apply Hfirst | reflexivity].
Qed.

End MainFacts.

(** ** The prompts, continued *)

Section PromptsMore.

Variables lower strip : string -> string.

(** X18. [get_market_type] passes over the lines that are neither [w] nor
    [p] once in lower case and stripped, with one complaint each, and returns
    the first line that is, in that form; when no line is, it ends with
    [EOFError] after the last prompt. *)
Theorem get_market_type_first_valid (skipped : pending) :
  Forall (fun l => strip (lower (fst l)) <> "w" /\ strip (lower (fst l)) <> "p")
         skipped ->
  let complaints :=
    flat_map (fun _ => [SayMarketType; AskMarketType; SayMarketInvalid]) skipped in
  get_market_type lower strip skipped
  = (complaints ++ [SayMarketType; AskMarketType], inl end_of_input, []) /\
  forall line now rest,
    strip (lower line) = "w" \/ strip (lower line) = "p" ->
    get_market_type lower strip (skipped ++ (line, now) :: rest)
    = (complaints ++ [SayMarketType; AskMarketType], inr (strip (lower line)), rest).
Proof.
  induction 1 as [|[l t] skipped [Hw Hp] _ IH]; cbn zeta in *.
  - split; [reflexivity | ]. intros line now rest Hline. cbn.
    destruct Hline as [-> | ->]; reflexivity.
  - destruct IH as [IHend IHvalid]. apply String.eqb_neq in Hw, Hp.
    cbn [fst] in Hw, Hp. cbn [get_market_type app flat_map].
    rewrite Hw, Hp. cbn [orb]. split.
    + now rewrite IHend.
    + intros line now rest Hline. now rewrite (IHvalid line now rest Hline).
Qed.

End PromptsMore.

(** X19. [get_combine_confirmation] takes its answer as typed, unlike the
    other prompts: only the lines [y], [yes], [n] and [no], letter for
    letter, are answers; every other line, such as [Y] or a [yes] with a
    space before it, gets the complaint and the question again. The answer is
    [True] for [y] and [yes], [False] for [n] and [no]. *)
Theorem get_combine_confirmation_as_typed (skipped : pending) (line : string)
    (now : datetime) (rest : pending) :
  Forall (fun l => ~ In (fst l) ["y"; "yes"; "n"; "no"]) skipped ->
  In line ["y"; "yes"; "n"; "no"] ->
  get_combine_confirmation (skipped ++ (line, now) :: rest)
  = (flat_map (fun _ => [AskCombine; SayYesOrNo]) skipped ++ [AskCombine],
     inr ((line =? "y") || (line =? "yes"))%string, rest).
Proof.
  intros Hskipped Hline. induction Hskipped as [|[l t] skipped Hl _ IH].
  - cbn in Hline. cbn [app flat_map get_combine_confirmation].
    destruct Hline as [<- | [<- | [<- | [<- | []]]]]; reflexivity.
  - cbn [app flat_map get_combine_confirmation]. rewrite IH.
    cbn [fst In] in Hl.
    destruct (l =? "y")%string eqn:E1;
      [apply String.eqb_eq in E1; symmetry in E1; tauto | ].
    destruct (l =? "yes")%string eqn:E2;
      [apply String.eqb_eq in E2; symmetry in E2; tauto | ].
    destruct (l =? "n")%string eqn:E3;
      [apply String.eqb_eq in E3; symmetry in E3; tauto | ].
    destruct (l =? "no")%string eqn:E4;
      [apply String.eqb_eq in E4; symmetry in E4; tauto | ].
    reflexivity.
Qed.

(** ** The retry loop, continued *)

Section EngineMore.

Variable float_of_string : string -> option pyfloat.
Variables (filename : string) (date : datetime) (save_path url : string).

Local Abbreviation turn := (attempt_turn float_of_string filename date save_path url).
Local Abbreviation loop := (for_attempts float_of_string filename date save_path url).

Ltac open_turn :=
  unfold attempt_turn, attempt_body, handlers, with_response,
    response_read, write_file, float, headers_get_retry_after,
    print, sleep, before_get in *.

Ltac run_turn :=
  cbn [bind ret raise emit ensure try_except trace_of result_of fst snd app] in *.

Ltac each_float w x :=
  destruct x as [[q|[| |]]|]; [ | | | destruct (sleep_nan w) | ].

Ltac each_turn k w :=
  open_turn;
  destruct (k >? 0), (k <? max_retries) eqn:?;
  (destruct (get w) as [e|resp];
   [ destruct e
   | destruct (status resp =? 200);
     [ destruct (read resp) as [e|content];
       [ destruct e | destruct (disk w) as [e|]; [destruct e | ] ]
     | destruct (status resp =? 429);
       [ destruct (retry_after resp) as [v|];
         [ each_float w (float_of_string v)
         | each_float w (float_of_string "5") ]
       | ] ] ]);
  run_turn.

Lemma turn_network_error (k : Z) (w : attempt_env) (text : string) :
  fails_with w (ClientError text) ->
  turn k w =
  if k <? max_retries then
    (before_get date k ++ [Get url; ConnRelease; Print (MsgNetworkRetry date)],
     inr Continue)
  else
    (before_get date k
       ++ [Get url; ConnRelease; Print (MsgNetworkError date text)],
     inr (Return false)).
Proof.
  intros [Hget | (resp & Hget & H200 & Hread)]; open_turn;
    rewrite Hget; try rewrite H200, Hread;
    destruct (k >? 0), (k <? max_retries); reflexivity.
Qed.

Lemma turn_other_error (k : Z) (w : attempt_env) (e : exn) :
  fails_with w e ->
  (exists text, e = IOError text) \/ (exists name, e = OtherError name) ->
  turn k w =
  (before_get date k
     ++ [Get url; ConnRelease;
         Print (match e with
                | IOError text => MsgFileError date text
                | _ => MsgUnexpected date e
                end)],
   inr (Return false)).
Proof.
  intros [Hget | (resp & Hget & H200 & Hread)] [[text ->] | [name ->]];
    open_turn; rewrite Hget; try rewrite H200, Hread;
    destruct (k >? 0); reflexivity.
Qed.

(** A turn writes the file it was asked for when it returns [True], and
    nothing otherwise, also when it never ends. *)
Lemma writes_turn (k : Z) (w : attempt_env) :
  match result_of (turn k w) with
  | inr (Return true) => exists content, writes (trace_of (turn k w)) = [(save_path, content)]
  | _ => writes (trace_of (turn k w)) = []
  end.
Proof. each_turn k w; cbn [writes]; eauto. Qed.



Lemma for_attempts_writes (world : Z -> attempt_env) (attempts : list Z) :
  match result_of (loop world attempts) with
  | inr true => exists content,
      writes (trace_of (loop world attempts)) = [(save_path, content)]
  | _ => writes (trace_of (loop world attempts)) = []
  end.
Proof.
  induction attempts as [|k attempts IH]; [reflexivity | ].
  rewrite for_attempts_cons.
  pose proof (writes_turn k (world k)) as W.
  destruct (result_of (turn k (world k))) as [h|[|[|]]];
    cbn [trace_of result_of fst snd]; try assumption.
  rewrite writes_app, W. exact IH.
Qed.

End EngineMore.

Section RunMore.

Variable path_join : string -> string -> string.
Variable float_of_string : string -> option pyfloat.
Variables (world : Z -> attempt_env) (filename : string) (date : datetime)
  (save_dir : string).

Local Abbreviation save_path := (path_join save_dir filename).
Local Abbreviation url := (BASE_URL ++ filename)%string.
Local Abbreviation run :=
  (download_file_async path_join float_of_string world (Some filename) date save_dir).

(** X20. When every attempt fails with a network error, the task makes four
    requests, sleeping 1, 2 and 4 seconds before the second, third and
    fourth, and returns [False] after the line that reports the error of the
    last attempt. *)
Theorem network_errors_exhaust_retries (text : Z -> string) :
  (forall j, 0 <= j <= max_retries -> fails_with (world j) (ClientError (text j))) ->
  result_of run = inr false /\
  gets (trace_of run) = [url; url; url; url] /\
  waits (trace_of run) = [[(1 # 10)%Q]; [1%Q]; [2%Q]; [4%Q]; []] /\
  prints (trace_of run) =
    [MsgNetworkRetry date; MsgRetry date 1 1;
     MsgNetworkRetry date; MsgRetry date 2 2;
     MsgNetworkRetry date; MsgRetry date 3 4;
     MsgNetworkError date (text 3)].
Proof.
  intros Hfails. rewrite download_file_async_loop.
  change (range (max_retries + 1)) with [0; 1; 2; 3].
  rewrite !for_attempts_cons.
  rewrite (turn_network_error float_of_string filename date save_path url
             0 (world 0) (text 0)) by (apply Hfails; unfold max_retries; lia).
  rewrite (turn_network_error float_of_string filename date save_path url
             1 (world 1) (text 1)) by (apply Hfails; unfold max_retries; lia).
  rewrite (turn_network_error float_of_string filename date save_path url
             2 (world 2) (text 2)) by (apply Hfails; unfold max_retries; lia).
  rewrite (turn_network_error float_of_string filename date save_path url
             3 (world 3) (text 3)) by (apply Hfails; unfold max_retries; lia).
  repeat split.
Qed.

(** X21. An exception of the request that is neither a timeout nor a client
    error, at whichever attempt it comes, ends the task at once: as a file
    error when its class is the one of [except IOError], as an unexpected
    error otherwise. *)
Theorem other_errors_fail_without_retry (k : Z) (e : exn) :
  0 <= k <= max_retries ->
  reaches float_of_string filename date save_path url world k ->
  fails_with (world k) e ->
  (exists text, e = IOError text) \/ (exists name, e = OtherError name) ->
  result_of run = inr false /\
  trace_of run =
    SemAcquire :: turns_before float_of_string filename date save_path url world k
      ++ before_get date k
      ++ [Get url; ConnRelease;
          Print (match e with
                 | IOError text => MsgFileError date text
                 | _ => MsgUnexpected date e
                 end);
          SemRelease] /\
  writes (trace_of run) = [].
Proof.
  intros Hk Hreach Hfails Hclass.
  pose proof (turn_other_error float_of_string filename date save_path url
                k (world k) e Hfails Hclass) as Hturn.
  rewrite (download_file_async_stops path_join float_of_string world filename
             date save_dir k false Hk Hreach) by (now rewrite Hturn).
  rewrite Hturn. cbn [trace_of result_of fst snd].
  split; [reflexivity | ]. split; [now rewrite <- !app_assoc | ].
  cbn [writes]. rewrite !writes_app, writes_before_get.
  now rewrite (writes_turns_before float_of_string filename date save_path url
                 world k Hreach).
Qed.


Lemma download_file_async_writes_cases :
  match result_of run with
  | inr true => exists content, writes (trace_of run) = [(save_path, content)]
  | _ => writes (trace_of run) = []
  end.
Proof.
  rewrite download_file_async_loop.
  pose proof (for_attempts_writes float_of_string filename date save_path url
                world (range (max_retries + 1))) as W.
  destruct (result_of (for_attempts _ _ _ _ _ _ _)) as [[e|]|[|]];
    cbn [trace_of result_of fst snd writes]; rewrite ?writes_app;
    cbn [writes]; rewrite ?app_nil_r; exact W.
Qed.

(** X23. A task that returns [True] has written one file through,
    [save_dir/filename], and nothing else; a task that ends otherwise, or
    never ends, has written no file through. *)
Theorem download_file_async_writes :
  (result_of run = inr true ->
   exists content, writes (trace_of run) = [(save_path, content)]) /\
  (result_of run <> inr true -> writes (trace_of run) = []).
Proof.
  pose proof download_file_async_writes_cases as W.
  destruct (result_of run) as [h|[|]];
    split; intros H; try assumption; try discriminate H; congruence.
Qed.

End RunMore.

(** ** The batch, continued *)

Lemma count_map {A B : Type} (p : B -> bool) (f : A -> B) (l : list A) :
  count p (map f l) = count (fun x => p (f x)) l.
Proof.
  induction l as [|x l IH]; [reflexivity | ].
  cbn [map]. now rewrite !count_cons, IH.
Qed.

Section BatchMore.

Variable path_join : string -> string -> string.
Variable float_of_string : string -> option pyfloat.

Local Abbreviation batch_of := (download_all_files path_join float_of_string).
Local Abbreviation task := (download_file_async path_join float_of_string).
Local Abbreviation returned_true :=
  (fun m : M bool => match result_of m with inr true => true | _ => false end).

Lemma task_writes (world : Z -> attempt_env) (filename : option string)
    (date : datetime) (save_dir : string) :
  match result_of (task world filename date save_dir), filename with
  | inr true, Some f =>
      exists content,
        writes (trace_of (task world filename date save_dir))
        = [(path_join save_dir f, content)]
  | inr true, None => False
  | _, _ => writes (trace_of (task world filename date save_dir)) = []
  end.
Proof.
  destruct filename as [f|]; [ | reflexivity].
  pose proof (download_file_async_writes_cases path_join float_of_string world
                f date save_dir) as W.
  destruct (result_of _) as [h|[|]]; assumption.
Qed.

Lemma spawn_writes (world : nat -> Z -> attempt_env)
    (urls : list (option string * datetime)) (save_dir : string) (i : nat) :
  let l := spawn path_join float_of_string world i urls save_dir in
  count returned_true l
  = Z.of_nat (List.length (List.concat (map (fun m => writes (trace_of m)) l)))
  /\ Forall (fun w => exists f d, In (Some f, d) urls /\ fst w = path_join save_dir f)
       (List.concat (map (fun m => writes (trace_of m)) l)).
Proof.
  cbv zeta. revert i. induction urls as [|[f d] urls IH]; intros i.
  - split; [reflexivity | constructor].
  - destruct (IH (S i)) as [IHn IHf]. cbn [spawn map List.concat].
    rewrite count_cons, length_app, IHn.
    pose proof (task_writes (world i) f d save_dir) as W.
    assert (Forall (fun w => exists f' d', In (Some f', d') ((f, d) :: urls)
                             /\ fst w = path_join save_dir f')
              (List.concat (map (fun m => writes (trace_of m))
                 (spawn path_join float_of_string world (S i) urls save_dir))))
      as IHf'.
    { eapply Forall_impl; [ | exact IHf].
      intros w (f' & d' & Hin & Hw). exists f', d'. split; [now right | assumption]. }
    destruct (result_of (download_file_async _ _ _ _ _ _)) as [h|[|]].
    + rewrite W. cbn [List.length app]. split; [lia | assumption].
    + destruct f as [f|]; [ | contradiction]. destruct W as [content ->].
      cbn [List.length app]. split; [lia | ].
      constructor; [ | assumption]. exists f, d. split; [now left | reflexivity].
    + rewrite W. cbn [List.length app]. split; [lia | assumption].
Qed.

(** X24. The number of tasks that return [True] is the number of files the
    tasks wrote through, and every such file is [save_dir/filename] for a
    file name of [urls]; so, when [gather] returns, the [Successful] figure
    of the summary is the number of files written: nothing is counted that
    was not written, and nothing is written elsewhere. *)
Theorem successful_counts_the_files (world : nat -> Z -> attempt_env)
    (urls : list (option string * datetime)) (save_dir : string) :
  let b := batch_of world urls save_dir in
  count (fun m => match result_of m with inr true => true | _ => false end)
        (tasks b)
  = Z.of_nat (List.length (files_written b)) /\
  (forall s, gathered b = Some s ->
     successful s = Z.of_nat (List.length (files_written b))) /\
  Forall (fun w => exists f d, In (Some f, d) urls /\ fst w = path_join save_dir f)
         (files_written b).
Proof.
  cbv zeta. unfold files_written. rewrite tasks_spawn.
  destruct (spawn_writes world urls save_dir 0) as [Hcount Hfiles].
  cbv zeta in Hcount, Hfiles.
  split; [exact Hcount | ]. split; [ | exact Hfiles].
  intros s Hs.
  destruct (gathered_summary path_join float_of_string world urls save_dir s Hs)
    as (Hl & _ & -> & _).
  rewrite <- Hcount. apply gather_spec in Hl.
  rewrite <- (count_map (fun r : halt + bool =>
                           match r with inr true => true | _ => false end)
                        result_of), Hl, count_map.
  unfold count. do 2 f_equal. apply filter_ext. now intros [e|[|]].
Qed.

End BatchMore.

(** ** The scheduler, continued *)

Lemma connected_le_holds (p : phase) : 0 <= connected p <= holds p.
Proof. destruct p; cbn; lia. Qed.

Lemma connected_tasks_bounds (l : list task_state) :
  0 <= connected_tasks l <= holders l.
Proof.
  unfold connected_tasks, holders.
  induction l as [|t l IH]; cbn [map]; [cbn; lia | ].
  rewrite !sum_cons. pose proof (connected_le_holds (task_phase t)). lia.
Qed.

Lemma holders_nonneg (l : list task_state) : 0 <= holders l.
Proof. pose proof (connected_tasks_bounds l). lia. Qed.

Lemma holders_in (l : list task_state) (t : task_state) :
  In t l -> holds (task_phase t) <= holders l.
Proof.
  intros Hin. apply in_split in Hin as (before & after & ->).
  rewrite holders_split.
  pose proof (holders_nonneg before). pose proof (holders_nonneg after). lia.
Qed.

(** The connector never refuses a task of a run: the semaphore lets in at
    most two. *)
Lemma invariant_in_use (s : sched) :
  gates_invariant s -> 0 <= in_use s < connector_limit.
Proof.
  intros [_ Hpermits Hnonneg Hin_use _].
  pose proof (connected_tasks_bounds (running s)).
  unfold semaphore_value, connector_limit in *. lia.
Qed.

(** A task inside the semaphore can take its next step, when it has one. *)
Lemma holder_ready (permits in_use : Z) (t : task_state) :
  well_bracketed t -> holds (task_phase t) = 1 ->
  in_use < connector_limit ->
  asleep t = false ->
  ready permits in_use t = true.
Proof.
  intros (p & q & Hdone & Htodo) Hholds Hfree Hawake.
  unfold asleep in Hawake. rewrite Hholds in Hawake.
  unfold task_phase in Hholds. rewrite Hdone in Hholds. unfold ready.
  destruct (todo t) as [|ev rest]; [discriminate Hawake | ].
  cbn [phase_after] in Htodo.
  destruct p; try discriminate Hholds;
    destruct ev; try discriminate Htodo; cbn [enabled];
    try reflexivity; now apply Z.ltb_lt.
Qed.

Lemma waiting_ready (permits in_use : Z) (t : task_state) :
  well_bracketed t -> holds (task_phase t) = 0 -> 0 < permits ->
  ready permits in_use t = false -> todo t = [].
Proof.
  intros (p & q & Hdone & Htodo) Hholds Hpermits Hready. unfold task_phase in Hholds.
  rewrite Hdone in Hholds. unfold ready in Hready.
  destruct (todo t) as [|ev rest]; [reflexivity | ].
  cbn [phase_after] in Htodo.
  destruct p; try discriminate Hholds;
    destruct ev; try discriminate Htodo.
  cbn [enabled] in Hready. apply Z.ltb_ge in Hready. lia.
Qed.

Lemma none_ready_no_holder (permits in_use : Z) (l : list task_state) :
  Forall well_bracketed l -> in_use < connector_limit ->
  Forall (fun t => asleep t = false) l ->
  Forall (fun t => ready permits in_use t = false) l ->
  holders l = 0.
Proof.
  intros Hl Hfree. induction Hl as [|t l Ht Hl IH]; intros Hawake Hnone;
    [reflexivity | ].
  apply Forall_cons_iff in Hnone as [Hnot Hnone].
  apply Forall_cons_iff in Hawake as [Hwake Hawake].
  unfold holders in *. cbn [map]. rewrite sum_cons, (IH Hawake Hnone).
  destruct (task_phase t) eqn:Hp; cbn [holds]; try reflexivity;
    rewrite (holder_ready permits in_use t Ht) in Hnot;
    try discriminate Hnot; try assumption; now rewrite Hp.
Qed.

Lemma holds_zero (l : list task_state) :
  holders l = 0 -> Forall (fun t => holds (task_phase t) = 0) l.
Proof.
  induction l as [|t l IH]; intros H; constructor.
  - unfold holders in H. cbn [map] in H. rewrite sum_cons in H.
    pose proof (holders_nonneg l). pose proof (connected_le_holds (task_phase t)).
    unfold holders in *. lia.
  - apply IH. unfold holders in *. cbn [map] in H. rewrite sum_cons in H.
    pose proof (holders_nonneg l). pose proof (connected_le_holds (task_phase t)).
    unfold holders in *. lia.
Qed.

Lemma find_ready (permits in_use : Z) (l : list task_state) :
  Forall (fun t => ready permits in_use t = false) l \/
  exists before t after, l = before ++ t :: after /\ ready permits in_use t = true.
Proof.
  induction l as [|t l [IH | (before & t' & after & -> & Hready)]].
  - left. constructor.
  - destruct (ready permits in_use t) eqn:Hready.
    + right. exists [], t, l. now split.
    + left. now constructor.
  - right. exists (t :: before), t', after. now split.
Qed.

Lemma find_asleep (l : list task_state) :
  Forall (fun t => asleep t = false) l \/
  exists t, In t l /\ asleep t = true.
Proof.
  induction l as [|t l [IH | (t' & Hin & Ht')]].
  - left. constructor.
  - destruct (asleep t) eqn:Ht.
    + right. exists t. split; [now left | assumption].
    + left. now constructor.
  - right. exists t'. split; [now right | assumption].
Qed.

(** From a state where the gates are in order, some task can take a step,
    or every task is through and the gates are as they were at the start,
    or a task sleeps for ever inside the semaphore. *)
Lemma invariant_progress (s : sched) :
  gates_invariant s ->
  (exists s', step s s') \/
  (all_done s /\ permits s = semaphore_value /\ in_use s = 0) \/
  (exists t, In t (running s) /\ asleep t = true).
Proof.
  intros Hinv. pose proof (invariant_in_use s Hinv) as Hfree.
  destruct Hinv as [Htasks Hpermits Hnonneg Hin_use _].
  destruct s as [free used l]. cbn [permits in_use running] in *.
  destruct (find_asleep l) as [Hawake | Hasleep]; [ | now right; right].
  destruct (find_ready free used l)
    as [Hnone | (before & [d pend] & after & -> & Hready)].
  - right. left.
    pose proof (none_ready_no_holder free used l Htasks (proj2 Hfree)
                  Hawake Hnone) as Hno.
    pose proof (connected_tasks_bounds l) as Hconn.
    rewrite Hno in Hpermits, Hconn.
    split; [ | split; lia].
    unfold all_done. cbn [running].
    pose proof (holds_zero l Hno) as Hzero.
    rewrite Forall_forall in *. intros t Ht.
    apply (waiting_ready free used t); auto.
    unfold semaphore_value in *. lia.
  - left. unfold ready in Hready. cbn [todo] in Hready.
    destruct pend as [|ev rest]; [discriminate Hready | ].
    eexists. now constructor.
Qed.

Lemma step_remaining (s s' : sched) :
  step s s' -> remaining s' = remaining s - 1 /\ events_of s' = events_of s.
Proof.
  intros [free used before after d ev rest _].
  unfold remaining, events_of. cbn [running].
  rewrite !map_app, !sum_app. cbn [map todo done List.length].
  rewrite !sum_cons, <- app_assoc. cbn [app]. split; [lia | reflexivity].
Qed.

Lemma remaining_nonneg (s : sched) : 0 <= remaining s.
Proof.
  unfold remaining. induction (running s) as [|t l IH]; cbn [map]; [cbn; lia | ].
  rewrite sum_cons. lia.
Qed.

Lemma reachable_trans (s0 s1 s2 : sched) :
  reachable s0 s1 -> reachable s1 s2 -> reachable s0 s2.
Proof.
  intros H01 H12. induction H12; [assumption | ].
  eapply reachable_step; eassumption.
Qed.

Lemma reachable_events (s0 s : sched) :
  reachable s0 s ->
  events_of s = events_of s0 /\ remaining s <= remaining s0.
Proof.
  induction 1 as [|s s' _ [IHe IHr] Hstep]; [split; [reflexivity | lia] | ].
  destruct (step_remaining s s' Hstep) as [Hr He]. split; [congruence | lia].
Qed.

Lemma all_done_events (s : sched) :
  all_done s -> map done (running s) = events_of s.
Proof.
  unfold all_done, events_of. induction 1 as [|t l Ht _ IH]; [reflexivity | ].
  cbn [map]. now rewrite Ht, app_nil_r, IH.
Qed.

(** From a state where the gates are in order and from which no task is ever
    found asleep, the run can go on until every task is through. *)
Lemma invariant_completes (n : nat) (s : sched) :
  gates_invariant s ->
  (forall s', reachable s s' -> Forall (fun t => asleep t = false) (running s')) ->
  remaining s <= Z.of_nat n ->
  exists s', reachable s s' /\ all_done s' /\
             permits s' = semaphore_value /\ in_use s' = 0.
Proof.
  revert s. induction n as [|n IH]; intros s Hinv Hawake Hn;
    (destruct (invariant_progress s Hinv) as [[s' Hstep] | [Hdone | Hasleep]];
     [ | exists s; split; [constructor | assumption] | ]).
  - destruct (step_remaining s s' Hstep) as [Hr _].
    pose proof (remaining_nonneg s'). lia.
  - destruct Hasleep as (t & Hin & Ht).
    pose proof (Hawake s (reachable_start s)) as Hall.
    rewrite Forall_forall in Hall. rewrite (Hall t Hin) in Ht. discriminate Ht.
  - destruct (step_remaining s s' Hstep) as [Hr _].
    assert (reachable s s') as Hss'
      by (eapply reachable_step; [constructor | exact Hstep]).
    destruct (IH s' (step_preserves s s' Hinv Hstep)) as (s'' & Hreach & Hfinal).
    + intros x Hx. apply Hawake. eapply reachable_trans; eassumption.
    + lia.
    + exists s''. split; [ | assumption].
      eapply reachable_trans; eassumption.
  - destruct Hasleep as (t & Hin & Ht).
    pose proof (Hawake s (reachable_start s)) as Hall.
    rewrite Forall_forall in Hall. rewrite (Hall t Hin) in Ht. discriminate Ht.
Qed.

Section SchedulerMore.

Variable path_join : string -> string -> string.
Variable float_of_string : string -> option pyfloat.

Local Abbreviation batch_of := (download_all_files path_join float_of_string).

(** In a state of a run, a task that has done all its events is where its
    trace ends. *)
Lemma reachable_last_phase (world : nat -> Z -> attempt_env)
    (urls : list (option string * datetime)) (save_dir : string) (s : sched) :
  reachable (start_of (batch_of world urls save_dir)) s ->
  (forall t, In t (running s) -> todo t = [] ->
     exists m, In m (tasks (batch_of world urls save_dir)) /\
               done t = trace_of m /\ task_phase t = last_phase m) /\
  (forall m, In m (tasks (batch_of world urls save_dir)) ->
     exists t, In t (running s) /\ done t ++ todo t = trace_of m).
Proof.
  intros Hreach.
  assert (map (fun t => done t ++ todo t) (running s)
          = map trace_of (tasks (batch_of world urls save_dir))) as Hevents.
  { destruct (reachable_events _ s Hreach) as [H _].
    unfold events_of, start_of in H. cbn [running] in H.
    rewrite map_map in H. exact H. }
  split.
  - intros t Hin Htodo.
    apply (in_map (fun t => done t ++ todo t)) in Hin.
    rewrite Hevents in Hin. apply in_map_iff in Hin as (m & Hm & Hin).
    rewrite Htodo, app_nil_r in Hm. exists m. split; [exact Hin | ].
    split; [now symmetry | ].
    rewrite tasks_spawn in Hin.
    pose proof (spawn_phase path_join float_of_string world urls save_dir 0) as P.
    rewrite Forall_forall in P. unfold task_phase. rewrite <- Hm.
    now rewrite (P m Hin).
  - intros m Hin. apply (in_map trace_of) in Hin. rewrite <- Hevents in Hin.
    apply in_map_iff in Hin as (t & Ht & Hin). now exists t.
Qed.

Lemma ends_last_phase {A : Type} (m : M A) : ends m -> last_phase m = Finished.
Proof.
  unfold ends, last_phase. destruct (result_of m) as [[e|]|a]; congruence.
Qed.

(** When every task ends, no task is ever found asleep. *)
Lemma reachable_awake (world : nat -> Z -> attempt_env)
    (urls : list (option string * datetime)) (save_dir : string) (s : sched) :
  (forall m, In m (tasks (batch_of world urls save_dir)) -> ends m) ->
  reachable (start_of (batch_of world urls save_dir)) s ->
  forall t, In t (running s) -> asleep t = false.
Proof.
  intros Hends Hreach t Hin. unfold asleep.
  destruct (todo t) as [|ev rest] eqn:Htodo; [ | reflexivity].
  destruct (reachable_last_phase world urls save_dir s Hreach) as [Hlast _].
  destruct (Hlast t Hin Htodo) as (m & Hm & _ & ->).
  now rewrite (ends_last_phase m (Hends m Hm)).
Qed.

(** X25. The gates never block a run: in every state an interleaving can
    reach, some task can take its next step, or every task is through its
    events and the semaphore and the connector are as they were at the
    start, or a task sleeps for ever inside the semaphore, which no task
    does when every task ends. The connector in particular never makes a
    task wait, two tasks at most being let in by the semaphore. *)
Theorem gates_never_deadlock (world : nat -> Z -> attempt_env)
    (urls : list (option string * datetime)) (save_dir : string) (s : sched) :
  reachable (start_of (batch_of world urls save_dir)) s ->
  in_use s < connector_limit /\
  ((exists s', step s s') \/
   (all_done s /\ permits s = semaphore_value /\ in_use s = 0) \/
   (exists t, In t (running s) /\ asleep t = true)) /\
  ((forall m, In m (tasks (batch_of world urls save_dir)) -> ends m) ->
   forall t, In t (running s) -> asleep t = false).
Proof.
  intros Hreach.
  pose proof (reachable_invariant _ s (start_invariant path_join float_of_string
                                        world urls save_dir) Hreach) as Hinv.
  split; [apply (invariant_in_use s Hinv) | ].
  split; [apply (invariant_progress s Hinv) | ].
  intros Hends. exact (reachable_awake world urls save_dir s Hends Hreach).
Qed.

(** X26. Every interleaving comes to a stop: each step takes one event off
    those still to come, so a run from the start has no more steps than the
    tasks have events. When every task ends, the run can go on, from every
    state it reaches, to one where each task has done the events of its own
    trace, in their order, and the gates are as at the start. When a task
    never ends, no state with every task through its events has the
    semaphore back at its value: the run does not complete. *)
Theorem every_run_completes (world : nat -> Z -> attempt_env)
    (urls : list (option string * datetime)) (save_dir : string) (s : sched) :
  let b := batch_of world urls save_dir in
  reachable (start_of b) s ->
  0 <= remaining s <= remaining (start_of b) /\
  (forall s', step s s' -> remaining s' = remaining s - 1) /\
  ((forall m, In m (tasks b) -> ends m) ->
   exists final,
     reachable s final /\
     map done (running final) = map trace_of (tasks b) /\
     all_done final /\
     permits final = semaphore_value /\ in_use final = 0) /\
  ((exists m, In m (tasks b) /\ result_of m = inl Hangs) ->
   forall final,
     reachable s final -> all_done final -> permits final < semaphore_value).
Proof.
  cbv zeta. intros Hreach.
  pose proof (reachable_invariant _ s (start_invariant path_join float_of_string
                                        world urls save_dir) Hreach) as Hinv.
  destruct (reachable_events _ s Hreach) as [Hevents Hle].
  split; [split; [apply remaining_nonneg | exact Hle] | ].
  split; [intros s' Hstep; apply (step_remaining s s' Hstep) | ].
  split.
  - intros Hends.
    destruct (invariant_completes (Z.to_nat (remaining s)) s Hinv) as
      (final & Hfinal & Hdone & Hgates).
    { intros s' Hs'. apply Forall_forall.
      apply (reachable_awake world urls save_dir s' Hends).
      eapply reachable_trans; eassumption. }
    { pose proof (remaining_nonneg s). lia. }
    exists final. split; [assumption | ]. split; [ | now split].
    rewrite (all_done_events final Hdone).
    destruct (reachable_events _ final Hfinal) as [-> _]. rewrite Hevents.
    unfold events_of, start_of. cbn [running]. rewrite map_map. reflexivity.
  - intros (m & Hin & Hm) final Hfinal Hdone.
    assert (reachable (start_of (batch_of world urls save_dir)) final) as Hreach'
      by (eapply reachable_trans; eassumption).
    destruct (reachable_last_phase world urls save_dir final Hreach')
      as [Hlast Hall].
    destruct (Hall m Hin) as (t & Ht & Htrace).
    unfold all_done in Hdone. rewrite Forall_forall in Hdone.
    destruct (Hlast t Ht (Hdone t Ht)) as (m' & _ & Hm' & Hphase).
    rewrite (Hdone t Ht), app_nil_r in Htrace.
    assert (task_phase t = Connected) as Hconnected.
    { pose proof (spawn_phase path_join float_of_string world urls save_dir 0) as P.
      rewrite Forall_forall in P. rewrite tasks_spawn in Hin.
      unfold task_phase. rewrite Htrace, (P m Hin).
      unfold last_phase. now rewrite Hm. }
    pose proof (holders_in (running final) t Ht) as Hholds.
    rewrite Hconnected in Hholds. cbn [holds] in Hholds.
    destruct (reachable_invariant _ final
                (start_invariant path_join float_of_string world urls save_dir)
                Hreach') as [_ Hpermits _ _ _].
    lia.
Qed.

End SchedulerMore.

(** ** The further properties at the example inputs *)

Lemma get_filename_same_name_witness :
  strftime_dmY_gregorian new_year_2020
  = strftime_dmY_gregorian (new_year_2020 + 3600000000).
Proof.
  apply (get_filename_same_name strftime_dmY_gregorian "g" "w" None
           new_year_2020 (new_year_2020 + 3600000000)
           "dwbfgreyhoundwin01012020.csv");
    reflexivity.
Defined.

Lemma generate_all_filenames_entries_witness :
  Some "dwbfpricesukwin02012020.csv"
  = get_filename strftime_dmY_gregorian "h" "w"
      (new_year_2020 + us_per_day) (Some "uk") /\
  new_year_2020 <= new_year_2020 + us_per_day <= new_year_2020 + 2 * us_per_day.
Proof.
  destruct (generate_all_filenames_entries strftime_dmY_gregorian (Some "uk")
              "h" "w" new_year_2020 (new_year_2020 + 2 * us_per_day)
              [(Some "dwbfpricesukwin01012020.csv", new_year_2020);
               (Some "dwbfpricesukwin02012020.csv", new_year_2020 + us_per_day);
               (Some "dwbfpricesukwin03012020.csv",
                new_year_2020 + 2 * us_per_day)]
              eq_refl
              (Some "dwbfpricesukwin02012020.csv") (new_year_2020 + us_per_day))
    as (Hname & Hdate & _).
  - right. left. reflexivity.
  - split; assumption.
Defined.

Lemma create_directory_name_selection_witness :
  Some "uk" = Some "uk" /\ "h" = "h" /\ "w" = "w".
Proof.
  apply (create_directory_name_selection isoformat_gregorian
           (Some "uk") (Some "uk") "h" "h" "w" "w"
           new_year_2020 (new_year_2020 + 2 * us_per_day)
           new_year_2020 (new_year_2020 + 2 * us_per_day)).
  - split; [left; split; [reflexivity | exists "uk"; now split] | now left].
  - split; [left; split; [reflexivity | exists "uk"; now split] | now left].
  - reflexivity.
Defined.

Lemma combine_files_text_witness :
  combine_files posix_join (two_csv_files (fun _ => false)) "d" "d"
  = mkCombined
      (Some (text_line "date,price" ++ text_line "1,2.5" ++ text_line "2,3.5")%string)
      [CombineDone "d.csv"].
Proof.
  apply (combine_files_text posix_join (two_csv_files (fun _ => false))
           "d" "d" [csv_a; csv_b]).
  - reflexivity.
  - repeat constructor.
Defined.

Lemma combine_files_one_header_witness :
  output (combine_files posix_join (two_csv_files (fun _ => false)) "d" "d")
  = Some ("date,price"
            ++ String newline
                 (String.concat "" [text_line "1,2.5"; text_line "2,3.5"]))%string.
Proof.
  apply (combine_files_one_header posix_join (two_csv_files (fun _ => false))
           "d" "d" "date,price" (text_line "1,2.5") [text_line "2,3.5"]).
  - reflexivity.
  - reflexivity.
  - repeat constructor.
Defined.

Lemma combine_files_read_error_witness :
  combine_files posix_join
    (two_csv_files (fun file => (file =? "d/b.csv")%string)) "d" "d"
  = mkCombined (Some csv_a)
      [CombineError (IOError "Permission denied"); CombineDone "d.csv"].
Proof.
  apply (combine_files_read_error posix_join
           (two_csv_files (fun file => (file =? "d/b.csv")%string))
           "d" "d" "d/b.csv" ["d/a.csv"] [] [csv_a]
           (IOError "Permission denied")).
  - reflexivity.
  - reflexivity.
  - repeat constructor.
  - reflexivity.
Defined.

Lemma get_race_type_first_valid_witness :
  get_race_type as_typed as_typed (typed ["x"; "h"; "w"])
  = ([SayRaceType; AskRaceType; SayRaceTypeInvalid; SayRaceType; AskRaceType],
     inr "h", typed ["w"]).
Proof.
  apply (get_race_type_first_valid as_typed as_typed (typed ["x"])).
  - constructor; [ | constructor]. split; discriminate.
  - now left.
Defined.

Lemma get_country_in_table_witness :
  exists name, lookup "uk" COUNTRIES_MAP = Some name.
Proof.
  apply (get_country_in_table as_typed as_typed (typed ["de"; "uk"]) []
           (SayCountries
              :: map (fun item => SayCountry (fst item) (snd item)) COUNTRIES_MAP
              ++ [AskCountry; SayCountryInvalid (map fst COUNTRIES_MAP);
                  AskCountry])
           "uk" eq_refl).
Defined.

Lemma get_start_date_bounds_witness :
  exists line now,
    In (line, now) (typed ["soon"; "01/01/2020"]) /\
    strptime_2020 (as_typed line) = Some new_year_2020 /\
    EARLIEST_DATE <= new_year_2020 <= now.
Proof.
  exact (get_start_date_bounds as_typed strptime_2020
           (typed ["soon"; "01/01/2020"]) []
           [SayStartDate EARLIEST_DATE; AskDate; SayDateFormat;
            SayStartDate EARLIEST_DATE; AskDate]
           new_year_2020 eq_refl).
Defined.

Lemma get_end_date_bounds_witness :
  exists line now,
    In (line, now) (typed ["today"]) /\
    midnight noon_2021 <= now.
Proof.
  destruct (get_end_date_bounds as_typed as_typed strptime_2020 new_year_2020
              (typed ["today"]) [] end_date_menu (midnight noon_2021) eq_refl)
    as (line & now & Hin & Hle & _).
  exists line, now. now split.
Defined.

Lemma get_end_date_yesterday_witness :
  get_end_date as_typed as_typed strptime_2020 (midnight noon_2021)
    (typed ["yesterday"])
  = (end_date_menu, inr (midnight noon_2021 - us_per_day), []) /\
  midnight noon_2021 - us_per_day < midnight noon_2021.
Proof.
  destruct (get_end_date_yesterday as_typed as_typed strptime_2020
              (midnight noon_2021) "yesterday" noon_2021 [] eq_refl)
    as [Hreturns Hbefore].
  - split; vm_compute; [intros H; discriminate H | reflexivity].
  - split; [exact Hreturns | ]. apply Hbefore. vm_compute. intros H. discriminate H.
Defined.

Lemma display_summary_declined_witness :
  snd (fst (display_summary as_typed as_typed None "g" "p" new_year_2020
              (new_year_2020 + 2 * us_per_day) false (typed ["maybe"; "no"; "y"])))
  = inl (Exited 0).
Proof.
  assert (Forall (fun l : string * datetime =>
                    let confirm := as_typed (as_typed (fst l)) in
                    confirm <> "y" /\ confirm <> "yes" /\ confirm <> "n"
                    /\ confirm <> "no") (typed ["maybe"])) as Hskipped
    by (constructor; [ | constructor]; repeat split; discriminate).
  pose proof (display_summary_declined as_typed as_typed None "g" "p"
                new_year_2020 (new_year_2020 + 2 * us_per_day) false
                "All Countries" (typed ["maybe"]) "no" noon_2021 (typed ["y"])
                eq_refl Hskipped (or_intror eq_refl)) as H.
  change (typed ["maybe"] ++ ("no", noon_2021) :: typed ["y"])
    with (typed ["maybe"; "no"; "y"]) in H.
  now rewrite H.
Defined.

Lemma display_summary_unknown_country_witness :
  display_summary as_typed as_typed (Some "de") "h" "w" new_year_2020
    new_year_2020 false (typed ["y"])
  = ([SayRule true 50; SaySummaryTitle; SayRule false 50],
     inl (Raised (OtherError "KeyError")), typed ["y"]).
Proof.
  apply (display_summary_unknown_country as_typed as_typed "de");
    [discriminate | reflexivity].
Defined.

Lemma user_input_loop_validated_witness :
  exists o sel p',
    user_input_loop as_typed as_typed strptime_2020 horse_dialogue
    = (o, inr sel, p') /\
    sel_country sel = Some "uk" /\
    (validated (sel_country sel) (sel_race_type sel) (sel_market sel) /\
     names_a_file (sel_race_type sel) (sel_market sel) (sel_country sel) = true /\
     EARLIEST_DATE <= sel_start_date sel /\
     In (SaySummaryDays
           (days_between (sel_end_date sel) (sel_start_date sel) + 1)) o).
Proof.
  eexists; eexists; eexists.
  split; [vm_compute; reflexivity | ]. split; [reflexivity | ].
  refine (user_input_loop_validated as_typed as_typed strptime_2020
            horse_dialogue _ _ _ _).
  vm_compute. reflexivity.
Defined.

Lemma strptime_2020_midnight (s : string) (d : datetime) :
  strptime_2020 s = Some d -> time_of_day d = 0.
Proof.
  unfold strptime_2020.
  destruct (s =? "01/01/2020")%string; [intros [= <-]; reflexivity | ].
  destruct (s =? "03/01/2020")%string; [intros [= <-]; reflexivity | discriminate].
Defined.

Lemma main_downloads_what_it_displays_witness :
  let r := main as_typed as_typed strptime_2020 strftime_dmY_gregorian
             isoformat_gregorian posix_join float_of_digits posix_join
             quiet_world in
  exists filenames b,
    planned_files r = Some filenames /\
    downloads r = Some b /\
    In (SaySummaryDays (Z.of_nat (List.length filenames))) (terminal r).
Proof.
  cbv zeta.
  destruct (main_downloads_what_it_displays as_typed as_typed strptime_2020
              strftime_dmY_gregorian isoformat_gregorian posix_join
              float_of_digits posix_join quiet_world
              (fst (fst (user_input_loop as_typed as_typed strptime_2020
                           greyhound_dialogue)))
              (mkSelection None "g" "p" new_year_2020
                 (new_year_2020 + 2 * us_per_day) true)
              [])
    as (filenames & b & Hplanned & Hdownloads & Hdays & _).
  - exact strptime_2020_midnight.
  - cbn. repeat split; vm_compute; first [reflexivity | intros H; discriminate H].
  - vm_compute. reflexivity.
  - reflexivity.
  - exists filenames, b. repeat split; assumption.
Defined.

Lemma get_market_type_first_valid_witness :
  get_market_type as_typed as_typed (typed ["win"; "p"; "uk"])
  = ([SayMarketType; AskMarketType; SayMarketInvalid; SayMarketType; AskMarketType],
     inr "p", typed ["uk"]).
Proof.
  apply (get_market_type_first_valid as_typed as_typed (typed ["win"])).
  - constructor; [ | constructor]. split; discriminate.
  - now right.
Defined.

Lemma get_combine_confirmation_as_typed_witness :
  get_combine_confirmation (typed ["Y"; " yes"; "no"; "y"])
  = ([AskCombine; SayYesOrNo; AskCombine; SayYesOrNo; AskCombine],
     inr false, typed ["y"]).
Proof.
  apply (get_combine_confirmation_as_typed (typed ["Y"; " yes"]) "no" noon_2021
           (typed ["y"])).
  - repeat constructor; cbn [fst In]; intros H;
      repeat (destruct H as [H | H]; [discriminate H | ]); exact H.
  - cbn. tauto.
Defined.

Lemma network_errors_exhaust_retries_witness :
  let r := download_file_async posix_join float_of_digits always_offline
             (Some uk_win_file) new_year_2020 uk_win_dir in
  fails_with (always_offline 3) (ClientError "Cannot connect to host") /\
  result_of r = inr false /\
  List.length (gets (trace_of r)) = 4%nat /\
  waits (trace_of r) = [[(1 # 10)%Q]; [1%Q]; [2%Q]; [4%Q]; []] /\
  nth 6 (prints (trace_of r)) (MsgStarting 0)
  = MsgNetworkError new_year_2020 "Cannot connect to host".
Proof.
  cbv zeta. split; [now left | ].
  destruct (network_errors_exhaust_retries posix_join float_of_digits
              always_offline uk_win_file new_year_2020 uk_win_dir
              (fun _ => "Cannot connect to host"))
    as (Hresult & Hgets & Hwaits & Hprints).
  - intros j _. now left.
  - rewrite Hresult, Hgets, Hwaits, Hprints. repeat split.
Defined.

Lemma other_errors_fail_without_retry_witness :
  let r := download_file_async posix_join float_of_digits broken_pipe
             (Some uk_win_file) new_year_2020 uk_win_dir in
  fails_with (broken_pipe 0) (IOError "Broken pipe") /\
  result_of r = inr false /\
  prints (trace_of r) = [MsgFileError new_year_2020 "Broken pipe"] /\
  gets (trace_of r) = [(BASE_URL ++ uk_win_file)%string] /\
  writes (trace_of r) = [].
Proof.
  cbv zeta.
  assert (fails_with (broken_pipe 0) (IOError "Broken pipe")) as Hfails.
  { right. eexists. repeat split. }
  split; [exact Hfails | ].
  destruct (other_errors_fail_without_retry posix_join float_of_digits
              broken_pipe uk_win_file new_year_2020 uk_win_dir 0
              (IOError "Broken pipe"))
    as (Hresult & Htrace & Hwrites).
  - unfold max_retries. lia.
  - apply reaches_0.
  - exact Hfails.
  - left. now exists "Broken pipe".
  - split; [exact Hresult | ].
    split; [rewrite Htrace; reflexivity | ].
    split; [rewrite Htrace; reflexivity | exact Hwrites].
Defined.


Lemma three_tasks_end (m : M bool) : In m (tasks three_tasks) -> ends m.
Proof.
  intros [<- | [<- | [<- | []]]]; intros H; discriminate H.
Defined.

Lemma gates_never_deadlock_witness :
  reachable (start_of three_tasks) two_inside /\
  ready (permits two_inside) (in_use two_inside)
        (nth 2 (running two_inside) (mkTask [] [])) = false /\
  in_use two_inside < connector_limit /\
  ((exists s', step two_inside s') \/
   (all_done two_inside /\ permits two_inside = semaphore_value
    /\ in_use two_inside = 0) \/
   (exists t, In t (running two_inside) /\ asleep t = true)) /\
  forall t, In t (running two_inside) -> asleep t = false.
Proof.
  split; [exact two_inside_reachable | ]. split; [reflexivity | ].
  destruct (gates_never_deadlock posix_join float_of_digits (fun _ => always_200)
              [(Some uk_win_file, new_year_2020);
               (Some uk_win_file, new_year_2020);
               (Some uk_win_file, new_year_2020)] uk_win_dir two_inside
              two_inside_reachable) as (Hfree & Hprogress & Hawake).
  split; [exact Hfree | ]. split; [exact Hprogress | ].
  exact (Hawake three_tasks_end).
Defined.

Lemma every_run_completes_witness :
  reachable (start_of three_tasks) two_inside /\
  remaining two_inside = remaining (start_of three_tasks) - 4 /\
  exists final,
    reachable two_inside final /\
    map done (running final) = map trace_of (tasks three_tasks) /\
    all_done final /\
    permits final = semaphore_value /\ in_use final = 0.
Proof.
  split; [exact two_inside_reachable | ]. split; [reflexivity | ].
  destruct (every_run_completes posix_join float_of_digits (fun _ => always_200)
              [(Some uk_win_file, new_year_2020);
               (Some uk_win_file, new_year_2020);
               (Some uk_win_file, new_year_2020)] uk_win_dir two_inside
              two_inside_reachable) as (_ & _ & Hcomplete & _).
  exact (Hcomplete three_tasks_end).
Defined.
